(** * netd host-network reconciliation core: [pkg/config/config.go]

    A shallow embedding of the [Config] variants of package [config] and of
    their [Ensure] methods, with the properties the specification states
    about them.

    The Go code talks to the kernel and to iptables only through function
    values and an interface stored in each config ([RouteAdd], [RuleDel],
    [RuleList], the [iptabler] interface, ...).  The embedding keeps that
    shape: the outside world is a type parameter [W], every pluggable
    function is a state-passing function on [W], and every call that leaves
    the package is recorded as an [Event], so that statements about which
    calls are issued, and in which order, are statements about a list. *)

From Stdlib Require Import ZArith String Ascii List Lia Bool.
From stdpp Require Import base decidable option list strings gmap.
From Equations Require Import Equations.
Import ListNotations.

Open Scope string_scope.
Open Scope list_scope.
Open Scope Z_scope.

(** ** Go values used by the package *)

(** A Go slice is either [nil] or a sequence of elements; [reflect.DeepEqual]
    tells the two apart, so the model does too. *)
Abbreviation slice A := (option (list A)).

(** Dynamic types of the [error] values the package inspects.  A Go [error]
    interface value is [option error], [None] being [nil]. *)
Inductive OsWrapper : Type := PathError | LinkError | SyscallError.

Inductive error : Type :=
| Errno (errno : Z)                           (* syscall.Errno *)
| ErrExist                                    (* the sentinel os.ErrExist *)
| OsError (kind : OsWrapper) (Err : error)    (* *os.PathError, *os.LinkError, *os.SyscallError *)
| IptablesError (exitStatus : Z) (text : string)
                                              (* *iptables.Error: ExitStatus() and Error() *)
| ErrorString (msg : string).                 (* errors.New, fmt.Errorf *)

Definition ESRCH : Z := 3.
Definition EEXIST : Z := 17.
Definition ENOTEMPTY : Z := 39.
Definition AF_INET : Z := 2.

(** [os.IsExist]: unwrap the three os wrapper types once, then accept the
    sentinel, or an errno that [Errno.Is] maps to [ErrExist]. *)
Definition underlyingError (e : error) : error :=
  match e with
  | OsError _ inner => inner
  | _ => e
  end.

Definition os_IsExist (err : option error) : bool :=
  match err with
  | None => false
  | Some e =>
      match underlyingError e with
      | ErrExist => true
      | Errno n => (n =? EEXIST) || (n =? ENOTEMPTY)
      | _ => false
      end
  end.

(** [strings.Contains]. *)
Fixpoint strings_Contains (s substr : string) : bool :=
  String.prefix substr s ||
  match s with
  | EmptyString => false
  | String _ rest => strings_Contains rest substr
  end.

(** [net.IPNet]: two byte slices. *)
Record IPNet : Type := { IP : slice Z; Mask : slice Z }.

#[global] Instance IPNet_eq_dec : EqDecision IPNet.
Proof. solve_decision. Defined.

(** [netlink.RulePortRange]. *)
Record RulePortRange : Type := { Start : Z; End_ : Z }.

#[global] Instance RulePortRange_eq_dec : EqDecision RulePortRange.
Proof. solve_decision. Defined.

(** [netlink.Rule].  The struct is declared by the netlink library; pointer
    fields are [option], so that structural equality on this record is
    [reflect.DeepEqual] on the Go struct.  [RMask] is the field [Mask] of the
    rule, renamed apart from the [Mask] of [IPNet]. *)
Record Rule : Type := {
  Priority : Z;
  Family : Z;
  Table : Z;
  Mark : Z;
  RMask : Z;
  Tos : Z;
  TunID : Z;
  Goto : Z;
  Src : option IPNet;
  Dst : option IPNet;
  Flow : Z;
  IifName : string;
  OifName : string;
  SuppressIfgroup : Z;
  SuppressPrefixlen : Z;
  Invert : bool;
  Dport : option RulePortRange;
  Sport : option RulePortRange
}.

#[global] Instance Rule_eq_dec : EqDecision Rule.
Proof. solve_decision. Defined.

(** [netlink.Route], reduced to the fields the specification names; the
    package never looks inside a route, it only hands it to [RouteAdd] and
    [RouteDel]. *)
Record Route : Type := {
  RouteDst : option IPNet;
  Gw : slice Z;
  LinkIndex : Z;
  RouteTable : Z;
  Scope : Z
}.

#[global] Instance Route_eq_dec : EqDecision Route.
Proof. solve_decision. Defined.

(** [IPTablesRuleSpec]. *)
Abbreviation IPTablesRuleSpec := (list string).

(** ** Calls that leave the package *)

Inductive Event : Type :=
| EvSysctl (name : string) (params : list string) (out : string) (err : option error)
| EvRouteAdd (route : Route) (err : option error)
| EvRouteDel (route : Route) (err : option error)
| EvRuleAdd (rule : Rule) (err : option error)
| EvRuleDel (rule : Rule) (err : option error)
| EvRuleList (family : Z) (rules : list Rule) (err : option error)
| EvNewChain (table chain : string) (err : option error)
| EvClearChain (table chain : string) (err : option error)
| EvDeleteChain (table chain : string) (err : option error)
| EvAppendUnique (table chain : string) (rulespec : list string) (err : option error)
| EvDelete (table chain : string) (rulespec : list string) (err : option error)
| EvGlogErrorf (format : string).

(** The calls among the events: everything but the log lines. *)
Definition is_call (e : Event) : bool :=
  match e with
  | EvGlogErrorf _ => false
  | _ => true
  end.

Definition calls (tr : list Event) : list Event := List.filter is_call tr.

(** A call that returned a nil error. *)
Definition succeeded (e : Event) : Prop :=
  match e with
  | EvSysctl _ _ _ err | EvRouteAdd _ err | EvRouteDel _ err
  | EvRuleAdd _ err | EvRuleDel _ err | EvRuleList _ _ err
  | EvNewChain _ _ err | EvClearChain _ _ err | EvDeleteChain _ _ err
  | EvAppendUnique _ _ _ err | EvDelete _ _ _ err => err = None
  | EvGlogErrorf _ => True
  end.

(** A Go function either returns or panics. *)
Inductive outcome (A : Type) : Type :=
| Returns (a : A)
| Panics.
Arguments Returns {A} a.
Arguments Panics {A}.

Section Package.

Context {W : Type}.

(** A computation reads and updates the world and emits events. *)
Definition M (A : Type) : Type := W -> outcome A * W * list Event.

Definition ret {A} (a : A) : M A := fun w => (Returns a, w, []).

Definition bind {A B} (m : M A) (k : A -> M B) : M B :=
  fun w =>
    match m w with
    | (Returns a, w1, t1) =>
        match k a w1 with
        | (r, w2, t2) => (r, w2, t1 ++ t2)
        end
    | (Panics, w1, t1) => (Panics, w1, t1)
    end.

Definition panic {A} : M A := fun w => (Panics, w, []).

Definition emit (e : Event) : M unit := fun w => (Returns tt, w, [e]).

Definition glog_Errorf (format : string) : M unit := emit (EvGlogErrorf format).

(** Run an external function on the world and record it. *)
Definition extern {A} (f : W -> A * W) (ev : A -> Event) : M A :=
  fun w => match f w with (a, w') => (Returns a, w', [ev a]) end.

Notation "'let*' x := m 'in' k" := (bind m (fun x => k))
  (at level 10, x name, m at level 100, k at level 200).

(** ** Types of config.go

    The add and delete functions receive a pointer to the route or rule of
    the config; the model passes the value, that is, it takes the functions
    not to write through that pointer. *)

Definition sysctler : Type := string -> list string -> W -> (string * option error) * W.

Record SysctlConfig : Type := {
  Key : string;
  Value : string;
  DefaultValue : string;
  SysctlFunc : sysctler
}.

Definition routeAdder : Type := Route -> W -> option error * W.
Definition routeDeler : Type := Route -> W -> option error * W.

Record IPRouteConfig : Type := {
  Route_ : Route;
  RouteAdd : routeAdder;
  RouteDel : routeDeler
}.

Definition ruleAdder : Type := Rule -> W -> option error * W.
Definition ruleDeler : Type := Rule -> W -> option error * W.
Definition ruleLister : Type := Z -> W -> (list Rule * option error) * W.

Record IPRuleConfig : Type := {
  Rule_ : Rule;
  RuleAdd : ruleAdder;
  RuleDel : ruleDeler;
  RuleList : ruleLister
}.

Record iptabler : Type := {
  NewChain : string -> string -> W -> option error * W;
  ClearChain : string -> string -> W -> option error * W;
  DeleteChain : string -> string -> W -> option error * W;
  AppendUnique : string -> string -> list string -> W -> option error * W;
  Delete : string -> string -> list string -> W -> option error * W
}.

Record IPTablesChainSpec : Type := {
  TableName : string;
  ChainName : string;
  IsDefaultChain : bool;
  SpecIPT : iptabler
}.

Record IPTablesRuleConfig : Type := {
  Spec : IPTablesChainSpec;
  RuleSpecs : list IPTablesRuleSpec;
  IPT : iptabler
}.

(** ** SysctlConfig.Ensure *)

Definition SysctlConfig_Ensure (s : SysctlConfig) (enabled : bool) : M (option error) :=
  let value := if enabled then Value s else DefaultValue s in
  let* res := extern (SysctlFunc s (Key s) [value])
                (fun res => EvSysctl (Key s) [value] (fst res) (snd res)) in
  ret (snd res).

(** ** IPRouteConfig.Ensure

    The disabled branch asserts [err.(syscall.Errno)] without the comma-ok
    form: a non-nil error of another dynamic type panics. *)

Definition IPRouteConfig_Ensure (r : IPRouteConfig) (enabled : bool) : M (option error) :=
  if enabled then
    let* err := extern (RouteAdd r (Route_ r)) (EvRouteAdd (Route_ r)) in
    if os_IsExist err then ret None else ret err
  else
    let* err := extern (RouteDel r (Route_ r)) (EvRouteDel (Route_ r)) in
    match err with
    | None => ret None
    | Some (Errno n) => if n =? ESRCH then ret None else ret err
    | Some _ => panic
    end.

(** ** IPRuleConfig *)

Definition set_Priority (p : Z) (r : Rule) : Rule :=
  {| Priority := p; Family := Family r; Table := Table r; Mark := Mark r;
     RMask := RMask r; Tos := Tos r; TunID := TunID r; Goto := Goto r;
     Src := Src r; Dst := Dst r; Flow := Flow r; IifName := IifName r;
     OifName := OifName r; SuppressIfgroup := SuppressIfgroup r;
     SuppressPrefixlen := SuppressPrefixlen r; Invert := Invert r;
     Dport := Dport r; Sport := Sport r |}.

Definition reflect_DeepEqual (x y : Rule) : bool := bool_decide (x = y).

Definition isRuleEqualWithoutPriority (rule1 rule2 : Rule) : bool :=
  let rule1Copy := set_Priority 0 rule1 in
  let rule2Copy := set_Priority 0 rule2 in
  reflect_DeepEqual rule1Copy rule2Copy.

(** The counting loop of [count]. *)
Definition count_matching (target : Rule) (rules : list Rule) : Z :=
  fold_left (fun count rule =>
               if isRuleEqualWithoutPriority rule target then count + 1 else count)
            rules 0.

Definition IPRuleConfig_count (r : IPRuleConfig) : M (Z * option error) :=
  let* res := extern (RuleList r AF_INET) (fun res => EvRuleList AF_INET (fst res) (snd res)) in
  match snd res with
  | Some _ => ret (0, snd res)
  | None => ret (count_matching (Rule_ r) (fst res), None)
  end.

(** The [for ruleCount != ensureCount] loop of [ensureHelper].  [ruleCount]
    is a Go [int]; it starts between [0] and the length of the listed slice
    and moves one step at a time towards [ensureCount], so it never leaves
    the interval between the two and unbounded [Z] arithmetic is exact. *)
Equations? ensureLoop (r : IPRuleConfig) (ensureCount ruleCount : Z) (err : option error)
  : M (option error) by wf (Z.abs_nat (ruleCount - ensureCount)) lt :=
ensureLoop r ensureCount ruleCount err with Z.eq_dec ruleCount ensureCount := {
  | left _ => ret err
  | right _ with Z_gt_dec ruleCount ensureCount := {
    | left _ =>
        let* err1 := extern (RuleDel r (Rule_ r)) (EvRuleDel (Rule_ r)) in
        let* _ := match err1 with
                  | Some _ => glog_Errorf "failed to delete duplicated ip rule: %v, error: %v"
                  | None => ret tt
                  end in
        ensureLoop r ensureCount (ruleCount - 1) err1
    | right _ =>
        let* err1 := extern (RuleAdd r (Rule_ r)) (EvRuleAdd (Rule_ r)) in
        let* err2 := match err1 with
                 | Some _ =>
                     if os_IsExist err1 then ret None
                     else let* _ := glog_Errorf "failed to add ip rule: %v, error: %v" in ret err1
                 | None => ret err1
                 end in
        ensureLoop r ensureCount (ruleCount + 1) err2 } }.
Proof. all: lia. Qed.

Definition IPRuleConfig_ensureHelper (r : IPRuleConfig) (ensureCount : Z) : M (option error) :=
  let* res := IPRuleConfig_count r in
  match snd res with
  | Some _ =>
      let* _ := glog_Errorf "failed to get IP rule count for rule: %v, error: %v" in
      ret (snd res)
  | None => ensureLoop r ensureCount (fst res) None
  end.

Definition IPRuleConfig_Ensure (r : IPRuleConfig) (enabled : bool) : M (option error) :=
  if enabled then IPRuleConfig_ensureHelper r 1 else IPRuleConfig_ensureHelper r 0.

(** ** IPTablesChainSpec.ensure and IPTablesRuleConfig.Ensure *)

(** The test [!eok || eerr.ExitStatus() != status] that follows the comma-ok
    assertion of [err] to the iptables error type. *)
Definition not_iptables_status (status : Z) (e : error) : bool :=
  match e with
  | IptablesError st _ => negb (st =? status)
  | _ => true
  end.

Definition IPTablesChainSpec_ensure (c : IPTablesChainSpec) (enabled : bool) : M (option error) :=
  if enabled then
    let* err := extern (NewChain (SpecIPT c) (TableName c) (ChainName c))
                  (EvNewChain (TableName c) (ChainName c)) in
    match err with
    | Some e => if not_iptables_status 1 e then ret err else ret None
    | None => ret None
    end
  else if negb (IsDefaultChain c) then
    let* err := extern (ClearChain (SpecIPT c) (TableName c) (ChainName c))
                  (EvClearChain (TableName c) (ChainName c)) in
    match err with
    | Some _ => let* _ := glog_Errorf "failed to clean chain %s in table %s: %v" in ret err
    | None =>
        let* err := extern (DeleteChain (SpecIPT c) (TableName c) (ChainName c))
                      (EvDeleteChain (TableName c) (ChainName c)) in
        match err with
        | Some e =>
            if not_iptables_status 1 e
            then let* _ := glog_Errorf "failed to delete chain %s in table %s: %v" in ret err
            else ret None
        | None => ret None
        end
    end
  else ret None.

(** The enabled loop: append every rule spec, return at the first error. *)
Fixpoint appendRuleSpecs (r : IPTablesRuleConfig) (specs : list IPTablesRuleSpec)
  : M (option error) :=
  match specs with
  | [] => ret None
  | rs :: rest =>
      let* err := extern (AppendUnique (IPT r) (TableName (Spec r)) (ChainName (Spec r)) rs)
                    (EvAppendUnique (TableName (Spec r)) (ChainName (Spec r)) rs) in
      match err with
      | Some _ => let* _ := glog_Errorf "failed to append rule %v in table %s chain %s: %v" in ret err
      | None => appendRuleSpecs r rest
      end
  end.

(** The disabled loop on a default chain.  When the error is not an
    [*iptables.Error], [eerr] is a nil pointer and [eerr.Error()]
    dereferences it. *)
Fixpoint deleteRuleSpecs (r : IPTablesRuleConfig) (specs : list IPTablesRuleSpec)
  : M (option error) :=
  match specs with
  | [] => ret None
  | rs :: rest =>
      let* err := extern (Delete (IPT r) (TableName (Spec r)) (ChainName (Spec r)) rs)
                    (EvDelete (TableName (Spec r)) (ChainName (Spec r)) rs) in
      match err with
      | None => deleteRuleSpecs r rest
      | Some (IptablesError st text) =>
          if negb (st =? 2) then
            if negb (strings_Contains text "No chain/target/match") then ret err
            else deleteRuleSpecs r rest
          else deleteRuleSpecs r rest
      | Some _ => panic
      end
  end.

Definition IPTablesRuleConfig_Ensure (r : IPTablesRuleConfig) (enabled : bool)
  : M (option error) :=
  let* err := IPTablesChainSpec_ensure (Spec r) enabled in
  match err with
  | Some _ => ret err
  | None =>
      if enabled then appendRuleSpecs r (RuleSpecs r)
      else if IsDefaultChain (Spec r) then deleteRuleSpecs r (RuleSpecs r)
      else ret None
  end.

(** ** The Config interface and its four implementations *)

Inductive Config : Type :=
| Config_Sysctl (s : SysctlConfig)
| Config_IPRoute (r : IPRouteConfig)
| Config_IPRule (r : IPRuleConfig)
| Config_IPTablesRule (r : IPTablesRuleConfig).

Definition Ensure (c : Config) (enabled : bool) : M (option error) :=
  match c with
  | Config_Sysctl s => SysctlConfig_Ensure s enabled
  | Config_IPRoute r => IPRouteConfig_Ensure r enabled
  | Config_IPRule r => IPRuleConfig_Ensure r enabled
  | Config_IPTablesRule r => IPTablesRuleConfig_Ensure r enabled
  end.

(** [Set]; the name is reserved in Rocq. *)
Record ConfigSet : Type := {
  Enabled : bool;
  FeatureName : string;
  Configs : list Config
}.

(** Modelled from the spec: config.go declares [Set] but no method on it;
    the loop that drives a [Set] lives outside the package.  Section 4.7 of
    the specification: call [Ensure(enabled)] on each member in declaration
    order, return the first error, undo nothing. *)
Fixpoint ensureConfigs (cs : list Config) (enabled : bool) : M (option error) :=
  match cs with
  | [] => ret None
  | c :: rest =>
      let* err := Ensure c enabled in
      match err with
      | Some _ => ret err
      | None => ensureConfigs rest enabled
      end
  end.

(** Modelled from the spec: [Ensure] on a [Set], section 4.7. *)
Definition ConfigSet_Ensure (s : ConfigSet) (enabled : bool) : M (option error) :=
  ensureConfigs (Configs s) enabled.

End Package.

Arguments M W A : clear implicits.
Arguments SysctlConfig W : clear implicits.
Arguments IPRouteConfig W : clear implicits.
Arguments IPRuleConfig W : clear implicits.
Arguments iptabler W : clear implicits.
Arguments IPTablesChainSpec W : clear implicits.
Arguments IPTablesRuleConfig W : clear implicits.
Arguments Config W : clear implicits.
Arguments ConfigSet W : clear implicits.

(** Projections of the result of running a computation. *)
Definition result_of {W A} (x : outcome A * W * list Event) : outcome A := fst (fst x).
Definition world_of {W A} (x : outcome A * W * list Event) : W := snd (fst x).
Definition trace_of {W A} (x : outcome A * W * list Event) : list Event := snd x.

(** ** Test doubles

    Worlds without state, whose pluggable functions answer with fixed
    errors.  They give the concrete inputs on which the package is run
    below. *)
Module Fixed.

Definition answer (err : option error) : unit -> option error * unit :=
  fun w => (err, w).

Definition route : Route :=
  {| RouteDst := Some {| IP := Some [10; 124; 0; 1]; Mask := Some [255; 255; 255; 255] |};
     Gw := None; LinkIndex := 2; RouteTable := 254; Scope := 253 |}.

Definition routeConfig (addErr delErr : option error) : IPRouteConfig unit :=
  {| Route_ := route;
     RouteAdd := fun _ => answer addErr;
     RouteDel := fun _ => answer delErr |}.

Definition ipt (newErr clearErr delChainErr appendErr deleteErr : option error)
  : iptabler unit :=
  {| NewChain := fun _ _ => answer newErr;
     ClearChain := fun _ _ => answer clearErr;
     DeleteChain := fun _ _ => answer delChainErr;
     AppendUnique := fun _ _ _ => answer appendErr;
     Delete := fun _ _ _ => answer deleteErr |}.

Definition chainConfig (chain : string) (isDefault : bool)
    (specs : list IPTablesRuleSpec) (h : iptabler unit) : IPTablesRuleConfig unit :=
  {| Spec := {| TableName := "mangle"; ChainName := chain;
                IsDefaultChain := isDefault; SpecIPT := h |};
     RuleSpecs := specs;
     IPT := h |}.

End Fixed.

(** ** The node-derived local-rule builder

    The builder [fillLocalRulesFromNode] and the two package variables it
    fills are declared next to config.go, in a file of which the repository
    only holds the test.  They are modelled from section 4.6 of the
    specification, for IPv4 pod CIDRs; the parsing functions of Go's [net]
    package that the builder relies on come first. *)

Definition digit_of (c : ascii) : option Z :=
  let n := Z.of_N (N_of_ascii c) in
  if (48 <=? n) && (n <=? 57) then Some (n - 48) else None.

(** Decimal value of a string made of digits only, as [dtoi] followed by the
    check that the whole string was consumed. *)
Fixpoint dtoi_from (acc : Z) (s : string) : option Z :=
  match s with
  | EmptyString => Some acc
  | String c rest =>
      match digit_of c with
      | Some d => if 16777215 <=? acc * 10 + d then None else dtoi_from (acc * 10 + d) rest
      | None => None
      end
  end.

Definition dtoi (s : string) : option Z :=
  match s with
  | EmptyString => None
  | _ => dtoi_from 0 s
  end.

(** Cut a string at the first occurrence of a separator. *)
Fixpoint cut (sep : ascii) (s : string) : option (string * string) :=
  match s with
  | EmptyString => None
  | String c rest =>
      if Ascii.eqb c sep then Some (EmptyString, rest)
      else match cut sep rest with
           | Some (before, after) => Some (String c before, after)
           | None => None
           end
  end.

(** One field of a dotted quad: one to three digits, no leading zero, at
    most 255. *)
Definition parseOctet (s : string) : option Z :=
  match s with
  | String "0" (String _ _) => None
  | _ =>
      match dtoi s with
      | Some n => if (String.length s <=? 3)%nat && (n <=? 255) then Some n else None
      | None => None
      end
  end.

Definition parseIPv4 (s : string) : option (list Z) :=
  match cut "." s with
  | Some (f1, s1) =>
      match cut "." s1 with
      | Some (f2, s2) =>
          match cut "." s2 with
          | Some (f3, f4) =>
              match parseOctet f1, parseOctet f2, parseOctet f3, parseOctet f4 with
              | Some a, Some b, Some c, Some d => Some [a; b; c; d]
              | _, _, _, _ => None
              end
          | None => None
          end
      | None => None
      end
  | None => None
  end.

(** [net.CIDRMask(ones, 8 * l)]. *)
Fixpoint CIDRMask (l : nat) (ones : Z) : list Z :=
  match l with
  | O => []
  | S l' =>
      if 8 <=? ones then 255 :: CIDRMask l' (ones - 8)
      else (255 - Z.shiftr 255 ones) :: CIDRMask l' 0
  end.

(** [IP.Mask]. *)
Fixpoint maskIP (ip mask : list Z) : list Z :=
  match ip, mask with
  | b :: ip', m :: mask' => Z.land b m :: maskIP ip' mask'
  | _, _ => []
  end.

(** [net.ParseCIDR], the network it returns. *)
Definition ParseCIDR (s : string) : option IPNet :=
  match cut "/" s with
  | Some (addr, bits) =>
      match parseIPv4 addr, dtoi bits with
      | Some ip, Some n =>
          if n <=? 32
          then Some {| IP := Some (maskIP ip (CIDRMask 4 n)); Mask := Some (CIDRMask 4 n) |}
          else None
      | _, _ => None
      end
  | None => None
  end.

(** An IPv4 address as a number, most significant byte first, and back. *)
Definition ipv4_to_Z (ip : list Z) : Z := fold_left (fun acc b => acc * 256 + b) ip 0.

Definition Z_to_ipv4 (n : Z) : list Z :=
  [n / 16777216 mod 256; n / 65536 mod 256; n / 256 mod 256; n mod 256].

(** Modelled from the spec: step 2 of the builder, the base address of the
    network plus one host, as a /32 network. *)
Definition gatewayOf (podNet : IPNet) : IPNet :=
  {| IP := match IP podNet with
           | Some base => Some (Z_to_ipv4 ((ipv4_to_Z base + 1) mod 4294967296))
           | None => None
           end;
     Mask := Some (CIDRMask 4 32) |}.

Inductive NodeAddressType : Type :=
| NodeHostName | NodeInternalIP | NodeExternalIP | NodeInternalDNS | NodeExternalDNS.

Record NodeAddress : Type := { AddressType : NodeAddressType; Address : string }.

Record Node : Type := {
  NodeName : string;
  PodCIDR : string;
  PodCIDRs : list string;
  Addresses : list NodeAddress
}.

(** Modelled from the spec: the pod CIDR of a node is the single value, or
    the first of the list when the single value is absent. *)
Definition podCIDR_of (node : Node) : option string :=
  match PodCIDR node with
  | EmptyString => List.head (PodCIDRs node)
  | cidr => Some cidr
  end.

(** Modelled from the spec: the reported addresses of kind internal IP. *)
Definition internalIPs (node : Node) : list string :=
  map Address
    (List.filter (fun a => match AddressType a with NodeInternalIP => true | _ => false end)
       (Addresses node)).

Definition RT_TABLE_LOCAL : Z := 255.

(** Modelled from the spec: the rule of step 4, [netlink.NewRule()] with the
    internal IP as destination and the local table as target. *)
Definition localTableRule (priority : Z) (address : string) : Rule :=
  {| Priority := priority; Family := 0; Table := RT_TABLE_LOCAL; Mark := -1; RMask := -1;
     Tos := 0; TunID := 0; Goto := -1;
     Src := None;
     Dst := Some {| IP := parseIPv4 address; Mask := Some (CIDRMask 4 32) |};
     Flow := -1; IifName := ""; OifName := "";
     SuppressIfgroup := -1; SuppressPrefixlen := -1; Invert := false;
     Dport := None; Sport := None |}.

Section LocalRules.

Context {W : Type}.

(** Modelled from the spec: the two package variables the builder fills. *)
Record LocalRuleState : Type := {
  vethGatewayDst : IPNet;
  LocalTableRuleConfigs : list (Config W)
}.

(** The live policy-routing functions and the priority of the local rules. *)
Variables (ruleAdd : ruleAdder (W := W)) (ruleDel : ruleDeler (W := W))
          (ruleList : ruleLister (W := W)) (localRulePriority : Z).

Definition localTableRuleConfig (address : string) : Config W :=
  Config_IPRule {| Rule_ := localTableRule localRulePriority address;
                   RuleAdd := ruleAdd; RuleDel := ruleDel; RuleList := ruleList |}.

(** Modelled from the spec: [fillLocalRulesFromNode] is missing from the
    sources; steps 1 to 5 of section 4.6.  Nothing is published unless every
    step succeeds. *)
Definition fillLocalRulesFromNode (client : string -> Node + error) (nodeName : string)
    (st : LocalRuleState) : option error * LocalRuleState :=
  match client nodeName with
  | inr e => (Some e, st)
  | inl node =>
      match podCIDR_of node with
      | None => (Some (ErrorString "missing pod CIDR"), st)
      | Some cidr =>
          match ParseCIDR cidr with
          | None => (Some (ErrorString "missing pod CIDR"), st)
          | Some podNet =>
              let gateway := gatewayOf podNet in
              match internalIPs node with
              | [] => (Some (ErrorString "missing internal IP"), st)
              | ips =>
                  (None, {| vethGatewayDst := gateway;
                            LocalTableRuleConfigs := map localTableRuleConfig ips |})
              end
          end
      end
  end.

End LocalRules.

Arguments LocalRuleState W : clear implicits.

(** ** Reference model of the host

    The routing tables, the policy rules, the kernel parameters and the
    iptables chains are outside the package.  This module is a reference
    model of them, in the way the netlink and go-iptables libraries present
    them to the package: which calls succeed, which error they report
    otherwise, and what they change. *)
Module RefKernel.

Definition ENOENT : Z := 2.

Record State : Type := {
  sysctls : gmap string string;
  routes : list Route;
  rules : list Rule;
  chains : gmap (string * string) (list IPTablesRuleSpec)
}.

Definition set_sysctls (m : gmap string string) (w : State) : State :=
  {| sysctls := m; routes := routes w; rules := rules w; chains := chains w |}.
Definition set_routes (l : list Route) (w : State) : State :=
  {| sysctls := sysctls w; routes := l; rules := rules w; chains := chains w |}.
Definition set_rules (l : list Rule) (w : State) : State :=
  {| sysctls := sysctls w; routes := routes w; rules := l; chains := chains w |}.
Definition set_chains (m : gmap (string * string) (list IPTablesRuleSpec)) (w : State)
  : State :=
  {| sysctls := sysctls w; routes := routes w; rules := rules w; chains := m |}.

(** Drop the first element that satisfies [p], if there is one. *)
Fixpoint remove_first {A} (p : A -> bool) (l : list A) : option (list A) :=
  match l with
  | [] => None
  | x :: rest =>
      if p x then Some rest
      else match remove_first p rest with
           | Some rest' => Some (x :: rest')
           | None => None
           end
  end.

(** Writing a kernel parameter: the key must exist under /proc/sys. *)
Definition setParam (name : string) (params : list string) (w : State)
  : (string * option error) * State :=
  match sysctls w !! name, params with
  | None, _ => (("", Some (ErrorString "sysctl: cannot stat: No such file or directory")), w)
  | Some old, [] => ((old, None), w)
  | Some _, value :: _ => ((value, None), set_sysctls (<[name := value]> (sysctls w)) w)
  end.

(** Routes: adding a route that is there reports [EEXIST], deleting one that
    is not reports [ESRCH]. *)
Definition addRoute (r : Route) (w : State) : option error * State :=
  if bool_decide (r ∈ routes w) then (Some (Errno EEXIST), w)
  else (None, set_routes (routes w ++ [r]) w).

Definition delRoute (r : Route) (w : State) : option error * State :=
  match remove_first (fun k => bool_decide (k = r)) (routes w) with
  | Some l => (None, set_routes l w)
  | None => (Some (Errno ESRCH), w)
  end.

(** Policy rules.  A delete request selects on every attribute it carries;
    netlink sends the priority only when it is not negative. *)
Definition selects (r k : Rule) : bool :=
  isRuleEqualWithoutPriority k r && ((Priority r <? 0) || (Priority k =? Priority r)).

Definition listRules (family : Z) (w : State) : (list Rule * option error) * State :=
  ((rules w, None), w).

Definition addRule (r : Rule) (w : State) : option error * State :=
  if bool_decide (r ∈ rules w) then (Some (Errno EEXIST), w)
  else (None, set_rules (rules w ++ [r]) w).

Definition delRule (r : Rule) (w : State) : option error * State :=
  match remove_first (selects r) (rules w) with
  | Some l => (None, set_rules l w)
  | None => (Some (Errno ENOENT), w)
  end.

(** iptables, through go-iptables. *)
Definition chainExists : error := IptablesError 1 "iptables: Chain already exists.".
Definition noChain : error := IptablesError 1 "iptables: No chain/target/match by that name.".
Definition notEmpty : error := IptablesError 1 "iptables: Directory not empty.".
Definition badRule : error :=
  IptablesError 1 "iptables: Bad rule (does a matching rule exist in that chain?).".

Definition newChain (table chain : string) (w : State) : option error * State :=
  match chains w !! (table, chain) with
  | Some _ => (Some chainExists, w)
  | None => (None, set_chains (<[(table, chain) := []]> (chains w)) w)
  end.

(** [ClearChain] flushes the chain and creates it when it is missing. *)
Definition clearChain (table chain : string) (w : State) : option error * State :=
  (None, set_chains (<[(table, chain) := []]> (chains w)) w).

Definition deleteChain (table chain : string) (w : State) : option error * State :=
  match chains w !! (table, chain) with
  | None => (Some noChain, w)
  | Some [] => (None, set_chains (delete (table, chain) (chains w)) w)
  | Some (_ :: _) => (Some notEmpty, w)
  end.

Definition appendUniqueRule (table chain : string) (rulespec : list string) (w : State)
  : option error * State :=
  match chains w !! (table, chain) with
  | None => (Some noChain, w)
  | Some l =>
      if bool_decide (rulespec ∈ l) then (None, w)
      else (None, set_chains (<[(table, chain) := l ++ [rulespec]]> (chains w)) w)
  end.

Definition deleteRule (table chain : string) (rulespec : list string) (w : State)
  : option error * State :=
  match chains w !! (table, chain) with
  | None => (Some noChain, w)
  | Some l =>
      match remove_first (fun k => bool_decide (k = rulespec)) l with
      | Some l' => (None, set_chains (<[(table, chain) := l']> (chains w)) w)
      | None => (Some badRule, w)
      end
  end.

Definition ipt : iptabler State :=
  {| NewChain := newChain; ClearChain := clearChain;
     DeleteChain := deleteChain; AppendUnique := appendUniqueRule;
     Delete := deleteRule |}.

(** Configs bound to the reference model. *)
Definition sysctlConfig (key value defaultValue : string) : SysctlConfig State :=
  {| Key := key; Value := value; DefaultValue := defaultValue; SysctlFunc := setParam |}.

Definition routeConfig (r : Route) : IPRouteConfig State :=
  {| Route_ := r; RouteAdd := addRoute; RouteDel := delRoute |}.

Definition ruleConfig (r : Rule) : IPRuleConfig State :=
  {| Rule_ := r; RuleAdd := addRule; RuleDel := delRule; RuleList := listRules |}.

Definition chainConfig (table chain : string) (isDefault : bool)
    (specs : list IPTablesRuleSpec) : IPTablesRuleConfig State :=
  {| Spec := {| TableName := table; ChainName := chain;
                IsDefaultChain := isDefault; SpecIPT := ipt |};
     RuleSpecs := specs;
     IPT := ipt |}.

Definition empty : State :=
  {| sysctls := ∅; routes := []; rules := []; chains := ∅ |}.

(** The configs whose pluggable functions are those of the model. *)
Inductive bound : Config State -> Prop :=
| bound_sysctl (key value defaultValue : string) :
    bound (Config_Sysctl (sysctlConfig key value defaultValue))
| bound_route (r : Route) : bound (Config_IPRoute (routeConfig r))
| bound_rule (r : Rule) : bound (Config_IPRule (ruleConfig r))
| bound_chain (table chain : string) (isDefault : bool) (specs : list IPTablesRuleSpec) :
    bound (Config_IPTablesRule (chainConfig table chain isDefault specs)).

End RefKernel.

(** The reference model with transient failures: every delete request first
    consumes one entry of a queue, and fails with that entry's error when
    there is one, leaving the kernel as it was. *)
Module Faulty.

Definition State : Type := RefKernel.State * list (option error).

Definition ENOBUFS : Z := 105.

Definition lift {A} (f : RefKernel.State -> A * RefKernel.State) (w : State) : A * State :=
  match f (fst w) with (a, k) => (a, (k, snd w)) end.

Definition delRule (r : Rule) (w : State) : option error * State :=
  match snd w with
  | Some e :: queue => (Some e, (fst w, queue))
  | None :: queue =>
      match RefKernel.delRule r (fst w) with (err, k) => (err, (k, queue)) end
  | [] => lift (RefKernel.delRule r) w
  end.

Definition ruleConfig (r : Rule) : IPRuleConfig State :=
  {| Rule_ := r;
     RuleAdd := fun r => lift (RefKernel.addRule r);
     RuleDel := delRule;
     RuleList := fun family => lift (RefKernel.listRules family) |}.

End Faulty.

(** ** Vocabulary of the statements *)

(** The error is an [*iptables.Error] whose [ExitStatus()] is [n]. *)
Definition has_exit_status (n : Z) (err : option error) : bool :=
  match err with
  | Some (IptablesError st _) => st =? n
  | _ => false
  end.

(** Disabling the rules of a config that sits on a system-default chain. *)
Definition disables_default_chain {W} (c : Config W) (enabled : bool) : bool :=
  match c with
  | Config_IPTablesRule r => IsDefaultChain (Spec r) && negb enabled
  | _ => false
  end.

(** The deletion errors that the disabled branch lets pass: nil, an iptables
    error with exit status 2, an iptables error whose text mentions a missing
    chain, target or match. *)
Definition delete_error_ignored (err : option error) : bool :=
  match err with
  | None => true
  | Some (IptablesError st text) =>
      (st =? 2) || strings_Contains text "No chain/target/match"
  | Some _ => false
  end.

Definition is_iptables_Error (err : option error) : bool :=
  match err with
  | Some (IptablesError _ _) => true
  | _ => false
  end.

(** Calls that clear or delete a whole chain. *)
Definition is_chain_removal (e : Event) : bool :=
  match e with
  | EvClearChain _ _ _ | EvDeleteChain _ _ _ => true
  | _ => false
  end.

(** What convergence of a rule count assumes of the world behind an
    [IPRuleConfig]: [table] reads the kernel's policy rules off the world;
    listing reports that table and leaves it alone, and an add or a delete
    that reports success has added or removed one rule that the count takes
    for the rule of the config. *)
Record RuleKernel {W} (r : IPRuleConfig W) (table : W -> list Rule) : Prop := {
  list_reports : forall w rs w',
    RuleList r AF_INET w = ((rs, None), w') -> rs = table w /\ table w' = table w;
  add_adds_one : forall w w',
    RuleAdd r (Rule_ r) w = (None, w') ->
    count_matching (Rule_ r) (table w') = count_matching (Rule_ r) (table w) + 1;
  del_removes_one : forall w w',
    RuleDel r (Rule_ r) w = (None, w') ->
    count_matching (Rule_ r) (table w') = count_matching (Rule_ r) (table w) - 1
}.

(** The value the convergence loop keeps in [err] after a call. *)
Definition kept_error (ev : Event) : option error :=
  match ev with
  | EvRuleDel _ err => err
  | EvRuleAdd _ err => if os_IsExist err then None else err
  | _ => None
  end.

(** The log line the convergence loop writes after a call, if any. *)
Definition log_line (ev : Event) : list Event :=
  match ev with
  | EvRuleDel _ (Some _) =>
      [EvGlogErrorf "failed to delete duplicated ip rule: %v, error: %v"]
  | EvRuleAdd _ (Some e) =>
      if os_IsExist (Some e) then []
      else [EvGlogErrorf "failed to add ip rule: %v, error: %v"]
  | _ => []
  end.

Definition is_RuleDel_of (r : Rule) (ev : Event) : Prop := exists err, ev = EvRuleDel r err.
Definition is_RuleAdd_of (r : Rule) (ev : Event) : Prop := exists err, ev = EvRuleAdd r err.

(** Concrete inputs. *)
Module Inputs.

(** A rule sending traffic for 10.128.0.24 to the local table, with the
    priority left unset. *)
Definition localRule : Rule :=
  {| Priority := -1; Family := 0; Table := 255; Mark := -1; RMask := -1;
     Tos := 0; TunID := 0; Goto := -1;
     Src := None;
     Dst := Some {| IP := Some [10; 128; 0; 24]; Mask := Some [255; 255; 255; 255] |};
     Flow := -1; IifName := ""; OifName := "";
     SuppressIfgroup := -1; SuppressPrefixlen := -1; Invert := false;
     Dport := None; Sport := None |}.

(** A kernel holding that rule twice, under two priorities. *)
Definition twoCopies : RefKernel.State :=
  RefKernel.set_rules [set_Priority 30001 localRule; set_Priority 32765 localRule]
    RefKernel.empty.

(** A bundle of three routes on the stateless world; adding the second one
    is refused with [EPERM]. *)
Definition EPERM : Z := 1.

Definition bundle : ConfigSet unit :=
  {| Enabled := true;
     FeatureName := "policy-routing";
     Configs := [Config_IPRoute (Fixed.routeConfig None None);
                 Config_IPRoute (Fixed.routeConfig (Some (Errno EPERM)) None);
                 Config_IPRoute (Fixed.routeConfig None None)] |}.

(** The node of the package test: one pod CIDR, one internal IP. *)
Definition testNode : Node :=
  {| NodeName := "test-node"; PodCIDR := "10.124.0.0/16"; PodCIDRs := [];
     Addresses := [{| AddressType := NodeInternalIP; Address := "10.128.0.24" |}] |}.

Definition testClient (name : string) : Node + error :=
  if String.eqb name "test-node" then inl testNode
  else inr (ErrorString "nodes not found").

Definition noLocalRules : LocalRuleState RefKernel.State :=
  {| vethGatewayDst := {| IP := None; Mask := None |}; LocalTableRuleConfigs := [] |}.

(** A default chain that holds the same jump twice, and the config that owns
    that jump. *)
Definition jump : IPTablesRuleSpec := ["-j"; "GKE-CHAIN"].

Definition twoJumps : RefKernel.State :=
  RefKernel.set_chains {[ ("mangle", "PREROUTING") := [jump; jump] ]} RefKernel.empty.

Definition jumpConfig : Config RefKernel.State :=
  Config_IPTablesRule (RefKernel.chainConfig "mangle" "PREROUTING" true [jump]).

(** A kernel parameter, and the config that switches it. *)
Definition forwardingOff : RefKernel.State :=
  RefKernel.set_sysctls {[ "net.ipv4.ip_forward" := "0" ]} RefKernel.empty.

Definition forwarding : Config RefKernel.State :=
  Config_Sysctl (RefKernel.sysctlConfig "net.ipv4.ip_forward" "1" "0").

(** The same kernel, about to fail one delete request with [ENOBUFS]. *)
Definition twoCopiesOneFault : Faulty.State :=
  (twoCopies, [Some (Errno Faulty.ENOBUFS)]).

(** What [netlink.RouteDel] returns when it rejects the route before talking
    to the kernel: an error built by [fmt.Errorf], not an errno. *)
Definition notAnErrno : error :=
  ErrorString "one of Dst.IP, Src, or Gw must not be nil".

Definition routeDelRejects : IPRouteConfig unit :=
  Fixed.routeConfig None (Some notAnErrno).

(** The iptables binary could not take the xtables lock. *)
Definition lockHeld : error :=
  IptablesError 4
    "running [/sbin/iptables -t mangle -F GKE-CHAIN --wait]: exit status 4: Another app is currently holding the xtables lock".

Definition clearFails : IPTablesRuleConfig unit :=
  Fixed.chainConfig "GKE-CHAIN" false [["-j"; "ACCEPT"]]
    (Fixed.ipt None (Some lockHeld) None None None).

(** [ClearChain] succeeds and [DeleteChain] finds the chain gone. *)
Definition chainGone : error :=
  IptablesError 1
    "running [/sbin/iptables -t mangle -X GKE-CHAIN --wait]: exit status 1: iptables: No chain/target/match by that name.".

Definition deleteFindsNoChain : IPTablesRuleConfig unit :=
  Fixed.chainConfig "GKE-CHAIN" false [["-j"; "ACCEPT"]]
    (Fixed.ipt None None (Some chainGone) None None).

(** The iptables binary could not be started: [exec] reports an error that is
    not an [*iptables.Error]. *)
Definition notStarted : error :=
  ErrorString "fork/exec /sbin/iptables: no such file or directory".

Definition deleteNotStarted : IPTablesRuleConfig unit :=
  Fixed.chainConfig "PREROUTING" true [["-j"; "GKE-CHAIN"]]
    (Fixed.ipt None None None None (Some notStarted)).

End Inputs.

(** The members of [cs] are ensured one after the other, each returning nil:
    the world is threaded through and the traces follow each other. *)
Inductive all_ensured {W} (enabled : bool)
  : list (Config W) -> W -> W -> list Event -> Prop :=
| all_ensured_nil (w : W) : all_ensured enabled [] w w []
| all_ensured_cons (c : Config W) (cs : list (Config W))
    (w w1 w2 : W) (t1 t2 : list Event) :
    Ensure c enabled w = (Returns None, w1, t1) ->
    all_ensured enabled cs w1 w2 t2 ->
    all_ensured enabled (c :: cs) w w2 (t1 ++ t2).

(** ** Vocabulary of further properties *)

(** A call that returned an error. *)
Definition failed (ev : Event) : bool :=
  match ev with
  | EvSysctl _ _ _ (Some _) | EvRouteAdd _ (Some _) | EvRouteDel _ (Some _)
  | EvRuleAdd _ (Some _) | EvRuleDel _ (Some _) | EvRuleList _ _ (Some _)
  | EvNewChain _ _ (Some _) | EvClearChain _ _ (Some _) | EvDeleteChain _ _ (Some _)
  | EvAppendUnique _ _ _ (Some _) | EvDelete _ _ _ (Some _) => true
  | _ => false
  end.

(** What the count of a run with failures assumes of the world behind an
    [IPRuleConfig], besides [RuleKernel]: an add or a delete that reports an
    error has not changed how many rules the count takes for the rule of the
    config. *)
Record RuleKernelFaults {W} (r : IPRuleConfig W) (table : W -> list Rule) : Prop := {
  add_failure_keeps : forall w e w',
    RuleAdd r (Rule_ r) w = (Some e, w') ->
    count_matching (Rule_ r) (table w') = count_matching (Rule_ r) (table w);
  del_failure_keeps : forall w e w',
    RuleDel r (Rule_ r) w = (Some e, w') ->
    count_matching (Rule_ r) (table w') = count_matching (Rule_ r) (table w)
}.

(** Further concrete inputs. *)
Module Cases.

(** A policy-rule config on the stateless world whose listing is refused. *)
Definition listRefused : IPRuleConfig unit :=
  {| Rule_ := Inputs.localRule;
     RuleAdd := fun _ => Fixed.answer None;
     RuleDel := fun _ => Fixed.answer None;
     RuleList := fun _ w => (([], Some (Errno Inputs.EPERM)), w) |}.

(** The local rule under priority 30001: a delete request for it selects
    only the copy with that priority. *)
Definition pinnedRule : Rule := set_Priority 30001 Inputs.localRule.

End Cases.

Module Cases2.

(** A default chain in the reference model that holds the jump once, and
    a config that owns the jump and one more rule spec that is not there. *)
Definition oneJump : RefKernel.State :=
  RefKernel.set_chains {[ ("mangle", "PREROUTING") := [Inputs.jump] ]} RefKernel.empty.

Definition jumpAndMark : IPTablesRuleConfig RefKernel.State :=
  RefKernel.chainConfig "mangle" "PREROUTING" true
    [Inputs.jump; ["-j"; "MARK"; "--set-mark"; "0x80"]].

End Cases2.

(** What a config asks of the reference model when it is enabled, and when
    it is disabled. *)
Module Desired.

Definition present (c : Config RefKernel.State) (w : RefKernel.State) : Prop :=
  match c with
  | Config_Sysctl s => RefKernel.sysctls w !! Key s = Some (Value s)
  | Config_IPRoute r => Route_ r ∈ RefKernel.routes w
  | Config_IPRule r => count_matching (Rule_ r) (RefKernel.rules w) = 1
  | Config_IPTablesRule r =>
      exists l, RefKernel.chains w !! (TableName (Spec r), ChainName (Spec r)) = Some l /\
                forall rs, rs ∈ RuleSpecs r -> rs ∈ l
  end.

Definition absent (c : Config RefKernel.State) (w : RefKernel.State) : Prop :=
  match c with
  | Config_Sysctl s => RefKernel.sysctls w !! Key s = Some (DefaultValue s)
  | Config_IPRoute r => Route_ r ∉ RefKernel.routes w
  | Config_IPRule r => count_matching (Rule_ r) (RefKernel.rules w) = 0
  | Config_IPTablesRule r =>
      RefKernel.chains w !! (TableName (Spec r), ChainName (Spec r)) = None
  end.

End Desired.

Module Cases3.

(** A config that owns one marking rule on the default chain of
    [Cases2.oneJump], where that rule is not present. *)
Definition mark : IPTablesRuleSpec := ["-j"; "MARK"; "--set-mark"; "0x80"].

Definition markConfig : IPTablesRuleConfig RefKernel.State :=
  RefKernel.chainConfig "mangle" "PREROUTING" true [mark].

End Cases3.

(** The bytes a CIDR mask is made of, and what masking a byte with one of
    them guarantees: the result is a byte, masking again changes nothing,
    and unless the mask byte is 255 the result plus one is still a byte that
    masks back to the result. *)
Definition maskBytes : list Z := [0; 128; 192; 224; 240; 248; 252; 254; 255].

Definition masked_byte_ok (m a : Z) : bool :=
  let x := Z.land a m in
  (0 <=? x) && (x <=? 255) && (Z.land x m =? x) &&
  ((m =? 255) || ((x + 1 <=? 255) && (Z.land (x + 1) m =? x))).

(** ** Rules as the kernel keeps them *)

(** The two rules agree on every field other than [Priority]. *)
Definition same_but_priority (a b : Rule) : Prop :=
  Family a = Family b /\ Table a = Table b /\ Mark a = Mark b /\
  RMask a = RMask b /\ Tos a = Tos b /\ TunID a = TunID b /\
  Goto a = Goto b /\ Src a = Src b /\ Dst a = Dst b /\
  Flow a = Flow b /\ IifName a = IifName b /\ OifName a = OifName b /\
  SuppressIfgroup a = SuppressIfgroup b /\
  SuppressPrefixlen a = SuppressPrefixlen b /\ Invert a = Invert b /\
  Dport a = Dport b /\ Sport a = Sport b.

#[global] Instance same_but_priority_dec (a b : Rule) : Decision (same_but_priority a b).
Proof. unfold same_but_priority. apply _. Defined.

(** The rules of a table that agree with [target] on every field other than
    [Priority]. *)
Definition equal_without_priority (target : Rule) (table : list Rule) : list Rule :=
  filter (fun k => same_but_priority k target) table.

(** What convergence assumes of the kernel behind an [IPRuleConfig], said of
    the rules it holds and not of the count that the package computes:
    [table] reads the kernel's policy rules off the world; listing reports
    that table and leaves it alone; an add that reports success has put one
    more rule into the table, which agrees with the rule of the config on
    every field other than the priority; a delete that reports success has
    taken one such rule out. *)
Record RuleStore {W} (r : IPRuleConfig W) (table : W -> list Rule) : Prop := {
  store_lists : forall w rs w',
    RuleList r AF_INET w = ((rs, None), w') -> rs = table w /\ table w' = table w;
  store_adds : forall w w',
    RuleAdd r (Rule_ r) w = (None, w') ->
    exists k, same_but_priority k (Rule_ r) /\ table w' ≡ₚ k :: table w;
  store_deletes : forall w w',
    RuleDel r (Rule_ r) w = (None, w') ->
    exists k, same_but_priority k (Rule_ r) /\ table w ≡ₚ k :: table w'
}.

(** [IP.To4] of Go's [net] package: a four-byte address as it is, a
    sixteen-byte address that maps an IPv4 address as its last four bytes,
    nil otherwise. *)
Definition To4 (ip : slice Z) : slice Z :=
  match ip with
  | Some l =>
      if (length l =? 4)%nat then Some l
      else if (length l =? 16)%nat && forallb (Z.eqb 0) (firstn 10 l) &&
              (nth 10 l 0 =? 255) && (nth 11 l 0 =? 255)
           then Some (skipn 12 l)
           else None
  | None => None
  end.

(** The reference model behind the netlink library, for IPv4 rules: the
    library sends the source and the destination of a rule as [IP.To4()],
    and a listing gives the addresses back in the four bytes in which the
    kernel holds them. *)
Module Netlink.

Definition onWire (n : option IPNet) : option IPNet :=
  match n with
  | Some a => Some {| IP := To4 (IP a); Mask := Mask a |}
  | None => None
  end.

(** The rule as a listing shows it after it was added. *)
Definition listed (r : Rule) : Rule :=
  {| Priority := Priority r; Family := Family r; Table := Table r; Mark := Mark r;
     RMask := RMask r; Tos := Tos r; TunID := TunID r; Goto := Goto r;
     Src := onWire (Src r); Dst := onWire (Dst r); Flow := Flow r;
     IifName := IifName r; OifName := OifName r;
     SuppressIfgroup := SuppressIfgroup r;
     SuppressPrefixlen := SuppressPrefixlen r; Invert := Invert r;
     Dport := Dport r; Sport := Sport r |}.

Definition ruleConfig (r : Rule) : IPRuleConfig RefKernel.State :=
  {| Rule_ := r;
     RuleAdd := fun k => RefKernel.addRule (listed k);
     RuleDel := fun k => RefKernel.delRule (listed k);
     RuleList := RefKernel.listRules |}.

(** What [net.ParseIP] returns for 10.128.0.24: the sixteen-byte form. *)
Definition ParseIP_10_128_0_24 : list Z :=
  [0; 0; 0; 0; 0; 0; 0; 0; 0; 0; 255; 255; 10; 128; 0; 24].

(** A rule sending traffic for 10.128.0.24 to the local table, whose
    destination holds the address in the sixteen-byte form. *)
Definition rule16 : Rule :=
  {| Priority := 30001; Family := 0; Table := 255; Mark := -1; RMask := -1;
     Tos := 0; TunID := 0; Goto := -1;
     Src := None;
     Dst := Some {| IP := Some ParseIP_10_128_0_24; Mask := Some [255; 255; 255; 255] |};
     Flow := -1; IifName := ""; OifName := "";
     SuppressIfgroup := -1; SuppressPrefixlen := -1; Invert := false;
     Dport := None; Sport := None |}.

End Netlink.

Module Cases4.

(** The node of the package test that has a pod CIDR and reports an external
    address only. *)
Definition externalOnly : Node :=
  {| NodeName := "test-node"; PodCIDR := "10.124.0.0/16"; PodCIDRs := [];
     Addresses := [{| AddressType := NodeExternalIP; Address := "10.128.0.24" |}] |}.

Definition externalOnlyClient (name : string) : Node + error :=
  if String.eqb name "test-node" then inl externalOnly
  else inr (ErrorString "nodes not found").

End Cases4.

(** Masking a byte with a byte of a CIDR mask clears its low bits. *)
Definition low_bits_cleared (m x : Z) : bool := Z.land x m =? x - x mod (256 - m).

(** ** Function values that may be nil

    The embedding above takes every function field of a config and every
    iptables handle to be set, and every call through them to return.  In
    Go a function value or an interface value may be nil, and a call through
    it panics; a call may also panic by itself, as a method of go-iptables
    does on the nil handle that [init] leaves behind when iptables cannot be
    initialised.  This module embeds the [Ensure] methods once more, with
    function fields and handles that may be nil and calls that may panic. *)
Module Partial.

Section Package.

Context {W : Type}.

Local Notation "'let*' x := m 'in' k" := (bind m (fun x => k))
  (at level 10, x name, m at level 100, k at level 200).

(** A function as its caller sees it: it returns, or it panics. *)
Definition func (A : Type) : Type := W -> outcome A * W.

(** A call through a function value.  A nil value panics, and so does a
    call whose function panics; a call that returns is recorded. *)
Definition call {A} (f : option (func A)) (ev : A -> Event) : M W A :=
  fun w =>
    match f with
    | None => (Panics, w, [])
    | Some g =>
        match g w with
        | (Returns a, w') => (Returns a, w', [ev a])
        | (Panics, w') => (Panics, w', [])
        end
    end.

Definition sysctler : Type := string -> list string -> func (string * option error).

Record SysctlConfig : Type := {
  Key : string;
  Value : string;
  DefaultValue : string;
  SysctlFunc : option sysctler
}.

Definition routeAdder : Type := Route -> func (option error).
Definition routeDeler : Type := Route -> func (option error).

Record IPRouteConfig : Type := {
  Route_ : Route;
  RouteAdd : option routeAdder;
  RouteDel : option routeDeler
}.

Definition ruleAdder : Type := Rule -> func (option error).
Definition ruleDeler : Type := Rule -> func (option error).
Definition ruleLister : Type := Z -> func (list Rule * option error).

Record IPRuleConfig : Type := {
  Rule_ : Rule;
  RuleAdd : option ruleAdder;
  RuleDel : option ruleDeler;
  RuleList : option ruleLister
}.

(** The methods of a value held in an [iptabler] interface. *)
Record iptabler : Type := {
  NewChain : string -> string -> func (option error);
  ClearChain : string -> string -> func (option error);
  DeleteChain : string -> string -> func (option error);
  AppendUnique : string -> string -> list string -> func (option error);
  Delete : string -> string -> list string -> func (option error)
}.

Record IPTablesChainSpec : Type := {
  TableName : string;
  ChainName : string;
  IsDefaultChain : bool;
  SpecIPT : option iptabler
}.

Record IPTablesRuleConfig : Type := {
  Spec : IPTablesChainSpec;
  RuleSpecs : list IPTablesRuleSpec;
  IPT : option iptabler
}.

Definition SysctlConfig_Ensure (s : SysctlConfig) (enabled : bool) : M W (option error) :=
  let value := if enabled then Value s else DefaultValue s in
  let* res := call ((fun f => f (Key s) [value]) <$> SysctlFunc s)
                (fun res => EvSysctl (Key s) [value] (fst res) (snd res)) in
  ret (snd res).

Definition IPRouteConfig_Ensure (r : IPRouteConfig) (enabled : bool) : M W (option error) :=
  if enabled then
    let* err := call ((fun f => f (Route_ r)) <$> RouteAdd r) (EvRouteAdd (Route_ r)) in
    if os_IsExist err then ret None else ret err
  else
    let* err := call ((fun f => f (Route_ r)) <$> RouteDel r) (EvRouteDel (Route_ r)) in
    match err with
    | None => ret None
    | Some (Errno n) => if n =? ESRCH then ret None else ret err
    | Some _ => panic
    end.

Definition IPRuleConfig_count (r : IPRuleConfig) : M W (Z * option error) :=
  let* res := call ((fun f => f AF_INET) <$> RuleList r)
                (fun res => EvRuleList AF_INET (fst res) (snd res)) in
  match snd res with
  | Some _ => ret (0, snd res)
  | None => ret (count_matching (Rule_ r) (fst res), None)
  end.

Equations? ensureLoop (r : IPRuleConfig) (ensureCount ruleCount : Z) (err : option error)
  : M W (option error) by wf (Z.abs_nat (ruleCount - ensureCount)) lt :=
ensureLoop r ensureCount ruleCount err with Z.eq_dec ruleCount ensureCount := {
  | left _ => ret err
  | right _ with Z_gt_dec ruleCount ensureCount := {
    | left _ =>
        let* err1 := call ((fun f => f (Rule_ r)) <$> RuleDel r) (EvRuleDel (Rule_ r)) in
        let* _ := match err1 with
                  | Some _ => glog_Errorf "failed to delete duplicated ip rule: %v, error: %v"
                  | None => ret tt
                  end in
        ensureLoop r ensureCount (ruleCount - 1) err1
    | right _ =>
        let* err1 := call ((fun f => f (Rule_ r)) <$> RuleAdd r) (EvRuleAdd (Rule_ r)) in
        let* err2 := match err1 with
                 | Some _ =>
                     if os_IsExist err1 then ret None
                     else let* _ := glog_Errorf "failed to add ip rule: %v, error: %v" in ret err1
                 | None => ret err1
                 end in
        ensureLoop r ensureCount (ruleCount + 1) err2 } }.
Proof. all: lia. Qed.

Definition IPRuleConfig_ensureHelper (r : IPRuleConfig) (ensureCount : Z)
  : M W (option error) :=
  let* res := IPRuleConfig_count r in
  match snd res with
  | Some _ =>
      let* _ := glog_Errorf "failed to get IP rule count for rule: %v, error: %v" in
      ret (snd res)
  | None => ensureLoop r ensureCount (fst res) None
  end.

Definition IPRuleConfig_Ensure (r : IPRuleConfig) (enabled : bool) : M W (option error) :=
  if enabled then IPRuleConfig_ensureHelper r 1 else IPRuleConfig_ensureHelper r 0.

Definition IPTablesChainSpec_ensure (c : IPTablesChainSpec) (enabled : bool)
  : M W (option error) :=
  if enabled then
    let* err := call ((fun h => NewChain h (TableName c) (ChainName c)) <$> SpecIPT c)
                  (EvNewChain (TableName c) (ChainName c)) in
    match err with
    | Some e => if not_iptables_status 1 e then ret err else ret None
    | None => ret None
    end
  else if negb (IsDefaultChain c) then
    let* err := call ((fun h => ClearChain h (TableName c) (ChainName c)) <$> SpecIPT c)
                  (EvClearChain (TableName c) (ChainName c)) in
    match err with
    | Some _ => let* _ := glog_Errorf "failed to clean chain %s in table %s: %v" in ret err
    | None =>
        let* err := call ((fun h => DeleteChain h (TableName c) (ChainName c)) <$> SpecIPT c)
                      (EvDeleteChain (TableName c) (ChainName c)) in
        match err with
        | Some e =>
            if not_iptables_status 1 e
            then let* _ := glog_Errorf "failed to delete chain %s in table %s: %v" in ret err
            else ret None
        | None => ret None
        end
    end
  else ret None.

Fixpoint appendRuleSpecs (r : IPTablesRuleConfig) (specs : list IPTablesRuleSpec)
  : M W (option error) :=
  match specs with
  | [] => ret None
  | rs :: rest =>
      let* err := call ((fun h => AppendUnique h (TableName (Spec r)) (ChainName (Spec r)) rs)
                          <$> IPT r)
                    (EvAppendUnique (TableName (Spec r)) (ChainName (Spec r)) rs) in
      match err with
      | Some _ => let* _ := glog_Errorf "failed to append rule %v in table %s chain %s: %v" in ret err
      | None => appendRuleSpecs r rest
      end
  end.

Fixpoint deleteRuleSpecs (r : IPTablesRuleConfig) (specs : list IPTablesRuleSpec)
  : M W (option error) :=
  match specs with
  | [] => ret None
  | rs :: rest =>
      let* err := call ((fun h => Delete h (TableName (Spec r)) (ChainName (Spec r)) rs)
                          <$> IPT r)
                    (EvDelete (TableName (Spec r)) (ChainName (Spec r)) rs) in
      match err with
      | None => deleteRuleSpecs r rest
      | Some (IptablesError st text) =>
          if negb (st =? 2) then
            if negb (strings_Contains text "No chain/target/match") then ret err
            else deleteRuleSpecs r rest
          else deleteRuleSpecs r rest
      | Some _ => panic
      end
  end.

Definition IPTablesRuleConfig_Ensure (r : IPTablesRuleConfig) (enabled : bool)
  : M W (option error) :=
  let* err := IPTablesChainSpec_ensure (Spec r) enabled in
  match err with
  | Some _ => ret err
  | None =>
      if enabled then appendRuleSpecs r (RuleSpecs r)
      else if IsDefaultChain (Spec r) then deleteRuleSpecs r (RuleSpecs r)
      else ret None
  end.

Inductive Config : Type :=
| Config_Sysctl (s : SysctlConfig)
| Config_IPRoute (r : IPRouteConfig)
| Config_IPRule (r : IPRuleConfig)
| Config_IPTablesRule (r : IPTablesRuleConfig).

Definition Ensure (c : Config) (enabled : bool) : M W (option error) :=
  match c with
  | Config_Sysctl s => SysctlConfig_Ensure s enabled
  | Config_IPRoute r => IPRouteConfig_Ensure r enabled
  | Config_IPRule r => IPRuleConfig_Ensure r enabled
  | Config_IPTablesRule r => IPTablesRuleConfig_Ensure r enabled
  end.

(** The function never panics. *)
Definition returns {A} (f : func A) : Prop := forall w, fst (f w) <> Panics.

(** The handle is set and none of its methods panics. *)
Definition usable (h : option iptabler) : Prop :=
  exists i, h = Some i /\
    (forall t c, returns (NewChain i t c)) /\
    (forall t c, returns (ClearChain i t c)) /\
    (forall t c, returns (DeleteChain i t c)) /\
    (forall t c rs, returns (AppendUnique i t c rs)) /\
    (forall t c rs, returns (Delete i t c rs)).

(** Every function field and every handle of the config is set, and no call
    through them panics. *)
Definition callable (c : Config) : Prop :=
  match c with
  | Config_Sysctl s =>
      exists f, SysctlFunc s = Some f /\ forall name params, returns (f name params)
  | Config_IPRoute r =>
      (exists f, RouteAdd r = Some f /\ forall route, returns (f route)) /\
      (exists f, RouteDel r = Some f /\ forall route, returns (f route))
  | Config_IPRule r =>
      (exists f, RuleAdd r = Some f /\ forall rule, returns (f rule)) /\
      (exists f, RuleDel r = Some f /\ forall rule, returns (f rule)) /\
      (exists f, RuleList r = Some f /\ forall family, returns (f family))
  | Config_IPTablesRule r => usable (SpecIPT (Spec r)) /\ usable (IPT r)
  end.

End Package.

Arguments func W A : clear implicits.
Arguments SysctlConfig W : clear implicits.
Arguments IPRouteConfig W : clear implicits.
Arguments IPRuleConfig W : clear implicits.
Arguments iptabler W : clear implicits.
Arguments IPTablesChainSpec W : clear implicits.
Arguments IPTablesRuleConfig W : clear implicits.
Arguments Config W : clear implicits.

End Partial.

(** The function value with a value to fall back on where it is nil or
    panics: what it is for the embedding in which every call returns. *)
Definition total {W A} (d : A) (f : option (Partial.func W A)) : W -> A * W :=
  fun w =>
    match f with
    | None => (d, w)
    | Some g =>
        match g w with
        | (Returns a, w') => (a, w')
        | (Panics, w') => (d, w')
        end
    end.

Definition total_iptabler {W} (h : option (Partial.iptabler W)) : iptabler W :=
  {| NewChain := fun t c => total None ((fun i => Partial.NewChain i t c) <$> h);
     ClearChain := fun t c => total None ((fun i => Partial.ClearChain i t c) <$> h);
     DeleteChain := fun t c => total None ((fun i => Partial.DeleteChain i t c) <$> h);
     AppendUnique := fun t c rs => total None ((fun i => Partial.AppendUnique i t c rs) <$> h);
     Delete := fun t c rs => total None ((fun i => Partial.Delete i t c rs) <$> h) |}.

Definition total_SysctlConfig {W} (s : Partial.SysctlConfig W) : SysctlConfig W :=
  {| Key := Partial.Key s; Value := Partial.Value s;
     DefaultValue := Partial.DefaultValue s;
     SysctlFunc := fun name params =>
       total ("", None) ((fun f => f name params) <$> Partial.SysctlFunc s) |}.

Definition total_IPRouteConfig {W} (r : Partial.IPRouteConfig W) : IPRouteConfig W :=
  {| Route_ := Partial.Route_ r;
     RouteAdd := fun route => total None ((fun f => f route) <$> Partial.RouteAdd r);
     RouteDel := fun route => total None ((fun f => f route) <$> Partial.RouteDel r) |}.

Definition total_IPRuleConfig {W} (r : Partial.IPRuleConfig W) : IPRuleConfig W :=
  {| Rule_ := Partial.Rule_ r;
     RuleAdd := fun rule => total None ((fun f => f rule) <$> Partial.RuleAdd r);
     RuleDel := fun rule => total None ((fun f => f rule) <$> Partial.RuleDel r);
     RuleList := fun family =>
       total ([], None) ((fun f => f family) <$> Partial.RuleList r) |}.

Definition total_IPTablesRuleConfig {W} (r : Partial.IPTablesRuleConfig W)
  : IPTablesRuleConfig W :=
  {| Spec := {| TableName := Partial.TableName (Partial.Spec r);
                ChainName := Partial.ChainName (Partial.Spec r);
                IsDefaultChain := Partial.IsDefaultChain (Partial.Spec r);
                SpecIPT := total_iptabler (Partial.SpecIPT (Partial.Spec r)) |};
     RuleSpecs := Partial.RuleSpecs r;
     IPT := total_iptabler (Partial.IPT r) |}.

Definition total_Config {W} (c : Partial.Config W) : Config W :=
  match c with
  | Partial.Config_Sysctl s => Config_Sysctl (total_SysctlConfig s)
  | Partial.Config_IPRoute r => Config_IPRoute (total_IPRouteConfig r)
  | Partial.Config_IPRule r => Config_IPRule (total_IPRuleConfig r)
  | Partial.Config_IPTablesRule r => Config_IPTablesRule (total_IPTablesRuleConfig r)
  end.

Module Cases5.

(** A route config on the stateless world, with both functions set, whose
    delete is rejected with an error that is not an errno. *)
Definition routeDelRejects : Partial.IPRouteConfig unit :=
  {| Partial.Route_ := Fixed.route;
     Partial.RouteAdd := Some (fun _ w => (Returns None, w));
     Partial.RouteDel := Some (fun _ w => (Returns (Some Inputs.notAnErrno), w)) |}.

End Cases5.

(** * Properties *)

(** ** Running computations *)

Section RunLemmas.

Context {W : Type}.

Lemma run_bind {A B} (m : M W A) (k : A -> M W B) (w : W) :
  bind m k w =
  match m w with
  | (Returns a, w1, t1) => (result_of (k a w1), world_of (k a w1), t1 ++ trace_of (k a w1))
  | (Panics, w1, t1) => (Panics, w1, t1)
  end.
Proof.
  unfold bind, result_of, world_of, trace_of.
  destruct (m w) as [[[a|] w1] t1]; [|reflexivity].
  destruct (k a w1) as [[r w2] t2]; reflexivity.
Qed.

Lemma bind_returns {A B} (m : M W A) (k : A -> M W B) (w : W) (a : A) :
  result_of (m w) = Returns a ->
  result_of (bind m k w) = result_of (k a (world_of (m w))) /\
  world_of (bind m k w) = world_of (k a (world_of (m w))).
Proof.
  rewrite run_bind. unfold result_of, world_of.
  destruct (m w) as [[res w1] t1]. cbn [fst snd].
  intros ->. split; reflexivity.
Qed.

Lemma run_extern {A} (f : W -> A * W) (ev : A -> Event) (w : W) :
  extern f ev w = (Returns (fst (f w)), snd (f w), [ev (fst (f w))]).
Proof. unfold extern. destruct (f w); reflexivity. Qed.

End RunLemmas.

(** ** isRuleEqualWithoutPriority *)

(** C2. The equality used for duplicate counting holds exactly when the two
    rules agree on every field other than [Priority]; whatever the two
    priorities are, a rule and its copy under another priority are equal. *)
Theorem isRuleEqualWithoutPriority_iff_other_fields (r1 r2 : Rule) :
  (isRuleEqualWithoutPriority r1 r2 = true <->
     Family r1 = Family r2 /\ Table r1 = Table r2 /\ Mark r1 = Mark r2 /\
     RMask r1 = RMask r2 /\ Tos r1 = Tos r2 /\ TunID r1 = TunID r2 /\
     Goto r1 = Goto r2 /\ Src r1 = Src r2 /\ Dst r1 = Dst r2 /\
     Flow r1 = Flow r2 /\ IifName r1 = IifName r2 /\ OifName r1 = OifName r2 /\
     SuppressIfgroup r1 = SuppressIfgroup r2 /\
     SuppressPrefixlen r1 = SuppressPrefixlen r2 /\ Invert r1 = Invert r2 /\
     Dport r1 = Dport r2 /\ Sport r1 = Sport r2) /\
  (forall p1 p2 : Z,
     isRuleEqualWithoutPriority (set_Priority p1 r1) (set_Priority p2 r1) = true).
Proof.
  unfold isRuleEqualWithoutPriority, reflect_DeepEqual.
  split.
  - rewrite bool_decide_eq_true. unfold set_Priority. split.
    + intros H. injection H. intros. repeat split; assumption.
    + destruct r1, r2; simpl.
      intros (-> & -> & -> & -> & -> & -> & -> & -> & -> & -> & -> & -> & -> & -> & -> & -> & ->).
      reflexivity.
  - intros p1 p2. apply bool_decide_eq_true. reflexivity.
Qed.

(** ** IPRouteConfig.Ensure *)

(** What [IPRouteConfig.Ensure] returns whenever it returns: the add error
    unless it is an "already exists" error, the delete errno unless it is
    [ESRCH]. *)
Lemma IPRouteConfig_Ensure_true {W} (r : IPRouteConfig W) (w : W) :
  IPRouteConfig_Ensure r true w =
  (Returns (if os_IsExist (fst (RouteAdd r (Route_ r) w)) then None
            else fst (RouteAdd r (Route_ r) w)),
   snd (RouteAdd r (Route_ r) w),
   [EvRouteAdd (Route_ r) (fst (RouteAdd r (Route_ r) w))]).
Proof.
  unfold IPRouteConfig_Ensure. rewrite run_bind, run_extern.
  destruct (os_IsExist _); reflexivity.
Qed.

Lemma IPRouteConfig_Ensure_false_errno {W} (r : IPRouteConfig W) (w : W) (n : Z) :
  fst (RouteDel r (Route_ r) w) = Some (Errno n) ->
  result_of (IPRouteConfig_Ensure r false w) =
  Returns (if n =? ESRCH then None else Some (Errno n)).
Proof.
  intros H. unfold IPRouteConfig_Ensure. rewrite run_bind, run_extern, H.
  destruct (n =? ESRCH); reflexivity.
Qed.

(** C10. [IPRouteConfig.Ensure(false)] returns exactly when the error of
    [RouteDel] is nil or a [syscall.Errno]; on a non-nil error of any other
    dynamic type it panics after the one [RouteDel] call, and the error does
    not reach the caller. *)
Theorem IPRouteConfig_Ensure_false_returns_iff_Errno {W} (r : IPRouteConfig W) (w : W) :
  let delErr := fst (RouteDel r (Route_ r) w) in
  let run := IPRouteConfig_Ensure r false w in
  ((exists err, result_of run = Returns err) <->
   (forall e, delErr = Some e -> exists n, e = Errno n)) /\
  (forall e, delErr = Some e -> (forall n, e <> Errno n) ->
   result_of run = Panics /\
   trace_of run = [EvRouteDel (Route_ r) (Some e)]).
Proof.
  cbv zeta. unfold IPRouteConfig_Ensure. rewrite run_bind, run_extern.
  destruct (fst (RouteDel r (Route_ r) w)) as [e0|] eqn:Hdel.
  - destruct e0 as [n| | | |]; cbn.
    1: { split.
         - split; [intros _ e [= <-]; eauto|].
           intros _. destruct (n =? ESRCH); cbn; eauto.
         - intros e [= <-] Hne. destruct (Hne n eq_refl). }
    all: split; [split|];
      [ intros [err [=]]
      | intros H; destruct (H _ eq_refl) as [n [=]]
      | intros e [= <-] _; split; reflexivity ].
  - cbn. split; [split|].
    + intros _ e [=].
    + intros _. eauto.
    + intros e [=].
Qed.

(** The panic of C10 on a concrete config. *)
Lemma IPRouteConfig_Ensure_false_returns_iff_Errno_witness :
  result_of (IPRouteConfig_Ensure Inputs.routeDelRejects false tt) = Panics /\
  trace_of (IPRouteConfig_Ensure Inputs.routeDelRejects false tt) =
    [EvRouteDel Fixed.route (Some Inputs.notAnErrno)].
Proof.
  apply (proj2 (IPRouteConfig_Ensure_false_returns_iff_Errno
                  Inputs.routeDelRejects tt) Inputs.notAnErrno).
  - reflexivity.
  - intros n H. discriminate H.
Defined.

(** C4 at the input where it fails: [RouteDel] returns an error that is not
    an errno, and [Ensure(false)] panics instead of returning that error. *)
Theorem IPRouteConfig_Ensure_false_loses_non_errno_error :
  fst (RouteDel Inputs.routeDelRejects (Route_ Inputs.routeDelRejects) tt)
    = Some Inputs.notAnErrno /\
  result_of (IPRouteConfig_Ensure Inputs.routeDelRejects false tt) = Panics /\
  result_of (IPRouteConfig_Ensure Inputs.routeDelRejects false tt)
    <> Returns (Some Inputs.notAnErrno).
Proof. repeat split. discriminate. Qed.

(** ** IPTablesChainSpec.ensure and IPTablesRuleConfig.Ensure *)

Lemma calls_app (t1 t2 : list Event) : calls (t1 ++ t2) = calls t1 ++ calls t2.
Proof. apply List.filter_app. Qed.

Lemma chain_removal_app (t1 t2 : list Event) :
  List.filter is_chain_removal (t1 ++ t2) =
  List.filter is_chain_removal t1 ++ List.filter is_chain_removal t2.
Proof. apply List.filter_app. Qed.

(** The rule-spec loop of the disabled branch only issues [Delete] calls. *)
Lemma deleteRuleSpecs_no_chain_removal {W} (r : IPTablesRuleConfig W)
    (specs : list IPTablesRuleSpec) (w : W) :
  List.filter is_chain_removal (trace_of (deleteRuleSpecs r specs w)) = [].
Proof.
  revert w. induction specs as [|rs rest IH]; intros w; [reflexivity|].
  cbn [deleteRuleSpecs]. rewrite run_bind, run_extern.
  cbn [trace_of snd]. rewrite chain_removal_app. cbn [List.filter is_chain_removal app].
  destruct (fst (Delete _ _ _ _ _)) as [[n| | |st text|]|]; try reflexivity; try apply IH.
  destruct (negb (st =? 2)); [|apply IH].
  destruct (negb (strings_Contains _ _)); [reflexivity|apply IH].
Qed.

(** C5, as amended.  On a default chain [Ensure(false)] issues neither
    [ClearChain] nor [DeleteChain].  On any other chain it first issues
    [ClearChain]; if that call fails its error is returned and nothing else is
    called; if it succeeds [DeleteChain] is the next and last call, and its
    error is returned unless it is nil or an iptables error with exit status
    1, which count as success. *)
Theorem IPTablesRuleConfig_Ensure_false_chain_calls {W}
    (r : IPTablesRuleConfig W) (w : W) :
  let run := IPTablesRuleConfig_Ensure r false w in
  let t := TableName (Spec r) in
  let c := ChainName (Spec r) in
  let clear := ClearChain (SpecIPT (Spec r)) t c w in
  let del := DeleteChain (SpecIPT (Spec r)) t c (snd clear) in
  (IsDefaultChain (Spec r) = true ->
   List.filter is_chain_removal (trace_of run) = []) /\
  (IsDefaultChain (Spec r) = false ->
   match fst clear with
   | Some e =>
       calls (trace_of run) = [EvClearChain t c (Some e)] /\
       world_of run = snd clear /\
       result_of run = Returns (Some e)
   | None =>
       calls (trace_of run) = [EvClearChain t c None; EvDeleteChain t c (fst del)] /\
       world_of run = snd del /\
       result_of run = Returns (if has_exit_status 1 (fst del) then None else fst del)
   end).
Proof.
  cbv zeta. unfold IPTablesRuleConfig_Ensure, IPTablesChainSpec_ensure. split.
  - intros ->. cbn [negb]. rewrite run_bind. cbn [ret].
    cbn [trace_of snd app]. apply deleteRuleSpecs_no_chain_removal.
  - intros ->. cbn [negb]. rewrite !run_bind, run_extern.
    destruct (fst (ClearChain _ _ _ w)) as [e|] eqn:Hclear.
    + cbn. repeat split.
    + rewrite run_bind, run_extern.
      destruct (fst (DeleteChain _ _ _ _)) as [e|] eqn:Hdel; [|cbn; repeat split].
      destruct e as [n| | |st text|]; cbn; try (repeat split; fail).
      destruct (st =? 1); cbn; repeat split.
Qed.

(** C5 on a concrete config: a chain that is not a default chain, a
    [ClearChain] that succeeds, a [DeleteChain] that reports exit status 1. *)
Lemma IPTablesRuleConfig_Ensure_false_chain_calls_witness :
  calls (trace_of (IPTablesRuleConfig_Ensure Inputs.deleteFindsNoChain false tt)) =
    [EvClearChain "mangle" "GKE-CHAIN" None;
     EvDeleteChain "mangle" "GKE-CHAIN" (Some Inputs.chainGone)] /\
  result_of (IPTablesRuleConfig_Ensure Inputs.deleteFindsNoChain false tt) = Returns None.
Proof.
  pose proof (proj2 (IPTablesRuleConfig_Ensure_false_chain_calls
                       Inputs.deleteFindsNoChain tt) eq_refl) as H.
  cbn in H. destruct H as (H1 & _ & H2). split; [exact H1 | exact H2].
Defined.

(** C5 as stated fails: on a chain that is not a default chain, a failing
    [ClearChain] ends [Ensure(false)] before any [DeleteChain] is issued. *)
Lemma Ensure_false_ClearChain_failure_skips_DeleteChain :
  IsDefaultChain (Spec Inputs.clearFails) = false /\
  calls (trace_of (IPTablesRuleConfig_Ensure Inputs.clearFails false tt)) =
    [EvClearChain "mangle" "GKE-CHAIN" (Some Inputs.lockHeld)] /\
  ~ (exists err, In (EvDeleteChain "mangle" "GKE-CHAIN" err)
                    (trace_of (IPTablesRuleConfig_Ensure Inputs.clearFails false tt))).
Proof.
  split; [reflexivity|]. split; [reflexivity|].
  intros [err H]. cbn in H. destruct H as [H|[H|[]]]; discriminate H.
Qed.

(** One round of the delete loop on a default chain: an ignored error lets
    the loop go on with the next rule spec, any other iptables error is
    returned, an error of another type panics. *)
Lemma deleteRuleSpecs_step {W} (r : IPTablesRuleConfig W) (rs : IPTablesRuleSpec)
    (rest : list IPTablesRuleSpec) (w : W) :
  let t := TableName (Spec r) in
  let c := ChainName (Spec r) in
  let err := fst (Delete (IPT r) t c rs w) in
  let w1 := snd (Delete (IPT r) t c rs w) in
  deleteRuleSpecs r (rs :: rest) w =
  if delete_error_ignored err then
    (result_of (deleteRuleSpecs r rest w1), world_of (deleteRuleSpecs r rest w1),
     EvDelete t c rs err :: trace_of (deleteRuleSpecs r rest w1))
  else if is_iptables_Error err then (Returns err, w1, [EvDelete t c rs err])
  else (Panics, w1, [EvDelete t c rs err]).
Proof.
  cbv zeta. cbn [deleteRuleSpecs]. rewrite run_bind, run_extern.
  destruct (fst (Delete _ _ _ _ _)) as [[n| | |st text|]|]; try reflexivity.
  cbn [delete_error_ignored is_iptables_Error].
  destruct (st =? 2); [reflexivity|]. cbn [negb orb].
  destruct (strings_Contains _ _); reflexivity.
Qed.

(** C6 at the input where it fails: on a default chain, a [Delete] error that
    is not an [*iptables.Error] makes [Ensure(false)] panic instead of
    returning that error. *)
Theorem IPTablesRuleConfig_Ensure_false_panics_on_foreign_error :
  IsDefaultChain (Spec Inputs.deleteNotStarted) = true /\
  trace_of (IPTablesRuleConfig_Ensure Inputs.deleteNotStarted false tt) =
    [EvDelete "mangle" "PREROUTING" ["-j"; "GKE-CHAIN"] (Some Inputs.notStarted)] /\
  result_of (IPTablesRuleConfig_Ensure Inputs.deleteNotStarted false tt) = Panics /\
  result_of (IPTablesRuleConfig_Ensure Inputs.deleteNotStarted false tt)
    <> Returns (Some Inputs.notStarted).
Proof. repeat split. discriminate. Qed.

(** ** The convergence loop of IPRuleConfig *)

Section EnsureLoop.

Context {W : Type}.
Implicit Types (r : IPRuleConfig W) (w : W).

Lemma ensureLoop_done r ensureCount err :
  ensureLoop r ensureCount ensureCount err = ret err.
Proof.
  simp ensureLoop. destruct (Z.eq_dec ensureCount ensureCount) as [Heq|Hne]; [reflexivity|].
  destruct (Hne eq_refl).
Qed.

Lemma ensureLoop_delete r ensureCount ruleCount err :
  ruleCount > ensureCount ->
  ensureLoop r ensureCount ruleCount err =
  bind (extern (RuleDel r (Rule_ r)) (EvRuleDel (Rule_ r))) (fun err1 =>
  bind (match err1 with
        | Some _ => glog_Errorf "failed to delete duplicated ip rule: %v, error: %v"
        | None => ret tt
        end) (fun _ =>
  ensureLoop r ensureCount (ruleCount - 1) err1)).
Proof.
  intros Hgt. simp ensureLoop.
  destruct (Z.eq_dec ruleCount ensureCount) as [Heq|Hne]; [lia|]. cbn.
  destruct (Z_gt_dec ruleCount ensureCount) as [Hgt'|Hle]; [reflexivity|lia].
Qed.

Lemma ensureLoop_add r ensureCount ruleCount err :
  ruleCount < ensureCount ->
  ensureLoop r ensureCount ruleCount err =
  bind (extern (RuleAdd r (Rule_ r)) (EvRuleAdd (Rule_ r))) (fun err1 =>
  bind (match err1 with
        | Some _ =>
            if os_IsExist err1 then ret None
            else bind (glog_Errorf "failed to add ip rule: %v, error: %v")
                      (fun _ => ret err1)
        | None => ret err1
        end) (fun err2 =>
  ensureLoop r ensureCount (ruleCount + 1) err2)).
Proof.
  intros Hlt. simp ensureLoop.
  destruct (Z.eq_dec ruleCount ensureCount) as [Heq|Hne]; [lia|]. cbn.
  destruct (Z_gt_dec ruleCount ensureCount) as [Hgt|Hle]; [lia|reflexivity].
Qed.

(** One iteration of the delete branch. *)
Lemma ensureLoop_delete_run r ensureCount ruleCount err w :
  ruleCount > ensureCount ->
  let ev := EvRuleDel (Rule_ r) (fst (RuleDel r (Rule_ r) w)) in
  let rest := ensureLoop r ensureCount (ruleCount - 1) (kept_error ev)
                (snd (RuleDel r (Rule_ r) w)) in
  ensureLoop r ensureCount ruleCount err w =
  (result_of rest, world_of rest, ev :: log_line ev ++ trace_of rest).
Proof.
  intros Hgt. cbv zeta. rewrite ensureLoop_delete by assumption.
  rewrite run_bind, run_extern. cbn [kept_error log_line].
  destruct (fst (RuleDel r (Rule_ r) w)) as [e|]; rewrite run_bind; reflexivity.
Qed.

(** One iteration of the add branch. *)
Lemma ensureLoop_add_run r ensureCount ruleCount err w :
  ruleCount < ensureCount ->
  let ev := EvRuleAdd (Rule_ r) (fst (RuleAdd r (Rule_ r) w)) in
  let rest := ensureLoop r ensureCount (ruleCount + 1) (kept_error ev)
                (snd (RuleAdd r (Rule_ r) w)) in
  ensureLoop r ensureCount ruleCount err w =
  (result_of rest, world_of rest, ev :: log_line ev ++ trace_of rest).
Proof.
  intros Hlt. cbv zeta. rewrite ensureLoop_add by assumption.
  rewrite run_bind, run_extern. cbn [kept_error log_line].
  destruct (fst (RuleAdd r (Rule_ r) w)) as [e|]; [|rewrite run_bind; reflexivity].
  destruct (os_IsExist (Some e)); rewrite !run_bind; reflexivity.
Qed.

Lemma calls_log_line (ev : Event) : calls (log_line ev) = [].
Proof.
  destruct ev as [| | |? [e|]|? [e|]| | | | | | |]; try reflexivity.
  cbn [log_line]. destruct (os_IsExist (Some e)); reflexivity.
Qed.

Lemma calls_iteration (ev : Event) (tr : list Event) :
  is_call ev = true -> calls (ev :: log_line ev ++ tr) = ev :: calls tr.
Proof.
  intros Hev. unfold calls at 1. cbn [List.filter]. rewrite Hev. f_equal.
  change (calls (log_line ev ++ tr) = calls tr).
  rewrite calls_app, calls_log_line. reflexivity.
Qed.

End EnsureLoop.

(** C3, as amended.  From a local count [ruleCount] and a target
    [ensureCount] the loop always returns, after exactly
    [|ruleCount - ensureCount|] calls: all of them [RuleDel] of the config's
    rule when the count is above the target, a failed one being logged and
    counted like a successful one; all of them [RuleAdd] when it is below.
    An add error for which [os.IsExist] holds is kept as nil and not logged.
    The value returned is the error kept from the last call, or the incoming
    [err] when no call was made: the error of an earlier call does not
    survive a later call. *)
Theorem ensureLoop_single_pass {W} (r : IPRuleConfig W) (ensureCount ruleCount : Z)
    (err : option error) (w : W) :
  let run := ensureLoop r ensureCount ruleCount err w in
  let issued := calls (trace_of run) in
  result_of run =
    Returns (match last issued with Some ev => kept_error ev | None => err end) /\
  length issued = Z.abs_nat (ruleCount - ensureCount) /\
  (ruleCount > ensureCount -> Forall (is_RuleDel_of (Rule_ r)) issued) /\
  (ruleCount < ensureCount -> Forall (is_RuleAdd_of (Rule_ r)) issued) /\
  trace_of run = flat_map (fun ev => ev :: log_line ev) issued.
Proof.
  cbv zeta.
  remember (Z.abs_nat (ruleCount - ensureCount)) as n eqn:Hn.
  revert ruleCount err w Hn.
  induction n as [|n IH]; intros ruleCount err w Hn.
  - assert (ruleCount = ensureCount) as -> by lia.
    rewrite ensureLoop_done. cbn. repeat split; try (intros; lia); constructor.
  - destruct (Z_gt_dec ruleCount ensureCount) as [Hgt|Hle].
    + rewrite (ensureLoop_delete_run r ensureCount ruleCount err w Hgt).
      cbv zeta. cbn [result_of world_of trace_of fst snd].
      set (ev := EvRuleDel (Rule_ r) (fst (RuleDel r (Rule_ r) w))).
      specialize (IH (ruleCount - 1) (kept_error ev) (snd (RuleDel r (Rule_ r) w))
                     ltac:(lia)).
      destruct IH as (Hres & Hlen & Hdel & _ & Htr).
      rewrite calls_iteration by reflexivity.
      repeat split.
      * rewrite Hres, last_cons.
        destruct (last (calls _)); reflexivity.
      * cbn [length]. rewrite Hlen. reflexivity.
      * intros _. constructor; [eexists; reflexivity|].
        destruct (Z.eq_dec (ruleCount - 1) ensureCount) as [Heq|Hne].
        -- rewrite Heq, ensureLoop_done. constructor.
        -- apply Hdel. lia.
      * intros Hlt. lia.
      * cbn [flat_map]. rewrite <- Htr, <- app_comm_cons. reflexivity.
    + assert (ruleCount < ensureCount) as Hlt by lia.
      rewrite (ensureLoop_add_run r ensureCount ruleCount err w Hlt).
      cbv zeta. cbn [result_of world_of trace_of fst snd].
      set (ev := EvRuleAdd (Rule_ r) (fst (RuleAdd r (Rule_ r) w))).
      specialize (IH (ruleCount + 1) (kept_error ev) (snd (RuleAdd r (Rule_ r) w))
                     ltac:(lia)).
      destruct IH as (Hres & Hlen & _ & Hadd & Htr).
      rewrite calls_iteration by reflexivity.
      repeat split.
      * rewrite Hres, last_cons.
        destruct (last (calls _)); reflexivity.
      * cbn [length]. rewrite Hlen. reflexivity.
      * intros Hgt. lia.
      * intros _. constructor; [eexists; reflexivity|].
        destruct (Z.eq_dec (ruleCount + 1) ensureCount) as [Heq|Hne].
        -- rewrite Heq, ensureLoop_done. constructor.
        -- apply Hadd. lia.
      * cbn [flat_map]. rewrite <- Htr, <- app_comm_cons. reflexivity.
Qed.

(** The single pass on a concrete run: two copies in the kernel, target 0. *)
Lemma ensureLoop_single_pass_witness :
  length (calls (trace_of (ensureLoop (Faulty.ruleConfig Inputs.localRule) 0 2 None
                             Inputs.twoCopiesOneFault))) = 2%nat /\
  Forall (is_RuleDel_of Inputs.localRule)
    (calls (trace_of (ensureLoop (Faulty.ruleConfig Inputs.localRule) 0 2 None
                        Inputs.twoCopiesOneFault))).
Proof.
  pose proof (ensureLoop_single_pass (Faulty.ruleConfig Inputs.localRule) 0 2 None
                Inputs.twoCopiesOneFault) as H.
  cbv zeta in H. destruct H as (_ & Hlen & Hdel & _).
  split; [exact Hlen | apply Hdel; lia].
Defined.

(** C3 as stated fails: the kernel holds two copies, the first delete fails
    and is logged, the second succeeds.  [Ensure(false)] returns nil although
    an error was met and one copy is still in the kernel. *)
Lemma Ensure_false_forgets_earlier_delete_error :
  trace_of (IPRuleConfig_Ensure (Faulty.ruleConfig Inputs.localRule) false
              Inputs.twoCopiesOneFault) =
    [EvRuleList AF_INET (RefKernel.rules Inputs.twoCopies) None;
     EvRuleDel Inputs.localRule (Some (Errno Faulty.ENOBUFS));
     EvGlogErrorf "failed to delete duplicated ip rule: %v, error: %v";
     EvRuleDel Inputs.localRule None] /\
  result_of (IPRuleConfig_Ensure (Faulty.ruleConfig Inputs.localRule) false
               Inputs.twoCopiesOneFault) = Returns None /\
  count_matching Inputs.localRule
    (RefKernel.rules (fst (world_of (IPRuleConfig_Ensure
       (Faulty.ruleConfig Inputs.localRule) false Inputs.twoCopiesOneFault)))) = 1.
Proof. vm_compute. repeat split. Qed.

(** ** Convergence of the rule count *)

Lemma fold_count_shift (target : Rule) (l : list Rule) (a : Z) :
  fold_left (fun count rule =>
               if isRuleEqualWithoutPriority rule target then count + 1 else count) l a =
  a + count_matching target l.
Proof.
  unfold count_matching. revert a.
  induction l as [|x l IH]; intros a; cbn [fold_left]; [lia|].
  destruct (isRuleEqualWithoutPriority x target).
  - rewrite (IH (a + 1)), (IH (0 + 1)). lia.
  - apply IH.
Qed.

Lemma count_matching_cons (target x : Rule) (l : list Rule) :
  count_matching target (x :: l) =
  (if isRuleEqualWithoutPriority x target then 1 else 0) + count_matching target l.
Proof.
  unfold count_matching at 1. cbn [fold_left]. rewrite fold_count_shift.
  destruct (isRuleEqualWithoutPriority x target); lia.
Qed.

Lemma count_matching_app (target : Rule) (l1 l2 : list Rule) :
  count_matching target (l1 ++ l2) = count_matching target l1 + count_matching target l2.
Proof.
  induction l1 as [|x l1 IH]; [reflexivity|].
  rewrite <- app_comm_cons, !count_matching_cons, IH. lia.
Qed.

Lemma count_matching_nonneg (target : Rule) (l : list Rule) :
  0 <= count_matching target l.
Proof.
  induction l as [|x l IH]; [reflexivity|].
  rewrite count_matching_cons. destruct (isRuleEqualWithoutPriority x target); lia.
Qed.

Lemma isRuleEqualWithoutPriority_refl (r : Rule) : isRuleEqualWithoutPriority r r = true.
Proof. apply bool_decide_eq_true. reflexivity. Qed.

Section Convergence.

Context {W : Type} (r : IPRuleConfig W) (table : W -> list Rule).
Hypothesis kernel : RuleKernel r table.

Lemma ensureLoop_converges (ensureCount ruleCount : Z) (err : option error) (w : W) :
  count_matching (Rule_ r) (table w) = ruleCount ->
  Forall succeeded (trace_of (ensureLoop r ensureCount ruleCount err w)) ->
  count_matching (Rule_ r)
    (table (world_of (ensureLoop r ensureCount ruleCount err w))) = ensureCount /\
  result_of (ensureLoop r ensureCount ruleCount err w) =
    Returns (if Z.eq_dec ruleCount ensureCount then err else None).
Proof.
  remember (Z.abs_nat (ruleCount - ensureCount)) as n eqn:Hn.
  revert ruleCount err w Hn.
  induction n as [|n IH]; intros ruleCount err w Hn Hcount Hok.
  - assert (ruleCount = ensureCount) as -> by lia.
    rewrite ensureLoop_done. cbn.
    destruct (Z.eq_dec ensureCount ensureCount); [auto|congruence].
  - destruct (Z.eq_dec ruleCount ensureCount) as [Heq|Hne]; [lia|].
    destruct (Z_gt_dec ruleCount ensureCount) as [Hgt|Hle].
    + rewrite (ensureLoop_delete_run r ensureCount ruleCount err w Hgt) in Hok |- *.
      cbv zeta in Hok |- *. cbn [result_of world_of trace_of fst snd] in Hok |- *.
      apply Forall_cons in Hok as [Hev Hok]. cbn in Hev.
      rewrite Hev in Hok |- *. cbn [log_line kept_error app] in Hok |- *.
      assert (count_matching (Rule_ r) (table (snd (RuleDel r (Rule_ r) w)))
              = ruleCount - 1) as Hstep.
      { rewrite (del_removes_one r table kernel w (snd (RuleDel r (Rule_ r) w))).
        - lia.
        - rewrite <- Hev. apply surjective_pairing. }
      destruct (IH (ruleCount - 1) None _ ltac:(lia) Hstep Hok) as [Hc Hr].
      split; [exact Hc|]. rewrite Hr. destruct (Z.eq_dec _ _); reflexivity.
    + assert (ruleCount < ensureCount) as Hlt by lia.
      rewrite (ensureLoop_add_run r ensureCount ruleCount err w Hlt) in Hok |- *.
      cbv zeta in Hok |- *. cbn [result_of world_of trace_of fst snd] in Hok |- *.
      apply Forall_cons in Hok as [Hev Hok]. cbn in Hev.
      rewrite Hev in Hok |- *. cbn [log_line kept_error os_IsExist app] in Hok |- *.
      assert (count_matching (Rule_ r) (table (snd (RuleAdd r (Rule_ r) w)))
              = ruleCount + 1) as Hstep.
      { rewrite (add_adds_one r table kernel w (snd (RuleAdd r (Rule_ r) w))).
        - lia.
        - rewrite <- Hev. apply surjective_pairing. }
      destruct (IH (ruleCount + 1) None _ ltac:(lia) Hstep Hok) as [Hc Hr].
      split; [exact Hc|]. rewrite Hr. destruct (Z.eq_dec _ _); reflexivity.
Qed.

Lemma ensureHelper_converges (ensureCount : Z) (w : W) :
  Forall succeeded (trace_of (IPRuleConfig_ensureHelper r ensureCount w)) ->
  count_matching (Rule_ r)
    (table (world_of (IPRuleConfig_ensureHelper r ensureCount w))) = ensureCount /\
  result_of (IPRuleConfig_ensureHelper r ensureCount w) = Returns None.
Proof.
  unfold IPRuleConfig_ensureHelper, IPRuleConfig_count.
  rewrite !run_bind, run_extern.
  destruct (RuleList r AF_INET w) as [[rs lerr] w1] eqn:Hlist.
  cbn [fst snd]. destruct lerr as [e|].
  - cbn. intros Hok. apply Forall_cons in Hok as [Hev _]. discriminate Hev.
  - cbn [ret result_of world_of trace_of fst snd app].
    intros Hok. apply Forall_cons in Hok as [_ Hok].
    destruct (list_reports r table kernel w rs w1 Hlist) as [-> Hsame].
    destruct (ensureLoop_converges ensureCount (count_matching (Rule_ r) (table w))
                None w1 ltac:(rewrite Hsame; reflexivity) Hok) as [Hc Hr].
    split; [exact Hc|]. rewrite Hr. destruct (Z.eq_dec _ _); reflexivity.
Qed.

End Convergence.

(** ** Convergence, said of the rules the kernel holds *)

Lemma isRuleEqualWithoutPriority_same_but_priority (a b : Rule) :
  isRuleEqualWithoutPriority a b = true <-> same_but_priority a b.
Proof.
  unfold isRuleEqualWithoutPriority, reflect_DeepEqual, same_but_priority.
  rewrite bool_decide_eq_true. unfold set_Priority. split.
  - intros H. injection H. intros. repeat split; assumption.
  - destruct a, b; simpl.
    intros (-> & -> & -> & -> & -> & -> & -> & -> & -> & -> & -> & -> & -> & -> & -> & -> & ->).
    reflexivity.
Qed.

Lemma count_matching_equal_without_priority (target : Rule) (l : list Rule) :
  count_matching target l = Z.of_nat (length (equal_without_priority target l)).
Proof.
  unfold equal_without_priority.
  induction l as [|k l IH].
  - reflexivity.
  - rewrite count_matching_cons, IH, filter_cons.
    destruct (isRuleEqualWithoutPriority k target) eqn:Hk.
    + apply isRuleEqualWithoutPriority_same_but_priority in Hk.
      rewrite decide_True by exact Hk. cbn [length]. lia.
    + rewrite decide_False; [lia|].
      intros Hs. apply isRuleEqualWithoutPriority_same_but_priority in Hs. congruence.
Qed.

Lemma RuleStore_RuleKernel {W} (r : IPRuleConfig W) (table : W -> list Rule) :
  RuleStore r table -> RuleKernel r table.
Proof.
  intros Hs. split.
  - exact (store_lists r table Hs).
  - intros w w' Hadd.
    destruct (store_adds r table Hs w w' Hadd) as (k & Hk & Hperm).
    rewrite !count_matching_equal_without_priority. unfold equal_without_priority.
    rewrite Hperm, filter_cons, decide_True by exact Hk. cbn [length]. lia.
  - intros w w' Hdel.
    destruct (store_deletes r table Hs w w' Hdel) as (k & Hk & Hperm).
    rewrite !count_matching_equal_without_priority. unfold equal_without_priority.
    rewrite Hperm, filter_cons, decide_True by exact Hk. cbn [length]. lia.
Qed.

(** C1. Take a kernel that keeps the rules as they are given: listing
    reports its rules, an add that succeeds stores one rule that agrees with
    the rule of the config on every field other than the priority, a delete
    that succeeds removes one such rule.  Whatever number of such rules the
    kernel holds, if every call that [Ensure] makes reports success then
    [Ensure(true)] leaves exactly one rule that agrees with the rule of the
    config on every field other than the priority and [Ensure(false)] none,
    and both return nil. *)
Theorem IPRuleConfig_Ensure_converges {W} (r : IPRuleConfig W) (table : W -> list Rule)
    (enabled : bool) (w : W) :
  RuleStore r table ->
  Forall succeeded (trace_of (IPRuleConfig_Ensure r enabled w)) ->
  length (equal_without_priority (Rule_ r)
            (table (world_of (IPRuleConfig_Ensure r enabled w)))) =
    (if enabled then 1%nat else 0%nat) /\
  result_of (IPRuleConfig_Ensure r enabled w) = Returns None.
Proof.
  intros Hs Hok.
  pose proof (RuleStore_RuleKernel r table Hs) as Hk.
  assert (count_matching (Rule_ r) (table (world_of (IPRuleConfig_Ensure r enabled w))) =
            (if enabled then 1 else 0) /\
          result_of (IPRuleConfig_Ensure r enabled w) = Returns None) as [Hc Hr].
  { revert Hok. unfold IPRuleConfig_Ensure.
    destruct enabled; apply (ensureHelper_converges r table Hk). }
  split; [|exact Hr].
  rewrite count_matching_equal_without_priority in Hc. destruct enabled; lia.
Qed.

(** ** The reference model satisfies the assumptions of convergence *)

Lemma remove_first_Some {A} (p : A -> bool) (l l' : list A) :
  RefKernel.remove_first p l = Some l' ->
  exists l1 x l2, l = l1 ++ x :: l2 /\ p x = true /\ l' = l1 ++ l2 /\
                  Forall (fun y => p y = false) l1.
Proof.
  revert l'. induction l as [|y l IH]; intros l' H; [discriminate H|].
  cbn [RefKernel.remove_first] in H. destruct (p y) eqn:Hy.
  - injection H as <-. exists [], y, l. repeat split; [assumption|constructor].
  - destruct (RefKernel.remove_first p l) as [rest|] eqn:Hrest; [|discriminate H].
    injection H as <-.
    destruct (IH rest eq_refl) as (l1 & x & l2 & -> & Hx & -> & Hl1).
    exists (y :: l1), x, l2. repeat split; [assumption|]. constructor; assumption.
Qed.

Lemma remove_first_None {A} (p : A -> bool) (l : list A) :
  RefKernel.remove_first p l = None -> Forall (fun y => p y = false) l.
Proof.
  induction l as [|y l IH]; intros H; [constructor|].
  cbn [RefKernel.remove_first] in H. destruct (p y) eqn:Hy; [discriminate H|].
  destruct (RefKernel.remove_first p l); [discriminate H|].
  constructor; [assumption|apply IH; reflexivity].
Qed.

Lemma RefKernel_RuleKernel (rule : Rule) :
  RuleKernel (RefKernel.ruleConfig rule) RefKernel.rules.
Proof.
  split; cbn [RuleList RuleAdd RuleDel Rule_ RefKernel.ruleConfig].
  - intros w rs w' [= <- <-]. split; reflexivity.
  - intros w w'. unfold RefKernel.addRule.
    destruct (bool_decide _); intros [= <-]. cbn [RefKernel.rules RefKernel.set_rules].
    rewrite count_matching_app, count_matching_cons, isRuleEqualWithoutPriority_refl.
    change (count_matching rule []) with 0. lia.
  - intros w w'. unfold RefKernel.delRule.
    destruct (RefKernel.remove_first _ _) as [l|] eqn:Hrm; intros [= <-].
    cbn [RefKernel.rules RefKernel.set_rules].
    destruct (remove_first_Some _ _ _ Hrm) as (l1 & x & l2 & -> & Hx & -> & _).
    unfold RefKernel.selects in Hx. apply andb_true_iff in Hx as [Hx _].
    rewrite !count_matching_app, count_matching_cons, Hx. lia.
Qed.

Lemma RefKernel_RuleStore (rule : Rule) :
  RuleStore (RefKernel.ruleConfig rule) RefKernel.rules.
Proof.
  split; cbn [RuleList RuleAdd RuleDel Rule_ RefKernel.ruleConfig].
  - intros w rs w' [= <- <-]. split; reflexivity.
  - intros w w'. unfold RefKernel.addRule.
    destruct (bool_decide _); intros [= <-].
    exists rule. split.
    + apply isRuleEqualWithoutPriority_same_but_priority, isRuleEqualWithoutPriority_refl.
    + cbn [RefKernel.rules RefKernel.set_rules].
      rewrite Permutation_app_comm. reflexivity.
  - intros w w'. unfold RefKernel.delRule.
    destruct (RefKernel.remove_first _ _) as [l|] eqn:Hrm; intros [= <-].
    destruct (remove_first_Some _ _ _ Hrm) as (l1 & k & l2 & Hw & Hsel & -> & _).
    exists k. split.
    + unfold RefKernel.selects in Hsel. apply andb_true_iff in Hsel as [Hsel _].
      apply isRuleEqualWithoutPriority_same_but_priority. exact Hsel.
    + cbn [RefKernel.rules RefKernel.set_rules]. rewrite Hw.
      symmetry. apply Permutation_middle.
Qed.

(** C1 on the reference model: a kernel holding the rule under two
    priorities converges to one copy when enabled and to none when
    disabled. *)
Lemma IPRuleConfig_Ensure_converges_witness :
  (length (equal_without_priority Inputs.localRule
     (RefKernel.rules (world_of (IPRuleConfig_Ensure
        (RefKernel.ruleConfig Inputs.localRule) true Inputs.twoCopies)))) = 1%nat /\
   result_of (IPRuleConfig_Ensure (RefKernel.ruleConfig Inputs.localRule) true
                Inputs.twoCopies) = Returns None) /\
  (length (equal_without_priority Inputs.localRule
     (RefKernel.rules (world_of (IPRuleConfig_Ensure
        (RefKernel.ruleConfig Inputs.localRule) false Inputs.twoCopies)))) = 0%nat /\
   result_of (IPRuleConfig_Ensure (RefKernel.ruleConfig Inputs.localRule) false
                Inputs.twoCopies) = Returns None).
Proof.
  split.
  - apply (IPRuleConfig_Ensure_converges (RefKernel.ruleConfig Inputs.localRule)
             RefKernel.rules true Inputs.twoCopies (RefKernel_RuleStore _)).
    vm_compute. repeat constructor.
  - apply (IPRuleConfig_Ensure_converges (RefKernel.ruleConfig Inputs.localRule)
             RefKernel.rules false Inputs.twoCopies (RefKernel_RuleStore _)).
    vm_compute. repeat constructor.
Defined.

(** C1 as stated fails, without the assumption on the kernel: the netlink
    library sends an IPv4 destination in four bytes and lists it in four
    bytes.  For a config whose rule holds the address in the sixteen-byte
    form, on an empty kernel, every call of [Ensure(true)] succeeds and nil
    is returned; the kernel then holds the rule in the four-byte form, and no
    rule of the kernel agrees with the rule of the config on every field
    other than the priority. *)
Theorem Ensure_true_16_byte_address_counts_no_rule :
  Forall succeeded
    (trace_of (IPRuleConfig_Ensure (Netlink.ruleConfig Netlink.rule16) true
                 RefKernel.empty)) /\
  result_of (IPRuleConfig_Ensure (Netlink.ruleConfig Netlink.rule16) true RefKernel.empty)
    = Returns None /\
  RefKernel.rules
    (world_of (IPRuleConfig_Ensure (Netlink.ruleConfig Netlink.rule16) true
                 RefKernel.empty))
    = [Netlink.listed Netlink.rule16] /\
  equal_without_priority Netlink.rule16
    (RefKernel.rules
       (world_of (IPRuleConfig_Ensure (Netlink.ruleConfig Netlink.rule16) true
                    RefKernel.empty))) = [] /\
  count_matching Netlink.rule16
    (RefKernel.rules
       (world_of (IPRuleConfig_Ensure (Netlink.ruleConfig Netlink.rule16) true
                    RefKernel.empty))) = 0.
Proof.
  split; [vm_compute; repeat constructor|].
  split; [vm_compute; reflexivity|].
  split; [vm_compute; reflexivity|].
  split; vm_compute; reflexivity.
Qed.

(** ** Ensure on a Set *)

Lemma ensureConfigs_all_ensured {W} (enabled : bool) (cs rest : list (Config W))
    (w w1 : W) (t1 : list Event) :
  all_ensured enabled cs w w1 t1 ->
  ensureConfigs (cs ++ rest) enabled w =
  (result_of (ensureConfigs rest enabled w1),
   world_of (ensureConfigs rest enabled w1),
   t1 ++ trace_of (ensureConfigs rest enabled w1)).
Proof.
  induction 1 as [w|c cs w w1 w2 t1 t2 Hc Hcs IH].
  - cbn [app]. destruct (ensureConfigs rest enabled w) as [[res w'] t]. reflexivity.
  - rewrite <- app_comm_cons. cbn [ensureConfigs].
    rewrite run_bind, Hc, IH, <- app_assoc. reflexivity.
Qed.

(** C8. [Ensure] on a [Set] ensures the members in declaration order.  When
    every member returns nil the bundle returns nil after all their calls.
    When a member returns an error after the members before it returned nil,
    the bundle returns that error, the calls made are those of the members up
    to and including it, and the world is the one that member left: no later
    member is touched and nothing is undone. *)
Theorem ConfigSet_Ensure_in_order_first_error {W} (s : ConfigSet W) (enabled : bool)
    (w : W) :
  (forall w' t,
     all_ensured enabled (Configs s) w w' t ->
     ConfigSet_Ensure s enabled w = (Returns None, w', t)) /\
  (forall before c after w1 t1 e w2 t2,
     Configs s = before ++ c :: after ->
     all_ensured enabled before w w1 t1 ->
     Ensure c enabled w1 = (Returns (Some e), w2, t2) ->
     ConfigSet_Ensure s enabled w = (Returns (Some e), w2, t1 ++ t2)).
Proof.
  unfold ConfigSet_Ensure. split.
  - intros w' t Hall.
    rewrite <- (app_nil_r (Configs s)), (ensureConfigs_all_ensured _ _ [] _ _ _ Hall).
    cbn. rewrite app_nil_r. reflexivity.
  - intros before c after w1 t1 e w2 t2 -> Hall Hc.
    rewrite (ensureConfigs_all_ensured _ _ (c :: after) _ _ _ Hall).
    cbn [ensureConfigs]. rewrite run_bind, Hc. cbn. rewrite app_nil_r. reflexivity.
Qed.

(** C8 on a bundle of three routes whose second member fails: the third
    route is never added. *)
Lemma ConfigSet_Ensure_in_order_first_error_witness :
  ConfigSet_Ensure Inputs.bundle true tt =
  (Returns (Some (Errno Inputs.EPERM)), tt,
   [EvRouteAdd Fixed.route None] ++ [EvRouteAdd Fixed.route (Some (Errno Inputs.EPERM))]).
Proof.
  apply (proj2 (ConfigSet_Ensure_in_order_first_error Inputs.bundle true tt)
           [Config_IPRoute (Fixed.routeConfig None None)]
           (Config_IPRoute (Fixed.routeConfig (Some (Errno Inputs.EPERM)) None))
           [Config_IPRoute (Fixed.routeConfig None None)]
           tt [EvRouteAdd Fixed.route None] (Errno Inputs.EPERM) tt
           [EvRouteAdd Fixed.route (Some (Errno Inputs.EPERM))]).
  - reflexivity.
  - apply (all_ensured_cons true _ [] tt tt tt [EvRouteAdd Fixed.route None] []).
    + reflexivity.
    + constructor.
  - reflexivity.
Defined.

(** ** The veth gateway destination *)

Lemma Z_to_ipv4_bytes (n : Z) :
  length (Z_to_ipv4 n) = 4%nat /\ Forall (fun b => 0 <= b < 256) (Z_to_ipv4 n).
Proof.
  split; [reflexivity|]. unfold Z_to_ipv4.
  repeat constructor; apply Z.mod_pos_bound; lia.
Qed.

Lemma ipv4_to_Z_to_ipv4 (n : Z) :
  0 <= n < 4294967296 -> ipv4_to_Z (Z_to_ipv4 n) = n.
Proof.
  intros Hn. unfold ipv4_to_Z, Z_to_ipv4. cbn [fold_left].
  Z.div_mod_to_equations. lia.
Qed.

Lemma digit_of_range (c : ascii) (d : Z) : digit_of c = Some d -> 0 <= d <= 9.
Proof.
  unfold digit_of. cbv zeta.
  destruct ((48 <=? Z.of_N (N_of_ascii c)) && (Z.of_N (N_of_ascii c) <=? 57)) eqn:Hrange;
    [|discriminate].
  apply andb_true_iff in Hrange as [Hlo Hhi]. apply Z.leb_le in Hlo, Hhi.
  intros [= <-]. lia.
Qed.

Lemma dtoi_from_nonneg (s : string) (acc n : Z) :
  0 <= acc -> dtoi_from acc s = Some n -> 0 <= n.
Proof.
  revert acc. induction s as [|c s IH]; intros acc Hacc; cbn [dtoi_from].
  - intros [= <-]. exact Hacc.
  - destruct (digit_of c) as [d|] eqn:Hd; [|discriminate].
    apply digit_of_range in Hd.
    destruct (16777215 <=? acc * 10 + d); [discriminate|].
    apply IH. lia.
Qed.

Lemma dtoi_nonneg (s : string) (n : Z) : dtoi s = Some n -> 0 <= n.
Proof.
  destruct s as [|c s]; [discriminate|]. unfold dtoi.
  apply dtoi_from_nonneg. lia.
Qed.

Lemma parseOctet_range (s : string) (n : Z) : parseOctet s = Some n -> 0 <= n <= 255.
Proof.
  unfold parseOctet.
  assert (match dtoi s with
          | Some n0 => if (String.length s <=? 3)%nat && (n0 <=? 255) then Some n0 else None
          | None => None
          end = Some n -> 0 <= n <= 255) as Hgen.
  { destruct (dtoi s) as [n0|] eqn:Hd; [|discriminate].
    apply dtoi_nonneg in Hd.
    destruct ((String.length s <=? 3)%nat && (n0 <=? 255)) eqn:Hc; [|discriminate].
    apply andb_true_iff in Hc as [_ Hc]. apply Z.leb_le in Hc.
    intros [= <-]. lia. }
  destruct s as [|c [|c' s']]; try exact Hgen.
  all: destruct c as [b0 b1 b2 b3 b4 b5 b6 b7].
  all: destruct b0, b1, b2, b3, b4, b5, b6, b7;
    first [exact Hgen | intros Habs; discriminate Habs].
Qed.

Lemma parseIPv4_bytes (s : string) (ip : list Z) :
  parseIPv4 s = Some ip ->
  exists a b c d,
    ip = [a; b; c; d] /\
    0 <= a <= 255 /\ 0 <= b <= 255 /\ 0 <= c <= 255 /\ 0 <= d <= 255.
Proof.
  unfold parseIPv4.
  destruct (cut "." s) as [[f1 s1]|]; [|discriminate].
  destruct (cut "." s1) as [[f2 s2]|]; [|discriminate].
  destruct (cut "." s2) as [[f3 f4]|]; [|discriminate].
  destruct (parseOctet f1) as [a|] eqn:Ha; [|discriminate].
  destruct (parseOctet f2) as [b|] eqn:Hb; [|discriminate].
  destruct (parseOctet f3) as [c|] eqn:Hc; [|discriminate].
  destruct (parseOctet f4) as [d|] eqn:Hd; [|discriminate].
  intros [= <-]. exists a, b, c, d.
  apply parseOctet_range in Ha, Hb, Hc, Hd. repeat split; lia.
Qed.

Lemma ParseCIDR_text (cidr : string) (podNet : IPNet) :
  ParseCIDR cidr = Some podNet ->
  exists addr bits ip n,
    cut "/" cidr = Some (addr, bits) /\ parseIPv4 addr = Some ip /\
    dtoi bits = Some n /\ 0 <= n <= 32 /\
    podNet = {| IP := Some (maskIP ip (CIDRMask 4 n)); Mask := Some (CIDRMask 4 n) |}.
Proof.
  unfold ParseCIDR.
  destruct (cut "/" cidr) as [[addr bits]|]; [|discriminate].
  destruct (parseIPv4 addr) as [ip|] eqn:Hip; [|discriminate].
  destruct (dtoi bits) as [n|] eqn:Hn; [|discriminate].
  destruct (n <=? 32) eqn:Hle; [|discriminate].
  intros [= <-]. apply Z.leb_le in Hle. pose proof (dtoi_nonneg _ _ Hn).
  exists addr, bits, ip, n. repeat split; try reflexivity; try assumption; lia.
Qed.

Lemma land_mask_byte_table :
  forallb (fun m => forallb (low_bits_cleared m) (seqZ 0 256)) maskBytes = true.
Proof. vm_compute. reflexivity. Qed.

Lemma land_mask_byte (m x : Z) :
  In m maskBytes -> 0 <= x <= 255 -> Z.land x m = x - x mod (256 - m).
Proof.
  intros Hm Hx.
  pose proof land_mask_byte_table as Htable.
  rewrite forallb_forall in Htable. specialize (Htable m Hm).
  rewrite forallb_forall in Htable.
  assert (In x (seqZ 0 256)) as Hin by (apply list_elem_of_In, elem_of_seqZ; lia).
  specialize (Htable x Hin). unfold low_bits_cleared in Htable.
  apply Z.eqb_eq in Htable. exact Htable.
Qed.

(** The network address that [ParseCIDR] computes by masking is the address
    with its low [32 - n] bits cleared. *)
Lemma network_address (a b c d n : Z) :
  0 <= a <= 255 -> 0 <= b <= 255 -> 0 <= c <= 255 -> 0 <= d <= 255 ->
  0 <= n <= 32 ->
  ipv4_to_Z (maskIP [a; b; c; d] (CIDRMask 4 n)) =
    ipv4_to_Z [a; b; c; d] - ipv4_to_Z [a; b; c; d] mod 2 ^ (32 - n).
Proof.
  intros Ha Hb Hc Hd Hn.
  assert (Forall (fun n =>
                    ipv4_to_Z (maskIP [a; b; c; d] (CIDRMask 4 n)) =
                    ipv4_to_Z [a; b; c; d] - ipv4_to_Z [a; b; c; d] mod 2 ^ (32 - n))
                 (seqZ 0 33)) as Hall.
  { let l := eval vm_compute in (seqZ 0 33) in change (seqZ 0 33) with l.
    repeat (constructor;
            [match goal with
             | |- context [CIDRMask 4 ?k] =>
                 let m := eval vm_compute in (CIDRMask 4 k) in
                 change (CIDRMask 4 k) with m;
                 let p := eval vm_compute in (2 ^ (32 - k)) in
                 change (2 ^ (32 - k)) with p
             end;
             cbn [maskIP];
             rewrite (land_mask_byte _ a), (land_mask_byte _ b),
                     (land_mask_byte _ c), (land_mask_byte _ d)
               by first [assumption | cbn; tauto];
             unfold ipv4_to_Z; cbn [fold_left];
             Z.div_mod_to_equations; lia|]).
    constructor. }
  rewrite Forall_forall in Hall. apply Hall, elem_of_seqZ. lia.
Qed.




(** ** Calling Ensure twice on the reference model *)

Section Idempotence.

Import RefKernel.

Implicit Types (w : State).

Lemma remove_first_none_iff {A} (p : A -> bool) (l : list A) :
  Forall (fun y => p y = false) l -> remove_first p l = None.
Proof.
  induction 1 as [|y l Hy _ IH]; [reflexivity|].
  cbn [remove_first]. rewrite Hy, IH. reflexivity.
Qed.

Lemma set_chains_set_chains m1 m2 w : set_chains m1 (set_chains m2 w) = set_chains m1 w.
Proof. reflexivity. Qed.

Lemma set_chains_same w : set_chains (chains w) w = w.
Proof. destruct w; reflexivity. Qed.

(** *** SysctlConfig *)

Lemma SysctlConfig_Ensure_run {W} (s : SysctlConfig W) (enabled : bool) (w0 : W) :
  let value := if enabled then Value s else DefaultValue s in
  let out := SysctlFunc s (Key s) [value] w0 in
  SysctlConfig_Ensure s enabled w0 =
  (Returns (snd (fst out)), snd out, [EvSysctl (Key s) [value] (fst (fst out)) (snd (fst out))]).
Proof.
  cbv zeta. unfold SysctlConfig_Ensure. rewrite run_bind, run_extern. reflexivity.
Qed.

Lemma setParam_twice (key v : string) w :
  snd (fst (setParam key [v] w)) = None ->
  snd (fst (setParam key [v] (snd (setParam key [v] w)))) = None /\
  snd (setParam key [v] (snd (setParam key [v] w))) = snd (setParam key [v] w).
Proof.
  unfold setParam.
  destruct (sysctls w !! key) as [old|] eqn:Hkey; [|intros [=]].
  intros _. cbn [fst snd sysctls set_sysctls]. rewrite lookup_insert_eq.
  split; [reflexivity|]. cbn [fst snd].
  unfold set_sysctls. cbn [sysctls routes rules chains].
  rewrite insert_insert_eq. reflexivity.
Qed.

Lemma sysctl_twice (key value defaultValue : string) (enabled : bool) w :
  let c := sysctlConfig key value defaultValue in
  result_of (SysctlConfig_Ensure c enabled w) = Returns None ->
  result_of (SysctlConfig_Ensure c enabled (world_of (SysctlConfig_Ensure c enabled w)))
    = Returns None /\
  world_of (SysctlConfig_Ensure c enabled (world_of (SysctlConfig_Ensure c enabled w)))
    = world_of (SysctlConfig_Ensure c enabled w).
Proof.
  cbv zeta. rewrite !SysctlConfig_Ensure_run.
  cbn [Key Value DefaultValue SysctlFunc sysctlConfig result_of world_of fst snd].
  intros [= Hok]. destruct (setParam_twice _ _ _ Hok) as [Hres Hw].
  rewrite Hres, Hw. split; reflexivity.
Qed.

(** *** IPRouteConfig *)

Lemma IPRouteConfig_Ensure_false_world {W} (r : IPRouteConfig W) (w0 : W) :
  world_of (IPRouteConfig_Ensure r false w0) = snd (RouteDel r (Route_ r) w0).
Proof.
  unfold IPRouteConfig_Ensure. rewrite run_bind, run_extern.
  destruct (fst (RouteDel r (Route_ r) w0)) as [[n| | | |]|]; try reflexivity.
  destruct (n =? ESRCH); reflexivity.
Qed.

Lemma IPRouteConfig_Ensure_false_nil {W} (r : IPRouteConfig W) (w0 : W) :
  fst (RouteDel r (Route_ r) w0) = None ->
  result_of (IPRouteConfig_Ensure r false w0) = Returns None.
Proof.
  intros H. unfold IPRouteConfig_Ensure. rewrite run_bind, run_extern, H. reflexivity.
Qed.

Lemma addRoute_twice (r : Route) w :
  addRoute r (snd (addRoute r w)) = (Some (Errno EEXIST), snd (addRoute r w)).
Proof.
  unfold addRoute at 2 3. case_bool_decide as Hin; cbn [snd].
  - unfold addRoute. rewrite bool_decide_eq_true_2 by assumption. reflexivity.
  - unfold addRoute. cbn [routes set_routes].
    rewrite bool_decide_eq_true_2; [reflexivity|].
    apply elem_of_app. right. apply list_elem_of_singleton. reflexivity.
Qed.

Lemma delRoute_twice (r : Route) w :
  NoDup (routes w) ->
  (fst (delRoute r w) = None \/ fst (delRoute r w) = Some (Errno ESRCH)) /\
  delRoute r (snd (delRoute r w)) = (Some (Errno ESRCH), snd (delRoute r w)).
Proof.
  intros Hnd. unfold delRoute at 1 2 4 5.
  destruct (remove_first _ (routes w)) as [l|] eqn:Hrm; cbn [fst snd].
  - split; [left; reflexivity|].
    unfold delRoute. cbn [routes set_routes].
    destruct (remove_first_Some _ _ _ Hrm) as (l1 & x & l2 & Hl & Hx & -> & _).
    apply bool_decide_eq_true in Hx. subst x. rewrite Hl in Hnd.
    apply NoDup_app in Hnd as (_ & Hl1 & Hl2).
    apply NoDup_cons in Hl2 as [Hl2 _].
    rewrite remove_first_none_iff; [reflexivity|].
    apply Forall_forall. intros y Hy. apply bool_decide_eq_false. intros ->.
    apply elem_of_app in Hy as [Hy|Hy].
    + apply (Hl1 r Hy). apply elem_of_cons. left. reflexivity.
    + exact (Hl2 Hy).
  - split; [right; reflexivity|].
    unfold delRoute. rewrite Hrm. reflexivity.
Qed.

Lemma route_twice (r : Route) (enabled : bool) w :
  let c := routeConfig r in
  NoDup (routes w) ->
  result_of (IPRouteConfig_Ensure c enabled w) = Returns None ->
  result_of (IPRouteConfig_Ensure c enabled (world_of (IPRouteConfig_Ensure c enabled w)))
    = Returns None /\
  world_of (IPRouteConfig_Ensure c enabled (world_of (IPRouteConfig_Ensure c enabled w)))
    = world_of (IPRouteConfig_Ensure c enabled w).
Proof.
  cbv zeta. intros Hnd _. destruct enabled.
  - rewrite !IPRouteConfig_Ensure_true.
    cbn [result_of world_of fst snd RouteAdd Route_ routeConfig].
    rewrite addRoute_twice. split; reflexivity.
  - rewrite !IPRouteConfig_Ensure_false_world.
    cbn [RouteDel Route_ routeConfig].
    destruct (delRoute_twice r w Hnd) as [_ Hsnd]. split.
    + rewrite (IPRouteConfig_Ensure_false_errno _ _ ESRCH); [reflexivity|].
      cbn [RouteDel Route_ routeConfig]. rewrite Hsnd. reflexivity.
    + rewrite Hsnd. reflexivity.
Qed.

(** *** IPRuleConfig *)

Lemma count_matching_elem (r : Rule) (l : list Rule) :
  r ∈ l -> 1 <= count_matching r l.
Proof.
  induction l as [|x l IH]; intros Hin; [inversion Hin|].
  rewrite count_matching_cons. pose proof (count_matching_nonneg r l).
  apply elem_of_cons in Hin as [<-|Hin].
  - rewrite isRuleEqualWithoutPriority_refl. lia.
  - specialize (IH Hin). destruct (isRuleEqualWithoutPriority x r); lia.
Qed.

(** A delete that finds nothing to delete keeps failing: the loop runs to
    its end with [ENOENT] and leaves the kernel as it is. *)
Lemma ensureLoop_stuck (r : Rule) (ensureCount ruleCount : Z) (err : option error) w :
  remove_first (selects r) (rules w) = None ->
  ruleCount > ensureCount ->
  result_of (ensureLoop (ruleConfig r) ensureCount ruleCount err w)
    = Returns (Some (Errno ENOENT)).
Proof.
  intros Hnone.
  remember (Z.abs_nat (ruleCount - ensureCount)) as n eqn:Hn.
  revert ruleCount err Hn.
  induction n as [|n IH]; intros ruleCount err Hn Hgt; [lia|].
  rewrite (ensureLoop_delete_run _ ensureCount ruleCount err w Hgt).
  cbv zeta. cbn [result_of fst RuleDel Rule_ ruleConfig].
  unfold delRule. rewrite Hnone. cbn [fst snd kept_error].
  destruct (Z.eq_dec (ruleCount - 1) ensureCount) as [Heq|Hne].
  - rewrite Heq, ensureLoop_done. reflexivity.
  - apply IH; lia.
Qed.

(** On the reference model a loop that returns nil has seen every call
    succeed. *)
Lemma ensureLoop_nil_all_succeeded (r : Rule) (ensureCount ruleCount : Z) w :
  ensureCount = 0 \/ ensureCount = 1 ->
  count_matching r (rules w) = ruleCount ->
  result_of (ensureLoop (ruleConfig r) ensureCount ruleCount None w) = Returns None ->
  Forall succeeded (trace_of (ensureLoop (ruleConfig r) ensureCount ruleCount None w)).
Proof.
  intros Hec.
  remember (Z.abs_nat (ruleCount - ensureCount)) as n eqn:Hn.
  revert ruleCount w Hn.
  induction n as [|n IH]; intros ruleCount w Hn Hcount Hres.
  - assert (ruleCount = ensureCount) as -> by lia.
    rewrite ensureLoop_done. constructor.
  - destruct (Z_gt_dec ruleCount ensureCount) as [Hgt|Hle].
    + rewrite (ensureLoop_delete_run _ ensureCount ruleCount None w Hgt) in Hres |- *.
      cbv zeta in Hres |- *.
      cbn [result_of trace_of fst snd RuleDel Rule_ ruleConfig] in Hres |- *.
      pose proof (del_removes_one _ _ (RefKernel_RuleKernel r) w) as Hdel.
      cbn [RuleDel Rule_ ruleConfig] in Hdel.
      unfold delRule in Hres, Hdel |- *.
      destruct (remove_first (selects r) (rules w)) as [l|] eqn:Hrm.
      * cbn [fst snd kept_error log_line app] in Hres |- *.
        constructor; [reflexivity|].
        apply IH; [lia| |exact Hres].
        rewrite (Hdel _ eq_refl). lia.
      * exfalso. cbn [fst snd kept_error] in Hres.
        destruct (Z.eq_dec (ruleCount - 1) ensureCount) as [Heq|Hne].
        -- rewrite Heq, ensureLoop_done in Hres. discriminate Hres.
        -- rewrite (ensureLoop_stuck r ensureCount (ruleCount - 1) _ w Hrm) in Hres by lia.
           discriminate Hres.
    + assert (ruleCount < ensureCount) as Hlt by lia.
      pose proof (count_matching_nonneg r (rules w)) as Hnn.
      assert (ruleCount = 0 /\ ensureCount = 1) as [-> ->] by lia.
      rewrite (ensureLoop_add_run _ 1 0 None w Hlt).
      cbv zeta. cbn [trace_of snd fst RuleAdd Rule_ ruleConfig].
      unfold addRule. case_bool_decide as Hin.
      * apply count_matching_elem in Hin. lia.
      * cbn [fst snd kept_error os_IsExist log_line app].
        change (0 + 1) with 1. rewrite ensureLoop_done.
        constructor; [reflexivity|constructor].
Qed.

Lemma IPRuleConfig_ensureHelper_refkernel (r : Rule) (ensureCount : Z) w :
  IPRuleConfig_ensureHelper (ruleConfig r) ensureCount w =
  (result_of (ensureLoop (ruleConfig r) ensureCount (count_matching r (rules w)) None w),
   world_of (ensureLoop (ruleConfig r) ensureCount (count_matching r (rules w)) None w),
   EvRuleList AF_INET (rules w) None ::
   trace_of (ensureLoop (ruleConfig r) ensureCount (count_matching r (rules w)) None w)).
Proof.
  unfold IPRuleConfig_ensureHelper, IPRuleConfig_count.
  rewrite !run_bind, run_extern. reflexivity.
Qed.

Lemma ensureHelper_twice (r : Rule) (ensureCount : Z) w :
  ensureCount = 0 \/ ensureCount = 1 ->
  let c := ruleConfig r in
  result_of (IPRuleConfig_ensureHelper c ensureCount w) = Returns None ->
  result_of (IPRuleConfig_ensureHelper c ensureCount
               (world_of (IPRuleConfig_ensureHelper c ensureCount w))) = Returns None /\
  world_of (IPRuleConfig_ensureHelper c ensureCount
               (world_of (IPRuleConfig_ensureHelper c ensureCount w)))
    = world_of (IPRuleConfig_ensureHelper c ensureCount w).
Proof.
  intros Hec. cbv zeta. intros Hres.
  assert (Forall succeeded (trace_of (IPRuleConfig_ensureHelper (ruleConfig r) ensureCount w)))
    as Hok.
  { rewrite IPRuleConfig_ensureHelper_refkernel in Hres |- *.
    cbn [result_of trace_of fst snd] in Hres |- *.
    constructor; [reflexivity|].
    apply ensureLoop_nil_all_succeeded; [exact Hec|reflexivity|exact Hres]. }
  destruct (ensureHelper_converges (ruleConfig r) rules (RefKernel_RuleKernel r)
              ensureCount w Hok) as [Hcount _].
  cbn [Rule_ ruleConfig] in Hcount.
  set (w1 := world_of (IPRuleConfig_ensureHelper (ruleConfig r) ensureCount w)) in *.
  rewrite (IPRuleConfig_ensureHelper_refkernel r ensureCount w1).
  cbn [result_of world_of fst snd]. rewrite Hcount, ensureLoop_done.
  split; reflexivity.
Qed.

Lemma rule_twice (r : Rule) (enabled : bool) w :
  let c := ruleConfig r in
  result_of (IPRuleConfig_Ensure c enabled w) = Returns None ->
  result_of (IPRuleConfig_Ensure c enabled (world_of (IPRuleConfig_Ensure c enabled w)))
    = Returns None /\
  world_of (IPRuleConfig_Ensure c enabled (world_of (IPRuleConfig_Ensure c enabled w)))
    = world_of (IPRuleConfig_Ensure c enabled w).
Proof.
  cbv zeta. unfold IPRuleConfig_Ensure.
  destruct enabled; apply ensureHelper_twice; auto.
Qed.

(** *** IPTablesRuleConfig *)

Section Chain.

Variables (table chain : string) (isDefault : bool) (specs : list IPTablesRuleSpec).

Local Abbreviation cfg := (chainConfig table chain isDefault specs).

(** Enabling leaves the chain in place, whether it was there or not. *)
Lemma chain_ensure_true w :
  result_of (IPTablesChainSpec_ensure (Spec cfg) true w) = Returns None /\
  (exists l, chains (world_of (IPTablesChainSpec_ensure (Spec cfg) true w))
             !! (table, chain) = Some l) /\
  (forall l, chains w !! (table, chain) = Some l ->
             world_of (IPTablesChainSpec_ensure (Spec cfg) true w) = w).
Proof.
  unfold IPTablesChainSpec_ensure. rewrite run_bind, run_extern.
  cbn [Spec chainConfig SpecIPT TableName ChainName ipt NewChain].
  unfold newChain.
  destruct (chains w !! (table, chain)) as [l|] eqn:Hk; cbn.
  - split; [reflexivity|]. split; [eauto|]. intros; reflexivity.
  - split; [reflexivity|]. split; [|intros l [=]]. rewrite lookup_insert_eq. eauto.
Qed.

(** Appending to a chain that exists never fails and only adds rule specs. *)
Lemma appendRuleSpecs_run (todo : list IPTablesRuleSpec) w (l : list IPTablesRuleSpec) :
  chains w !! (table, chain) = Some l ->
  result_of (appendRuleSpecs cfg todo w) = Returns None /\
  exists l', chains (world_of (appendRuleSpecs cfg todo w)) !! (table, chain) = Some l' /\
             (forall rs, rs ∈ l -> rs ∈ l') /\ (forall rs, rs ∈ todo -> rs ∈ l').
Proof.
  revert w l. induction todo as [|rs todo IH]; intros w l Hk.
  - cbn. split; [reflexivity|]. exists l. repeat split; [assumption|auto|].
    intros rs Hrs. inversion Hrs.
  - cbn [appendRuleSpecs]. rewrite run_bind, run_extern.
    cbn [chainConfig IPT Spec TableName ChainName ipt AppendUnique].
    unfold appendUniqueRule. rewrite Hk.
    case_bool_decide as Hin; cbn [fst snd result_of world_of].
    + destruct (IH w l Hk) as (Hres & l' & Hl' & Hold & Hnew).
      split; [exact Hres|]. exists l'. repeat split; [exact Hl'|exact Hold|].
      intros rs' Hrs'. apply elem_of_cons in Hrs' as [->|Hrs']; auto.
    + set (w1 := set_chains _ w).
      assert (chains w1 !! (table, chain) = Some (l ++ [rs])) as Hk1
        by (unfold w1; cbn [chains set_chains]; apply lookup_insert_eq).
      destruct (IH w1 _ Hk1) as (Hres & l' & Hl' & Hold & Hnew).
      split; [exact Hres|]. exists l'. repeat split; [exact Hl'| |].
      * intros rs' Hrs'. apply Hold, elem_of_app. left. exact Hrs'.
      * intros rs' Hrs'. apply elem_of_cons in Hrs' as [->|Hrs']; [|auto].
        apply Hold, elem_of_app. right. apply list_elem_of_singleton. reflexivity.
Qed.

(** Appending rule specs that are all in the chain changes nothing. *)
Lemma appendRuleSpecs_noop (todo : list IPTablesRuleSpec) w (l : list IPTablesRuleSpec) :
  chains w !! (table, chain) = Some l ->
  (forall rs, rs ∈ todo -> rs ∈ l) ->
  result_of (appendRuleSpecs cfg todo w) = Returns None /\
  world_of (appendRuleSpecs cfg todo w) = w.
Proof.
  intros Hk. induction todo as [|rs todo IH]; intros Hall; [split; reflexivity|].
  cbn [appendRuleSpecs]. rewrite run_bind, run_extern.
  cbn [chainConfig IPT Spec TableName ChainName ipt AppendUnique].
  unfold appendUniqueRule. rewrite Hk.
  rewrite bool_decide_eq_true_2 by (apply Hall, elem_of_cons; left; reflexivity).
  cbn [fst snd result_of world_of]. apply IH.
  intros rs' Hrs'. apply Hall, elem_of_cons. right. exact Hrs'.
Qed.

Lemma chain_enable_run w :
  result_of (IPTablesRuleConfig_Ensure cfg true w) = Returns None /\
  exists l, chains (world_of (IPTablesRuleConfig_Ensure cfg true w)) !! (table, chain)
            = Some l /\ (forall rs, rs ∈ specs -> rs ∈ l).
Proof.
  unfold IPTablesRuleConfig_Ensure.
  destruct (chain_ensure_true w) as (Hres & [l0 Hl0] & _).
  destruct (bind_returns (IPTablesChainSpec_ensure (Spec cfg) true)
              (fun err => match err with
                          | Some _ => ret err
                          | None => appendRuleSpecs cfg (RuleSpecs cfg)
                          end) w None Hres) as [-> ->].
  destruct (appendRuleSpecs_run specs _ l0 Hl0) as (Hres' & l' & Hl' & _ & Hnew).
  split; [exact Hres'|]. exists l'. split; [exact Hl'|exact Hnew].
Qed.

Lemma chain_enable_twice w :
  result_of (IPTablesRuleConfig_Ensure cfg true
               (world_of (IPTablesRuleConfig_Ensure cfg true w))) = Returns None /\
  world_of (IPTablesRuleConfig_Ensure cfg true
               (world_of (IPTablesRuleConfig_Ensure cfg true w)))
    = world_of (IPTablesRuleConfig_Ensure cfg true w).
Proof.
  destruct (chain_enable_run w) as (_ & l & Hl & Hall).
  set (w1 := world_of (IPTablesRuleConfig_Ensure cfg true w)) in *.
  unfold IPTablesRuleConfig_Ensure.
  destruct (chain_ensure_true w1) as (Hres & _ & Hsame).
  destruct (bind_returns (IPTablesChainSpec_ensure (Spec cfg) true)
              (fun err => match err with
                          | Some _ => ret err
                          | None => appendRuleSpecs cfg (RuleSpecs cfg)
                          end) w1 None Hres) as [-> ->].
  rewrite (Hsame l Hl).
  apply (appendRuleSpecs_noop specs w1 l Hl Hall).
Qed.

(** Disabling a chain that is not a default chain removes it. *)
Lemma chain_disable_run w :
  isDefault = false ->
  result_of (IPTablesRuleConfig_Ensure cfg false w) = Returns None /\
  world_of (IPTablesRuleConfig_Ensure cfg false w)
    = set_chains (delete (table, chain) (chains w)) w.
Proof.
  intros Hd. unfold IPTablesRuleConfig_Ensure, IPTablesChainSpec_ensure.
  cbn [chainConfig Spec SpecIPT IsDefaultChain TableName ChainName ipt
       ClearChain DeleteChain].
  rewrite Hd. cbn [negb]. rewrite !run_bind, !run_extern.
  unfold clearChain. cbn [fst snd].
  rewrite run_bind, run_extern. unfold deleteChain. cbn [chains set_chains].
  rewrite lookup_insert_eq. cbn. rewrite delete_insert_eq. split; reflexivity.
Qed.

Lemma chain_disable_twice w :
  isDefault = false ->
  result_of (IPTablesRuleConfig_Ensure cfg false
               (world_of (IPTablesRuleConfig_Ensure cfg false w))) = Returns None /\
  world_of (IPTablesRuleConfig_Ensure cfg false
               (world_of (IPTablesRuleConfig_Ensure cfg false w)))
    = world_of (IPTablesRuleConfig_Ensure cfg false w).
Proof.
  intros Hd.
  destruct (chain_disable_run w Hd) as [_ ->].
  destruct (chain_disable_run (set_chains (delete (table, chain) (chains w)) w) Hd)
    as [-> ->].
  split; [reflexivity|]. cbn [chains set_chains]. rewrite delete_delete_eq. reflexivity.
Qed.

End Chain.

End Idempotence.

(** C7, as amended.  On the reference model of the host, with no route held
    twice, and for every config bound to it except the disabling of an
    [IPTablesRuleConfig] that sits on a default chain: when [Ensure(b)]
    returns nil, calling [Ensure(b)] again returns nil and leaves the state
    as the first call left it. *)
Theorem Ensure_twice_on_reference_model (c : Config RefKernel.State) (enabled : bool)
    (w : RefKernel.State) :
  RefKernel.bound c ->
  NoDup (RefKernel.routes w) ->
  disables_default_chain c enabled = false ->
  result_of (Ensure c enabled w) = Returns None ->
  result_of (Ensure c enabled (world_of (Ensure c enabled w))) = Returns None /\
  world_of (Ensure c enabled (world_of (Ensure c enabled w)))
    = world_of (Ensure c enabled w).
Proof.
  intros Hbound Hroutes Hchain Hres.
  destruct Hbound as [key value defaultValue|r|r|table chain isDefault specs];
    cbn [Ensure] in Hres |- *.
  - apply sysctl_twice. exact Hres.
  - apply route_twice; assumption.
  - apply rule_twice. exact Hres.
  - destruct enabled.
    + apply chain_enable_twice.
    + apply chain_disable_twice.
      cbn in Hchain. apply andb_false_iff in Hchain as [H|H]; [exact H|discriminate H].
Qed.

(** C7 on the reference model: the rule held under two priorities, enabled
    twice. *)
Lemma Ensure_twice_on_reference_model_witness :
  result_of (Ensure (Config_IPRule (RefKernel.ruleConfig Inputs.localRule)) true
               (world_of (Ensure (Config_IPRule (RefKernel.ruleConfig Inputs.localRule))
                            true Inputs.twoCopies))) = Returns None /\
  world_of (Ensure (Config_IPRule (RefKernel.ruleConfig Inputs.localRule)) true
              (world_of (Ensure (Config_IPRule (RefKernel.ruleConfig Inputs.localRule))
                           true Inputs.twoCopies)))
    = world_of (Ensure (Config_IPRule (RefKernel.ruleConfig Inputs.localRule)) true
                  Inputs.twoCopies).
Proof.
  apply (Ensure_twice_on_reference_model
           (Config_IPRule (RefKernel.ruleConfig Inputs.localRule)) true Inputs.twoCopies).
  - constructor.
  - constructor.
  - reflexivity.
  - vm_compute. reflexivity.
Defined.

(** C7 as stated fails: a default chain holds the jump of the config twice.
    The first [Ensure(false)] returns nil and deletes one copy; the second
    returns nil too and deletes the other, so it does not leave the state the
    first call left. *)
Lemma Ensure_false_twice_deletes_two_copies :
  result_of (Ensure Inputs.jumpConfig false Inputs.twoJumps) = Returns None /\
  result_of (Ensure Inputs.jumpConfig false
               (world_of (Ensure Inputs.jumpConfig false Inputs.twoJumps))) = Returns None /\
  world_of (Ensure Inputs.jumpConfig false
              (world_of (Ensure Inputs.jumpConfig false Inputs.twoJumps)))
    <> world_of (Ensure Inputs.jumpConfig false Inputs.twoJumps).
Proof.
  split; [vm_compute; reflexivity|]. split; [vm_compute; reflexivity|].
  intros H.
  apply (f_equal (fun w => RefKernel.chains w !! ("mangle", "PREROUTING"))) in H.
  vm_compute in H. discriminate H.
Qed.

(** * Further properties of config.go *)

(** ** Rule equality and the count *)

(** X1. Equality without priority is an equivalence relation on rules: it is
    reflexive, symmetric and transitive. *)
Theorem isRuleEqualWithoutPriority_equivalence :
  (forall r, isRuleEqualWithoutPriority r r = true) /\
  (forall r1 r2, isRuleEqualWithoutPriority r1 r2 = isRuleEqualWithoutPriority r2 r1) /\
  (forall r1 r2 r3,
     isRuleEqualWithoutPriority r1 r2 = true ->
     isRuleEqualWithoutPriority r2 r3 = true ->
     isRuleEqualWithoutPriority r1 r3 = true).
Proof.
  unfold isRuleEqualWithoutPriority, reflect_DeepEqual. repeat split.
  - intros r. apply bool_decide_eq_true. reflexivity.
  - intros r1 r2. apply bool_decide_ext. split; intros H; symmetry; exact H.
  - intros r1 r2 r3 H12 H23. apply bool_decide_eq_true in H12, H23.
    apply bool_decide_eq_true. congruence.
Qed.

Lemma count_matching_filter (target : Rule) (l : list Rule) :
  count_matching target l =
  Z.of_nat (length (List.filter (fun k => isRuleEqualWithoutPriority k target) l)).
Proof.
  induction l as [|x l IH]; [reflexivity|].
  rewrite count_matching_cons, IH. cbn [List.filter].
  destruct (isRuleEqualWithoutPriority x target); cbn [length]; lia.
Qed.

(** X2. [count] makes one [RuleList] call, for [AF_INET].  When the call
    fails it returns 0 and that error.  Otherwise it returns nil and the
    number of listed rules equal to the config's rule without priority, a
    number between 0 and the length of the listing. *)
Theorem IPRuleConfig_count_bounds {W} (r : IPRuleConfig W) (w : W) :
  let listed := RuleList r AF_INET w in
  let run := IPRuleConfig_count r w in
  trace_of run = [EvRuleList AF_INET (fst (fst listed)) (snd (fst listed))] /\
  world_of run = snd listed /\
  match snd (fst listed) with
  | Some e => result_of run = Returns (0, Some e)
  | None =>
      exists n,
        result_of run = Returns (n, None) /\
        0 <= n <= Z.of_nat (length (fst (fst listed))) /\
        n = Z.of_nat (length (List.filter
                                (fun k => isRuleEqualWithoutPriority k (Rule_ r))
                                (fst (fst listed))))
  end.
Proof.
  cbv zeta. unfold IPRuleConfig_count. rewrite run_bind, run_extern.
  cbn [fst snd]. destruct (snd (fst (RuleList r AF_INET w))) as [e|].
  - cbn. repeat split.
  - cbn. repeat split.
    exists (count_matching (Rule_ r) (fst (fst (RuleList r AF_INET w)))).
    split; [reflexivity|]. rewrite count_matching_filter. split; [|reflexivity].
    pose proof (List.filter_length_le
                  (fun k => isRuleEqualWithoutPriority k (Rule_ r))
                  (fst (fst (RuleList r AF_INET w)))).
    lia.
Qed.

Lemma isRuleEqualWithoutPriority_set_Priority (p q : Z) (k target : Rule) :
  isRuleEqualWithoutPriority (set_Priority q k) (set_Priority p target) =
  isRuleEqualWithoutPriority k target.
Proof. reflexivity. Qed.

(** X3. The count does not depend on the order in which the rules are
    listed, nor on any priority: changing the priority of the rule of the
    config, and of each listed rule in any way, gives the same count. *)
Theorem count_matching_ignores_order_and_priority (target : Rule) (l : list Rule) :
  (forall l', l ≡ₚ l' -> count_matching target l = count_matching target l') /\
  (forall (p : Z) (f : Rule -> Z),
     count_matching (set_Priority p target) (map (fun k => set_Priority (f k) k) l) =
     count_matching target l).
Proof.
  split.
  - intros l' Hperm.
    induction Hperm as [|x l1 l2 _ IH|x y l1|l1 l2 l3 _ IH1 _ IH2].
    + reflexivity.
    + rewrite !count_matching_cons, IH. reflexivity.
    + rewrite !count_matching_cons. lia.
    + congruence.
  - intros p f. induction l as [|x l IH]; [reflexivity|].
    cbn [map]. rewrite !count_matching_cons, IH,
      isRuleEqualWithoutPriority_set_Priority. reflexivity.
Qed.

(** ** The calls of IPRuleConfig.Ensure *)

(** X4. When [RuleList] fails, [Ensure] logs the failure and returns the
    error of [RuleList] unchanged, for either value of [enabled]; it issues
    no [RuleAdd] and no [RuleDel], and the world is the one [RuleList]
    left. *)
Theorem IPRuleConfig_Ensure_list_error {W} (r : IPRuleConfig W) (enabled : bool)
    (w : W) (e : error) :
  snd (fst (RuleList r AF_INET w)) = Some e ->
  IPRuleConfig_Ensure r enabled w =
  (Returns (Some e), snd (RuleList r AF_INET w),
   [EvRuleList AF_INET (fst (fst (RuleList r AF_INET w))) (Some e);
    EvGlogErrorf "failed to get IP rule count for rule: %v, error: %v"]).
Proof.
  intros Hlist.
  unfold IPRuleConfig_Ensure, IPRuleConfig_ensureHelper, IPRuleConfig_count.
  destruct enabled; rewrite !run_bind, run_extern; cbn [fst snd];
    rewrite Hlist; reflexivity.
Qed.

(** X4 on a config whose listing is refused with [EPERM]. *)
Lemma IPRuleConfig_Ensure_list_error_witness :
  IPRuleConfig_Ensure Cases.listRefused true tt =
  (Returns (Some (Errno Inputs.EPERM)), tt,
   [EvRuleList AF_INET [] (Some (Errno Inputs.EPERM));
    EvGlogErrorf "failed to get IP rule count for rule: %v, error: %v"]).
Proof.
  apply (IPRuleConfig_Ensure_list_error Cases.listRefused true tt (Errno Inputs.EPERM)).
  reflexivity.
Defined.

(** The calls of the loop: deletes only, or adds only, as many as the local
    count is away from the target. *)
Lemma ensureLoop_calls_shape {W} (r : IPRuleConfig W) (ensureCount ruleCount : Z)
    (err : option error) (w : W) :
  exists errs,
    calls (trace_of (ensureLoop r ensureCount ruleCount err w)) =
      map (if ruleCount <? ensureCount then EvRuleAdd (Rule_ r) else EvRuleDel (Rule_ r))
          errs /\
    length errs = Z.abs_nat (ruleCount - ensureCount) /\
    exists res, result_of (ensureLoop r ensureCount ruleCount err w) = Returns res.
Proof.
  remember (Z.abs_nat (ruleCount - ensureCount)) as n eqn:Hn.
  revert ruleCount err w Hn.
  induction n as [|n IH]; intros ruleCount err w Hn.
  - assert (ruleCount = ensureCount) as -> by lia.
    rewrite ensureLoop_done. exists []. cbn. eauto.
  - destruct (Z_gt_dec ruleCount ensureCount) as [Hgt|Hle].
    + rewrite (ensureLoop_delete_run r ensureCount ruleCount err w Hgt).
      cbv zeta. cbn [result_of trace_of fst snd].
      rewrite calls_iteration by reflexivity.
      destruct (IH (ruleCount - 1)
                  (kept_error (EvRuleDel (Rule_ r) (fst (RuleDel r (Rule_ r) w))))
                  (snd (RuleDel r (Rule_ r) w)) ltac:(lia))
        as (errs & Hcalls & Hlen & Hres).
      exists (fst (RuleDel r (Rule_ r) w) :: errs).
      rewrite Hcalls. cbn [map length].
      replace (ruleCount <? ensureCount) with false by (symmetry; apply Z.ltb_ge; lia).
      replace (ruleCount - 1 <? ensureCount) with false by (symmetry; apply Z.ltb_ge; lia).
      repeat split; [lia|exact Hres].
    + assert (ruleCount < ensureCount) as Hlt by lia.
      rewrite (ensureLoop_add_run r ensureCount ruleCount err w Hlt).
      cbv zeta. cbn [result_of trace_of fst snd].
      rewrite calls_iteration by reflexivity.
      destruct (IH (ruleCount + 1)
                  (kept_error (EvRuleAdd (Rule_ r) (fst (RuleAdd r (Rule_ r) w))))
                  (snd (RuleAdd r (Rule_ r) w)) ltac:(lia))
        as (errs & Hcalls & Hlen & Hres).
      exists (fst (RuleAdd r (Rule_ r) w) :: errs).
      rewrite Hcalls. cbn [map length].
      replace (ruleCount <? ensureCount) with true by (symmetry; apply Z.ltb_lt; lia).
      repeat split; [|lia|exact Hres].
      f_equal. destruct (Z.eq_dec (ruleCount + 1) ensureCount) as [Heq|Hne].
      * destruct errs; [reflexivity|cbn [length] in Hlen; lia].
      * replace (ruleCount + 1 <? ensureCount) with true
          by (symmetry; apply Z.ltb_lt; lia).
        reflexivity.
Qed.



(** ** How far from the target a run with failures ends *)

Lemma failed_le_calls (tr : list Event) :
  (length (List.filter failed tr) <= length (calls tr))%nat.
Proof.
  induction tr as [|ev tr IH]; [reflexivity|].
  unfold calls in *. cbn [List.filter].
  destruct ev as [? ? ? [?|]|? [?|]|? [?|]|? [?|]|? [?|]|? ? [?|]|? ? [?|]|? ? [?|]
                 |? ? [?|]|? ? ? [?|]|? ? ? [?|]|?];
    cbn [failed is_call length]; lia.
Qed.

Lemma failed_iteration (ev : Event) (tr : list Event) :
  List.filter failed (ev :: log_line ev ++ tr) =
  (if failed ev then [ev] else []) ++ List.filter failed tr.
Proof.
  cbn [List.filter]. rewrite List.filter_app.
  assert (List.filter failed (log_line ev) = []) as ->.
  { destruct ev as [| | |? [e|]|? [e|]| | | | | | |]; try reflexivity.
    cbn [log_line]. destruct (os_IsExist (Some e)); reflexivity. }
  destruct (failed ev); reflexivity.
Qed.

Section Distance.

Context {W : Type} (r : IPRuleConfig W) (table : W -> list Rule).
Hypothesis kernel : RuleKernel r table.
Hypothesis faults : RuleKernelFaults r table.

(** The surplus of the kernel count over the local count grows by one with
    each failed delete and shrinks by one with each failed add. *)
Lemma ensureLoop_distance (ensureCount ruleCount : Z) (err : option error) (w : W) :
  let run := ensureLoop r ensureCount ruleCount err w in
  let failures := Z.of_nat (length (List.filter failed (trace_of run))) in
  let surplus := count_matching (Rule_ r) (table w) - ruleCount in
  (ensureCount <= ruleCount ->
   count_matching (Rule_ r) (table (world_of run)) = ensureCount + surplus + failures) /\
  (ruleCount <= ensureCount ->
   count_matching (Rule_ r) (table (world_of run)) = ensureCount + surplus - failures).
Proof.
  cbv zeta.
  remember (Z.abs_nat (ruleCount - ensureCount)) as n eqn:Hn.
  revert ruleCount err w Hn.
  induction n as [|n IH]; intros ruleCount err w Hn.
  - assert (ruleCount = ensureCount) as -> by lia.
    rewrite ensureLoop_done. cbn. split; intros _; lia.
  - destruct (Z_gt_dec ruleCount ensureCount) as [Hgt|Hle].
    + rewrite (ensureLoop_delete_run r ensureCount ruleCount err w Hgt).
      cbv zeta. cbn [world_of trace_of fst snd].
      rewrite failed_iteration, length_app.
      destruct (IH (ruleCount - 1)
                  (kept_error (EvRuleDel (Rule_ r) (fst (RuleDel r (Rule_ r) w))))
                  (snd (RuleDel r (Rule_ r) w)) ltac:(lia)) as [IHdel _].
      split; [intros _|lia]. rewrite IHdel by lia.
      destruct (fst (RuleDel r (Rule_ r) w)) as [e|] eqn:Hev; cbn [failed length].
      * rewrite (del_failure_keeps r table faults w e (snd (RuleDel r (Rule_ r) w)))
          by (rewrite <- Hev; apply surjective_pairing).
        lia.
      * rewrite (del_removes_one r table kernel w (snd (RuleDel r (Rule_ r) w)))
          by (rewrite <- Hev; apply surjective_pairing).
        lia.
    + assert (ruleCount < ensureCount) as Hlt by lia.
      rewrite (ensureLoop_add_run r ensureCount ruleCount err w Hlt).
      cbv zeta. cbn [world_of trace_of fst snd].
      rewrite failed_iteration, length_app.
      destruct (IH (ruleCount + 1)
                  (kept_error (EvRuleAdd (Rule_ r) (fst (RuleAdd r (Rule_ r) w))))
                  (snd (RuleAdd r (Rule_ r) w)) ltac:(lia)) as [_ IHadd].
      split; [lia|intros _]. rewrite IHadd by lia.
      destruct (fst (RuleAdd r (Rule_ r) w)) as [e|] eqn:Hev; cbn [failed length].
      * rewrite (add_failure_keeps r table faults w e (snd (RuleAdd r (Rule_ r) w)))
          by (rewrite <- Hev; apply surjective_pairing).
        lia.
      * rewrite (add_adds_one r table kernel w (snd (RuleAdd r (Rule_ r) w)))
          by (rewrite <- Hev; apply surjective_pairing).
        lia.
Qed.

End Distance.


Lemma RefKernel_RuleKernelFaults (rule : Rule) :
  RuleKernelFaults (RefKernel.ruleConfig rule) RefKernel.rules.
Proof.
  split; cbn [RuleAdd RuleDel Rule_ RefKernel.ruleConfig]; intros w e w'.
  - unfold RefKernel.addRule. destruct (bool_decide _); intros [= _ <-]. reflexivity.
  - unfold RefKernel.delRule. destruct (RefKernel.remove_first _ _); intros [= _ <-].
    reflexivity.
Qed.


(** ** IPRouteConfig.Ensure: which errors reach the caller *)


(** ** IPTablesRuleConfig.Ensure: the calls of each branch *)

Lemma not_iptables_status_has_exit_status (n : Z) (e : error) :
  not_iptables_status n e = negb (has_exit_status n (Some e)).
Proof. destruct e; reflexivity. Qed.

Lemma IPTablesChainSpec_ensure_true_run {W} (c : IPTablesChainSpec W) (w : W) :
  let newErr := fst (NewChain (SpecIPT c) (TableName c) (ChainName c) w) in
  IPTablesChainSpec_ensure c true w =
  (Returns (if has_exit_status 1 newErr then None else newErr),
   snd (NewChain (SpecIPT c) (TableName c) (ChainName c) w),
   [EvNewChain (TableName c) (ChainName c) newErr]).
Proof.
  cbv zeta. unfold IPTablesChainSpec_ensure. rewrite run_bind, run_extern.
  destruct (fst (NewChain _ _ _ w)) as [e|]; [|reflexivity].
  rewrite not_iptables_status_has_exit_status.
  destruct (has_exit_status 1 (Some e)); reflexivity.
Qed.

Lemma IPTablesChainSpec_ensure_false_returns {W} (c : IPTablesChainSpec W) (w : W) :
  exists res, result_of (IPTablesChainSpec_ensure c false w) = Returns res.
Proof.
  unfold IPTablesChainSpec_ensure.
  destruct (IsDefaultChain c); cbn [negb]; [eexists; reflexivity|].
  rewrite run_bind, run_extern.
  destruct (fst (ClearChain _ _ _ w)) as [e|]; [eexists; reflexivity|].
  rewrite run_bind, run_extern.
  destruct (fst (DeleteChain _ _ _ _)) as [e|]; [|eexists; reflexivity].
  destruct (not_iptables_status 1 e); eexists; reflexivity.
Qed.

(** The append loop: a run of successful appends, then either the end of the
    rule specs or one failed append that is returned. *)
Lemma appendRuleSpecs_shape {W} (r : IPTablesRuleConfig W) (specs : list IPTablesRuleSpec)
    (w : W) :
  let t := TableName (Spec r) in
  let c := ChainName (Spec r) in
  exists appended rest,
    calls (trace_of (appendRuleSpecs r specs w)) =
      map (fun rs => EvAppendUnique t c rs None) appended ++ rest /\
    ((rest = [] /\ appended = specs /\
      result_of (appendRuleSpecs r specs w) = Returns None) \/
     (exists rs e later,
        specs = appended ++ rs :: later /\
        rest = [EvAppendUnique t c rs (Some e)] /\
        result_of (appendRuleSpecs r specs w) = Returns (Some e))).
Proof.
  cbv zeta. revert w. induction specs as [|rs specs IH]; intros w.
  - exists [], []. split; [reflexivity|]. left. repeat split.
  - cbn [appendRuleSpecs]. rewrite run_bind, run_extern.
    destruct (fst (AppendUnique _ _ _ _ w)) as [e|] eqn:Herr.
    + exists [], [EvAppendUnique (TableName (Spec r)) (ChainName (Spec r)) rs (Some e)].
      split; [reflexivity|]. right. exists rs, e, specs. repeat split.
    + cbn [result_of trace_of fst snd].
      destruct (IH (snd (AppendUnique (IPT r) (TableName (Spec r)) (ChainName (Spec r)) rs w)))
        as (appended & rest & Hcalls & Hend).
      exists (rs :: appended), rest. split.
      * rewrite calls_app, Hcalls. reflexivity.
      * destruct Hend as [(-> & -> & Hres)|(rs' & e & later & -> & -> & Hres)].
        -- left. repeat split. exact Hres.
        -- right. exists rs', e, later. repeat split. exact Hres.
Qed.


(** The delete loop on a default chain: a run of deletions whose errors are
    let pass, then either the end of the rule specs or one deletion whose
    error is not let pass: an iptables error is returned, any other error
    panics. *)
Lemma deleteRuleSpecs_shape {W} (r : IPTablesRuleConfig W) (specs : list IPTablesRuleSpec)
    (w : W) :
  let t := TableName (Spec r) in
  let c := ChainName (Spec r) in
  exists deleted errs rest,
    trace_of (deleteRuleSpecs r specs w) = zip_with (EvDelete t c) deleted errs ++ rest /\
    length errs = length deleted /\
    Forall (fun e => delete_error_ignored e = true) errs /\
    ((rest = [] /\ deleted = specs /\
      result_of (deleteRuleSpecs r specs w) = Returns None) \/
     (exists rs e later,
        specs = deleted ++ rs :: later /\
        rest = [EvDelete t c rs e] /\
        delete_error_ignored e = false /\
        result_of (deleteRuleSpecs r specs w) =
          if is_iptables_Error e then Returns e else Panics)).
Proof.
  cbv zeta. revert w. induction specs as [|rs specs IH]; intros w.
  - exists [], [], []. repeat split; [constructor|]. left. repeat split.
  - pose proof (deleteRuleSpecs_step r rs specs w) as Hstep. cbv zeta in Hstep.
    rewrite Hstep. clear Hstep.
    set (err := fst (Delete (IPT r) (TableName (Spec r)) (ChainName (Spec r)) rs w)).
    set (w1 := snd (Delete (IPT r) (TableName (Spec r)) (ChainName (Spec r)) rs w)).
    destruct (delete_error_ignored err) eqn:Hign.
    + destruct (IH w1) as (deleted & errs & rest & Htr & Hlen & Hall & Hend).
      exists (rs :: deleted), (err :: errs), rest.
      cbn [trace_of result_of fst snd zip_with length app].
      rewrite Htr. repeat split; [lia|constructor; assumption|].
      destruct Hend as [(-> & -> & Hres)|(rs' & e & later & -> & -> & Hne & Hres)].
      * left. repeat split. exact Hres.
      * right. exists rs', e, later. repeat split; assumption.
    + exists [], [], [EvDelete (TableName (Spec r)) (ChainName (Spec r)) rs err].
      split; [destruct (is_iptables_Error err); reflexivity|].
      split; [reflexivity|]. split; [constructor|].
      right. exists rs, err, specs.
      split; [reflexivity|]. split; [reflexivity|]. split; [assumption|].
      destruct (is_iptables_Error err); reflexivity.
Qed.

(** X9. On a default chain [Ensure(false)] issues [Delete] calls only, for
    the rule specs in their order, on the table and chain of the config.  It
    goes on past a deletion whose error is nil, an iptables error with exit
    status 2, or an iptables error whose text contains
    "No chain/target/match", and returns nil when every deletion is of that
    kind.  At the first other error it stops: an iptables error is returned,
    an error of another type panics. *)
Theorem IPTablesRuleConfig_Ensure_false_default_chain_calls {W}
    (r : IPTablesRuleConfig W) (w : W) :
  IsDefaultChain (Spec r) = true ->
  let t := TableName (Spec r) in
  let c := ChainName (Spec r) in
  let run := IPTablesRuleConfig_Ensure r false w in
  exists deleted errs rest,
    trace_of run = zip_with (EvDelete t c) deleted errs ++ rest /\
    length errs = length deleted /\
    Forall (fun e => delete_error_ignored e = true) errs /\
    ((rest = [] /\ deleted = RuleSpecs r /\ result_of run = Returns None) \/
     (exists rs e later,
        RuleSpecs r = deleted ++ rs :: later /\
        rest = [EvDelete t c rs e] /\
        delete_error_ignored e = false /\
        result_of run = if is_iptables_Error e then Returns e else Panics)).
Proof.
  intros Hdefault. cbv zeta.
  unfold IPTablesRuleConfig_Ensure, IPTablesChainSpec_ensure.
  rewrite Hdefault. cbn [negb]. rewrite run_bind. cbn [ret app].
  destruct (deleteRuleSpecs_shape r (RuleSpecs r) w)
    as (deleted & errs & rest & Htr & Hlen & Hall & Hend).
  exists deleted, errs, rest.
  destruct (deleteRuleSpecs r (RuleSpecs r) w) as [[res w'] tr].
  cbn [result_of world_of trace_of fst snd] in *. repeat split; assumption.
Qed.

(** X9 on the reference model: the chain holds the first rule spec of the
    config and not the second, so the second deletion is refused with
    "Bad rule" and that error is returned. *)
Lemma IPTablesRuleConfig_Ensure_false_default_chain_calls_witness :
  exists deleted errs rest,
    trace_of (IPTablesRuleConfig_Ensure Cases2.jumpAndMark false Cases2.oneJump) =
      zip_with (EvDelete "mangle" "PREROUTING") deleted errs ++ rest /\
    length errs = length deleted /\
    Forall (fun e => delete_error_ignored e = true) errs /\
    ((rest = [] /\ deleted = RuleSpecs Cases2.jumpAndMark /\
      result_of (IPTablesRuleConfig_Ensure Cases2.jumpAndMark false Cases2.oneJump)
        = Returns None) \/
     (exists rs e later,
        RuleSpecs Cases2.jumpAndMark = deleted ++ rs :: later /\
        rest = [EvDelete "mangle" "PREROUTING" rs e] /\
        delete_error_ignored e = false /\
        result_of (IPTablesRuleConfig_Ensure Cases2.jumpAndMark false Cases2.oneJump)
          = if is_iptables_Error e then Returns e else Panics)).
Proof.
  exact (IPTablesRuleConfig_Ensure_false_default_chain_calls
           Cases2.jumpAndMark Cases2.oneJump eq_refl).
Defined.

(** ** Where Ensure can panic *)

Lemma IPRuleConfig_Ensure_returns {W} (r : IPRuleConfig W) (enabled : bool) (w : W) :
  exists res, result_of (IPRuleConfig_Ensure r enabled w) = Returns res.
Proof.
  assert (forall ensureCount,
            exists res, result_of (IPRuleConfig_ensureHelper r ensureCount w) = Returns res)
    as Hhelper.
  { intros ensureCount. unfold IPRuleConfig_ensureHelper, IPRuleConfig_count.
    rewrite !run_bind, run_extern.
    destruct (snd (fst (RuleList r AF_INET w))) as [e|]; cbn [fst snd ret];
      [eexists; reflexivity|].
    cbn [result_of fst].
    destruct (ensureLoop_calls_shape r ensureCount
                (count_matching (Rule_ r) (fst (fst (RuleList r AF_INET w)))) None
                (snd (RuleList r AF_INET w))) as (_ & _ & _ & Hres).
    exact Hres. }
  unfold IPRuleConfig_Ensure. destruct enabled; apply Hhelper.
Qed.

Lemma IPTablesRuleConfig_Ensure_true_returns {W} (r : IPTablesRuleConfig W) (w : W) :
  exists res, result_of (IPTablesRuleConfig_Ensure r true w) = Returns res.
Proof.
  unfold IPTablesRuleConfig_Ensure.
  rewrite run_bind, IPTablesChainSpec_ensure_true_run. cbv zeta.
  destruct (if has_exit_status 1 _ then None else _) as [e|];
    [eexists; reflexivity|].
  cbn [result_of fst].
  destruct (appendRuleSpecs_shape r (RuleSpecs r)
              (snd (NewChain (SpecIPT (Spec r)) (TableName (Spec r))
                      (ChainName (Spec r)) w)))
    as (_ & _ & _ & [(_ & _ & Hres)|(_ & e & _ & _ & _ & Hres)]); eauto.
Qed.

(** Where every call returns, [Ensure] can panic at the two type assertions
    only: on the error of [RouteDel], and on the error of a [Delete] issued
    for a default chain. *)
Lemma Ensure_panics_where_calls_return {W} (c : Config W) (enabled : bool)
    (w : W) :
  result_of (Ensure c enabled w) = Panics ->
  enabled = false /\
  ((exists r e,
      c = Config_IPRoute r /\
      fst (RouteDel r (Route_ r) w) = Some e /\
      forall n, e <> Errno n) \/
   (exists r rs e,
      c = Config_IPTablesRule r /\
      IsDefaultChain (Spec r) = true /\
      In rs (RuleSpecs r) /\
      last (trace_of (Ensure c false w)) =
        Some (EvDelete (TableName (Spec r)) (ChainName (Spec r)) rs (Some e)) /\
      forall st text, e <> IptablesError st text)).
Proof.
  destruct c as [s|r|r|r]; cbn [Ensure].
  - rewrite SysctlConfig_Ensure_run. intros [=].
  - destruct enabled.
    + rewrite IPRouteConfig_Ensure_true. intros [=].
    + intros Hpanic. split; [reflexivity|]. left.
      unfold IPRouteConfig_Ensure in Hpanic. rewrite run_bind, run_extern in Hpanic.
      destruct (fst (RouteDel r (Route_ r) w)) as [e|] eqn:Hdel; [|discriminate Hpanic].
      exists r, e. split; [reflexivity|]. split; [exact Hdel|].
      intros n ->. cbn in Hpanic. destruct (n =? ESRCH); discriminate Hpanic.
  - intros Hpanic. destruct (IPRuleConfig_Ensure_returns r enabled w) as [res Hres].
    congruence.
  - destruct enabled.
    + intros Hpanic. destruct (IPTablesRuleConfig_Ensure_true_returns r w) as [res Hres].
      congruence.
    + intros Hpanic. split; [reflexivity|]. right.
      unfold IPTablesRuleConfig_Ensure in Hpanic |- *.
      destruct (IsDefaultChain (Spec r)) eqn:Hdefault.
      * unfold IPTablesChainSpec_ensure in Hpanic |- *. rewrite Hdefault in Hpanic |- *.
        cbn [negb] in Hpanic |- *. rewrite run_bind in Hpanic |- *.
        cbn [ret app result_of trace_of fst snd] in Hpanic |- *.
        destruct (deleteRuleSpecs_shape r (RuleSpecs r) w)
          as (deleted & errs & rest & Htr & _ & _ & Hend).
        destruct Hend as [(_ & _ & Hres)|(rs & e & later & Hspecs & -> & Hign & Hres)];
          [unfold result_of in *; congruence|].
        destruct e as [e|]; [|discriminate Hign].
        exists r, rs, e. split; [reflexivity|]. split; [exact Hdefault|].
        split; [rewrite Hspecs; apply in_or_app; right; left; reflexivity|].
        split.
        -- unfold trace_of in Htr |- *. rewrite Htr. apply last_snoc.
        -- intros st text ->. cbn [is_iptables_Error] in Hres.
           unfold result_of in *. congruence.
      * exfalso.
        destruct (IPTablesChainSpec_ensure_false_returns (Spec r) w) as [res Hres].
        destruct (bind_returns (IPTablesChainSpec_ensure (Spec r) false)
                    (fun err => match err with
                                | Some _ => ret err
                                | None => ret None
                                end) w res Hres) as [Hbind _].
        rewrite Hbind in Hpanic. destruct res; discriminate Hpanic.
Qed.

(** ** Where Ensure can panic, with function values that may be nil *)

Section Total.

Context {W : Type}.

Lemma call_total {A} (d : A) (f : option (Partial.func W A)) (ev : A -> Event) (w : W) :
  (exists g, f = Some g /\ Partial.returns g) ->
  Partial.call f ev w = extern (total d f) ev w.
Proof.
  intros (g & -> & Hg). unfold Partial.call, extern, total.
  specialize (Hg w). destruct (g w) as [[a|] w']; [reflexivity|].
  destruct (Hg eq_refl).
Qed.

Lemma bind_ext_at {A B} (m m' : M W A) (k k' : A -> M W B) (w : W) :
  m w = m' w -> (forall a w1, k a w1 = k' a w1) -> bind m k w = bind m' k' w.
Proof.
  intros Hm Hk. unfold bind. rewrite Hm.
  destruct (m' w) as [[[a|] w1] t1]; [|reflexivity].
  rewrite Hk. reflexivity.
Qed.

Lemma SysctlConfig_Ensure_total (s : Partial.SysctlConfig W) (enabled : bool) (w : W) :
  Partial.callable (Partial.Config_Sysctl s) ->
  Partial.SysctlConfig_Ensure s enabled w = SysctlConfig_Ensure (total_SysctlConfig s) enabled w.
Proof.
  intros (f & Hf & Hret). unfold Partial.SysctlConfig_Ensure, SysctlConfig_Ensure.
  cbv zeta. apply bind_ext_at; [|reflexivity].
  apply call_total. rewrite Hf. eexists. split; [reflexivity|]. apply Hret.
Qed.

Lemma IPRouteConfig_Ensure_total (r : Partial.IPRouteConfig W) (enabled : bool) (w : W) :
  Partial.callable (Partial.Config_IPRoute r) ->
  Partial.IPRouteConfig_Ensure r enabled w =
  IPRouteConfig_Ensure (total_IPRouteConfig r) enabled w.
Proof.
  intros [(fa & Ha & Hra) (fd & Hd & Hrd)].
  unfold Partial.IPRouteConfig_Ensure, IPRouteConfig_Ensure.
  destruct enabled; (apply bind_ext_at; [|reflexivity]); apply call_total.
  - rewrite Ha. eexists. split; [reflexivity|]. apply Hra.
  - rewrite Hd. eexists. split; [reflexivity|]. apply Hrd.
Qed.

Lemma Partial_ensureLoop_done (r : Partial.IPRuleConfig W) ensureCount err :
  Partial.ensureLoop r ensureCount ensureCount err = ret err.
Proof.
  simp ensureLoop. destruct (Z.eq_dec ensureCount ensureCount) as [Heq|Hne]; [reflexivity|].
  destruct (Hne eq_refl).
Qed.

Lemma Partial_ensureLoop_delete (r : Partial.IPRuleConfig W) ensureCount ruleCount err :
  ruleCount > ensureCount ->
  Partial.ensureLoop r ensureCount ruleCount err =
  bind (Partial.call ((fun f => f (Partial.Rule_ r)) <$> Partial.RuleDel r)
          (EvRuleDel (Partial.Rule_ r))) (fun err1 =>
  bind (match err1 with
        | Some _ => glog_Errorf "failed to delete duplicated ip rule: %v, error: %v"
        | None => ret tt
        end) (fun _ =>
  Partial.ensureLoop r ensureCount (ruleCount - 1) err1)).
Proof.
  intros Hgt. simp ensureLoop.
  destruct (Z.eq_dec ruleCount ensureCount) as [Heq|Hne]; [lia|]. cbn.
  destruct (Z_gt_dec ruleCount ensureCount) as [Hgt'|Hle]; [reflexivity|lia].
Qed.

Lemma Partial_ensureLoop_add (r : Partial.IPRuleConfig W) ensureCount ruleCount err :
  ruleCount < ensureCount ->
  Partial.ensureLoop r ensureCount ruleCount err =
  bind (Partial.call ((fun f => f (Partial.Rule_ r)) <$> Partial.RuleAdd r)
          (EvRuleAdd (Partial.Rule_ r))) (fun err1 =>
  bind (match err1 with
        | Some _ =>
            if os_IsExist err1 then ret None
            else bind (glog_Errorf "failed to add ip rule: %v, error: %v")
                      (fun _ => ret err1)
        | None => ret err1
        end) (fun err2 =>
  Partial.ensureLoop r ensureCount (ruleCount + 1) err2)).
Proof.
  intros Hlt. simp ensureLoop.
  destruct (Z.eq_dec ruleCount ensureCount) as [Heq|Hne]; [lia|]. cbn.
  destruct (Z_gt_dec ruleCount ensureCount) as [Hgt|Hle]; [lia|reflexivity].
Qed.

Lemma ensureLoop_total (r : Partial.IPRuleConfig W) (ensureCount : Z) :
  Partial.callable (Partial.Config_IPRule r) ->
  forall (n : nat) (ruleCount : Z) (err : option error) (w : W),
    Z.abs_nat (ruleCount - ensureCount) = n ->
    Partial.ensureLoop r ensureCount ruleCount err w =
    ensureLoop (total_IPRuleConfig r) ensureCount ruleCount err w.
Proof.
  intros ((fa & Ha & Hra) & (fd & Hd & Hrd) & _).
  induction n as [|n IH]; intros ruleCount err w Hn.
  - assert (ruleCount = ensureCount) as -> by lia.
    rewrite Partial_ensureLoop_done, ensureLoop_done. reflexivity.
  - destruct (Z_gt_dec ruleCount ensureCount) as [Hgt|Hle].
    + rewrite Partial_ensureLoop_delete, ensureLoop_delete by assumption.
      apply bind_ext_at.
      * apply call_total. rewrite Hd. eexists. split; [reflexivity|]. apply Hrd.
      * intros err1 w1. apply bind_ext_at; [reflexivity|].
        intros _ w2. apply IH. lia.
    + rewrite Partial_ensureLoop_add, ensureLoop_add by lia.
      apply bind_ext_at.
      * apply call_total. rewrite Ha. eexists. split; [reflexivity|]. apply Hra.
      * intros err1 w1. apply bind_ext_at; [reflexivity|].
        intros err2 w2. apply IH. lia.
Qed.

Lemma IPRuleConfig_Ensure_total (r : Partial.IPRuleConfig W) (enabled : bool) (w : W) :
  Partial.callable (Partial.Config_IPRule r) ->
  Partial.IPRuleConfig_Ensure r enabled w =
  IPRuleConfig_Ensure (total_IPRuleConfig r) enabled w.
Proof.
  intros Hc. pose proof Hc as (_ & _ & (fl & Hl & Hrl)).
  assert (forall ensureCount,
            Partial.IPRuleConfig_ensureHelper r ensureCount w =
            IPRuleConfig_ensureHelper (total_IPRuleConfig r) ensureCount w) as Hhelper.
  { intros ensureCount.
    unfold Partial.IPRuleConfig_ensureHelper, IPRuleConfig_ensureHelper.
    apply bind_ext_at.
    - unfold Partial.IPRuleConfig_count, IPRuleConfig_count.
      apply bind_ext_at; [|reflexivity].
      apply call_total. rewrite Hl. eexists. split; [reflexivity|]. apply Hrl.
    - intros res w1. destruct (snd res); [reflexivity|].
      apply (ensureLoop_total r ensureCount Hc _ _ _ _ eq_refl). }
  unfold Partial.IPRuleConfig_Ensure, IPRuleConfig_Ensure.
  destruct enabled; apply Hhelper.
Qed.

Lemma usable_call (h : option (Partial.iptabler W)) (m : Partial.iptabler W -> Partial.func W (option error))
    (ev : option error -> Event) (w : W) :
  Partial.usable h ->
  (forall i, h = Some i -> Partial.returns (m i)) ->
  Partial.call (m <$> h) ev w = extern (total None (m <$> h)) ev w.
Proof.
  intros (i & -> & _) Hm. apply call_total. eexists. split; [reflexivity|].
  apply Hm. reflexivity.
Qed.

Lemma IPTablesChainSpec_ensure_total (r : Partial.IPTablesRuleConfig W) (enabled : bool)
    (w : W) :
  Partial.usable (Partial.SpecIPT (Partial.Spec r)) ->
  Partial.IPTablesChainSpec_ensure (Partial.Spec r) enabled w =
  IPTablesChainSpec_ensure (Spec (total_IPTablesRuleConfig r)) enabled w.
Proof.
  intros Hu. pose proof Hu as (i & Hi & Hnew & Hclear & Hdel & _).
  unfold Partial.IPTablesChainSpec_ensure, IPTablesChainSpec_ensure.
  cbn [Spec total_IPTablesRuleConfig TableName ChainName IsDefaultChain SpecIPT
       total_iptabler NewChain ClearChain DeleteChain].
  destruct enabled.
  - apply bind_ext_at; [|reflexivity].
    apply usable_call; [exact Hu|]. intros j Hj. rewrite Hi in Hj. injection Hj as <-.
    apply Hnew.
  - destruct (negb _); [|reflexivity].
    apply bind_ext_at.
    + apply usable_call; [exact Hu|]. intros j Hj. rewrite Hi in Hj. injection Hj as <-.
      apply Hclear.
    + intros err w1. destruct err; [reflexivity|].
      apply bind_ext_at; [|reflexivity].
      apply usable_call; [exact Hu|]. intros j Hj. rewrite Hi in Hj. injection Hj as <-.
      apply Hdel.
Qed.

Lemma appendRuleSpecs_total (r : Partial.IPTablesRuleConfig W)
    (specs : list IPTablesRuleSpec) (w : W) :
  Partial.usable (Partial.IPT r) ->
  Partial.appendRuleSpecs r specs w = appendRuleSpecs (total_IPTablesRuleConfig r) specs w.
Proof.
  intros Hu. pose proof Hu as (i & Hi & _ & _ & _ & Happ & _).
  revert w. induction specs as [|rs rest IH]; intros w; [reflexivity|].
  cbn [Partial.appendRuleSpecs appendRuleSpecs].
  apply bind_ext_at.
  - cbn [Spec total_IPTablesRuleConfig TableName ChainName IPT total_iptabler AppendUnique].
    apply usable_call; [exact Hu|]. intros j Hj. rewrite Hi in Hj. injection Hj as <-.
    apply Happ.
  - intros err w1. destruct err; [reflexivity|]. apply IH.
Qed.

Lemma deleteRuleSpecs_total (r : Partial.IPTablesRuleConfig W)
    (specs : list IPTablesRuleSpec) (w : W) :
  Partial.usable (Partial.IPT r) ->
  Partial.deleteRuleSpecs r specs w = deleteRuleSpecs (total_IPTablesRuleConfig r) specs w.
Proof.
  intros Hu. pose proof Hu as (i & Hi & _ & _ & _ & _ & Hdel).
  revert w. induction specs as [|rs rest IH]; intros w; [reflexivity|].
  cbn [Partial.deleteRuleSpecs deleteRuleSpecs].
  apply bind_ext_at.
  - cbn [Spec total_IPTablesRuleConfig TableName ChainName IPT total_iptabler Delete].
    apply usable_call; [exact Hu|]. intros j Hj. rewrite Hi in Hj. injection Hj as <-.
    apply Hdel.
  - intros err w1. destruct err as [[]|]; try reflexivity; [|apply IH].
    destruct (negb _); [|apply IH]. destruct (negb _); [reflexivity|apply IH].
Qed.

Lemma IPTablesRuleConfig_Ensure_total (r : Partial.IPTablesRuleConfig W) (enabled : bool)
    (w : W) :
  Partial.callable (Partial.Config_IPTablesRule r) ->
  Partial.IPTablesRuleConfig_Ensure r enabled w =
  IPTablesRuleConfig_Ensure (total_IPTablesRuleConfig r) enabled w.
Proof.
  intros [Hspec Hipt].
  unfold Partial.IPTablesRuleConfig_Ensure, IPTablesRuleConfig_Ensure.
  apply bind_ext_at.
  - apply IPTablesChainSpec_ensure_total. exact Hspec.
  - intros err w1. destruct err; [reflexivity|].
    destruct enabled; [apply appendRuleSpecs_total; exact Hipt|].
    change (IsDefaultChain (Spec (total_IPTablesRuleConfig r)))
      with (Partial.IsDefaultChain (Partial.Spec r)).
    destruct (Partial.IsDefaultChain (Partial.Spec r)); [|reflexivity].
    apply deleteRuleSpecs_total. exact Hipt.
Qed.

(** With every function value set and no call panicking, the two embeddings
    of [Ensure] run alike. *)
Lemma Ensure_total (c : Partial.Config W) (enabled : bool) (w : W) :
  Partial.callable c ->
  Partial.Ensure c enabled w = Ensure (total_Config c) enabled w.
Proof.
  destruct c as [s|r|r|r]; cbn [Partial.Ensure Ensure total_Config].
  - apply SysctlConfig_Ensure_total.
  - apply IPRouteConfig_Ensure_total.
  - apply IPRuleConfig_Ensure_total.
  - apply IPTablesRuleConfig_Ensure_total.
Qed.

End Total.

(** X10. Let every function field and every iptables handle of a config be
    set, and let no call through them panic.  Then [Ensure] can panic at two
    places only, both when disabling: in [IPRouteConfig.Ensure] when
    [RouteDel] returns an error that is not a [syscall.Errno], and in
    [IPTablesRuleConfig.Ensure] on a default chain when the last [Delete]
    issued, for one of the rule specs of the config, returned an error that
    is not an iptables error.  [SysctlConfig], [IPRuleConfig] and every
    [Ensure(true)] then always return. *)
Theorem Ensure_panics_only_at_type_assertions {W} (c : Partial.Config W) (enabled : bool)
    (w : W) :
  Partial.callable c ->
  result_of (Partial.Ensure c enabled w) = Panics ->
  enabled = false /\
  ((exists r del e,
      c = Partial.Config_IPRoute r /\
      Partial.RouteDel r = Some del /\
      fst (del (Partial.Route_ r) w) = Returns (Some e) /\
      forall n, e <> Errno n) \/
   (exists r rs e,
      c = Partial.Config_IPTablesRule r /\
      Partial.IsDefaultChain (Partial.Spec r) = true /\
      In rs (Partial.RuleSpecs r) /\
      last (trace_of (Partial.Ensure c false w)) =
        Some (EvDelete (Partial.TableName (Partial.Spec r))
                (Partial.ChainName (Partial.Spec r)) rs (Some e)) /\
      forall st text, e <> IptablesError st text)).
Proof.
  intros Hc Hp. rewrite Ensure_total in Hp by exact Hc.
  destruct (Ensure_panics_where_calls_return _ _ _ Hp)
    as [-> [(r0 & e & Hr & Hdel & Hne)|(r0 & rs & e & Hr & Hdef & Hin & Hlast & Hne)]].
  all: split; [reflexivity|].
  - left. destruct c as [s|r|r|r]; try discriminate Hr.
    cbn [total_Config] in Hr. injection Hr as <-.
    destruct Hc as [_ (del & Hd & Hret)]. exists r, del, e.
    split; [reflexivity|]. split; [exact Hd|]. split; [|exact Hne].
    cbn [total_IPRouteConfig RouteDel Route_] in Hdel. rewrite Hd in Hdel.
    cbn in Hdel. specialize (Hret (Partial.Route_ r) w).
    destruct (del (Partial.Route_ r) w) as [[a|] w']; [|destruct (Hret eq_refl)].
    cbn [fst] in Hdel |- *. rewrite Hdel. reflexivity.
  - right. destruct c as [s|r|r|r]; try discriminate Hr.
    cbn [total_Config] in Hr. injection Hr as <-.
    exists r, rs, e. split; [reflexivity|]. split; [exact Hdef|]. split; [exact Hin|].
    split; [|exact Hne]. rewrite Ensure_total by exact Hc. exact Hlast.
Qed.


(** X10 on the route config whose functions are set and whose delete is
    rejected with an error that is not an errno. *)
Lemma Ensure_panics_only_at_type_assertions_witness :
  exists r del e,
    Partial.Config_IPRoute Cases5.routeDelRejects = Partial.Config_IPRoute r /\
    Partial.RouteDel r = Some del /\
    fst (del (Partial.Route_ r) tt) = Returns (Some e) /\
    forall n, e <> Errno n.
Proof.
  destruct (Ensure_panics_only_at_type_assertions
              (Partial.Config_IPRoute Cases5.routeDelRejects) false tt)
    as [_ [Hroute|(r & rs & e & Habs & _)]].
  - split; eexists; (split; [reflexivity|]); intros route w; discriminate.
  - reflexivity.
  - exact Hroute.
  - discriminate Habs.
Defined.

(** X17. A call through a nil function field or a nil iptables handle
    panics, before anything is changed or recorded, when it is the first call
    that [Ensure] makes: [SysctlFunc] for a [SysctlConfig]; [RouteAdd] when
    enabling and [RouteDel] when disabling an [IPRouteConfig]; [RuleList]
    for an [IPRuleConfig]; the handle of the chain spec when enabling an
    [IPTablesRuleConfig] or disabling one on a chain that is not a default
    chain; the handle of the config when disabling one with a rule spec on a
    default chain. *)
Theorem Ensure_nil_function_panics {W} (enabled : bool) (w : W) :
  (forall s : Partial.SysctlConfig W,
     Partial.SysctlFunc s = None ->
     Partial.Ensure (Partial.Config_Sysctl s) enabled w = (Panics, w, [])) /\
  (forall r : Partial.IPRouteConfig W,
     (if enabled then Partial.RouteAdd r = None else Partial.RouteDel r = None) ->
     Partial.Ensure (Partial.Config_IPRoute r) enabled w = (Panics, w, [])) /\
  (forall r : Partial.IPRuleConfig W,
     Partial.RuleList r = None ->
     Partial.Ensure (Partial.Config_IPRule r) enabled w = (Panics, w, [])) /\
  (forall r : Partial.IPTablesRuleConfig W,
     Partial.SpecIPT (Partial.Spec r) = None ->
     enabled = true \/ Partial.IsDefaultChain (Partial.Spec r) = false ->
     Partial.Ensure (Partial.Config_IPTablesRule r) enabled w = (Panics, w, [])) /\
  (forall r : Partial.IPTablesRuleConfig W,
     Partial.IPT r = None ->
     enabled = false -> Partial.IsDefaultChain (Partial.Spec r) = true ->
     Partial.RuleSpecs r <> [] ->
     Partial.Ensure (Partial.Config_IPTablesRule r) enabled w = (Panics, w, [])).
Proof.
  split; [|split; [|split; [|split]]].
  - intros s Hs. cbn [Partial.Ensure]. unfold Partial.SysctlConfig_Ensure.
    rewrite Hs. reflexivity.
  - intros r Hr. cbn [Partial.Ensure]. unfold Partial.IPRouteConfig_Ensure.
    destruct enabled; rewrite Hr; reflexivity.
  - intros r Hr. cbn [Partial.Ensure].
    unfold Partial.IPRuleConfig_Ensure, Partial.IPRuleConfig_ensureHelper,
      Partial.IPRuleConfig_count.
    destruct enabled; rewrite Hr; reflexivity.
  - intros r Hr Hcase. cbn [Partial.Ensure].
    unfold Partial.IPTablesRuleConfig_Ensure, Partial.IPTablesChainSpec_ensure.
    destruct enabled.
    + rewrite Hr. reflexivity.
    + destruct Hcase as [Habs| ->]; [discriminate Habs|]. rewrite Hr. reflexivity.
  - intros r Hr -> Hdef Hspecs. cbn [Partial.Ensure].
    unfold Partial.IPTablesRuleConfig_Ensure, Partial.IPTablesChainSpec_ensure.
    rewrite Hdef. cbn [negb].
    destruct (Partial.RuleSpecs r) as [|rs rest]; [congruence|].
    cbn [Partial.deleteRuleSpecs]. rewrite Hr. reflexivity.
Qed.

(** ** What a nil result means on the reference model *)

Section Postconditions.

Import RefKernel.

Lemma setParam_sets (key v : string) w :
  snd (fst (setParam key [v] w)) = None ->
  sysctls (snd (setParam key [v] w)) !! key = Some v.
Proof.
  unfold setParam. destruct (sysctls w !! key); [|intros [=]].
  intros _. cbn [snd sysctls set_sysctls]. apply lookup_insert_eq.
Qed.

Lemma addRoute_present (r : Route) w : r ∈ routes (snd (addRoute r w)).
Proof.
  unfold addRoute. case_bool_decide as Hin; cbn [snd routes set_routes]; [exact Hin|].
  apply elem_of_app. right. apply list_elem_of_singleton. reflexivity.
Qed.

Lemma delRoute_absent (r : Route) w :
  NoDup (routes w) -> r ∉ routes (snd (delRoute r w)).
Proof.
  intros Hnd. unfold delRoute.
  destruct (remove_first _ (routes w)) as [l|] eqn:Hrm; cbn [snd routes set_routes].
  - destruct (remove_first_Some _ _ _ Hrm) as (l1 & x & l2 & Hl & Hx & -> & _).
    apply bool_decide_eq_true in Hx. subst x. rewrite Hl in Hnd.
    apply NoDup_app in Hnd as (_ & Hl1 & Hl2). apply NoDup_cons in Hl2 as [Hl2 _].
    intros Hin. apply elem_of_app in Hin as [Hin|Hin]; [|exact (Hl2 Hin)].
    apply (Hl1 r Hin). apply elem_of_cons. left. reflexivity.
  - apply remove_first_None in Hrm. intros Hin.
    rewrite Forall_forall in Hrm. specialize (Hrm r Hin).
    apply bool_decide_eq_false in Hrm. congruence.
Qed.

Lemma ensureHelper_nil_converges (r : Rule) (ensureCount : Z) w :
  ensureCount = 0 \/ ensureCount = 1 ->
  result_of (IPRuleConfig_ensureHelper (ruleConfig r) ensureCount w) = Returns None ->
  count_matching r (rules (world_of (IPRuleConfig_ensureHelper (ruleConfig r)
                                       ensureCount w))) = ensureCount.
Proof.
  intros Hec Hres.
  assert (Forall succeeded (trace_of (IPRuleConfig_ensureHelper (ruleConfig r) ensureCount w)))
    as Hok.
  { rewrite IPRuleConfig_ensureHelper_refkernel in Hres |- *.
    cbn [result_of trace_of fst snd] in Hres |- *.
    constructor; [reflexivity|].
    apply ensureLoop_nil_all_succeeded; [exact Hec|reflexivity|exact Hres]. }
  exact (proj1 (ensureHelper_converges (ruleConfig r) rules (RefKernel_RuleKernel r)
                  ensureCount w Hok)).
Qed.

End Postconditions.

(** X11. On the reference model of the host, with no route held twice, a nil
    result means the state is the one asked for.  After [Ensure(true)]
    returns nil the kernel parameter holds [Value], the route is in the
    table, exactly one rule equals the config's rule without priority, the
    chain exists and holds every rule spec of the config.  After
    [Ensure(false)] returns nil the parameter holds [DefaultValue], the route
    is not in the table, no rule equals the config's rule without priority,
    and a chain that is not a default chain is gone. *)
Theorem Ensure_nil_establishes_state (c : Config RefKernel.State) (enabled : bool)
    (w : RefKernel.State) :
  RefKernel.bound c ->
  NoDup (RefKernel.routes w) ->
  disables_default_chain c enabled = false ->
  result_of (Ensure c enabled w) = Returns None ->
  if enabled then Desired.present c (world_of (Ensure c enabled w))
  else Desired.absent c (world_of (Ensure c enabled w)).
Proof.
  intros Hbound Hroutes Hchain Hres.
  destruct Hbound as [key value defaultValue|r|r|table chain isDefault specs];
    cbn [Ensure] in Hres |- *.
  - rewrite SysctlConfig_Ensure_run in Hres |- *. cbv zeta in Hres |- *.
    cbn [result_of world_of fst snd Key Value DefaultValue SysctlFunc
         RefKernel.sysctlConfig] in Hres |- *.
    injection Hres as Hres.
    destruct enabled; cbn [Desired.present Desired.absent Key Value DefaultValue
                           RefKernel.sysctlConfig];
      apply setParam_sets; exact Hres.
  - destruct enabled; cbn [Desired.present Desired.absent Route_ RefKernel.routeConfig].
    + rewrite IPRouteConfig_Ensure_true.
      cbn [world_of fst snd RouteAdd Route_ RefKernel.routeConfig].
      apply addRoute_present.
    + rewrite IPRouteConfig_Ensure_false_world. cbn [RouteDel Route_ RefKernel.routeConfig].
      apply delRoute_absent. exact Hroutes.
  - unfold IPRuleConfig_Ensure in Hres |- *.
    destruct enabled; cbn [Desired.present Desired.absent Rule_ RefKernel.ruleConfig];
      apply ensureHelper_nil_converges; auto.
  - destruct enabled;
      cbn [Desired.present Desired.absent Spec RuleSpecs TableName ChainName
           RefKernel.chainConfig].
    + destruct (chain_enable_run table chain isDefault specs w) as (_ & l & Hl & Hall).
      exists l. split; assumption.
    + cbn in Hchain. apply andb_false_iff in Hchain as [Hd|Hd]; [|discriminate Hd].
      destruct (chain_disable_run table chain isDefault specs w Hd) as [_ ->].
      cbn [RefKernel.chains RefKernel.set_chains]. apply lookup_delete_eq.
Qed.

(** X11 on the reference model: disabling the rule held under two
    priorities leaves no copy. *)
Lemma Ensure_nil_establishes_state_witness :
  Desired.absent (Config_IPRule (RefKernel.ruleConfig Inputs.localRule))
    (world_of (Ensure (Config_IPRule (RefKernel.ruleConfig Inputs.localRule)) false
                 Inputs.twoCopies)).
Proof.
  apply (Ensure_nil_establishes_state
           (Config_IPRule (RefKernel.ruleConfig Inputs.localRule)) false Inputs.twoCopies).
  - constructor.
  - constructor.
  - reflexivity.
  - vm_compute. reflexivity.
Defined.

(** ** A rule without a priority on the reference model *)

Section UnsetPriority.

Import RefKernel.

Variable rule : Rule.
Hypothesis unset : Priority rule < 0.

Lemma selects_unset (k : Rule) : selects rule k = isRuleEqualWithoutPriority k rule.
Proof.
  unfold selects. replace (Priority rule <? 0) with true by (symmetry; apply Z.ltb_lt; exact unset).
  cbn [orb]. apply andb_true_r.
Qed.

Lemma count_positive_delete_succeeds (l : list Rule) :
  0 < count_matching rule l -> exists l', remove_first (selects rule) l = Some l'.
Proof.
  intros Hpos. destruct (remove_first (selects rule) l) as [l'|] eqn:Hrm; [eauto|].
  exfalso. apply remove_first_None in Hrm.
  induction l as [|x l IH]; [cbn in Hpos; lia|].
  apply Forall_cons in Hrm as [Hx Hl]. rewrite selects_unset in Hx.
  rewrite count_matching_cons, Hx in Hpos. apply IH; [lia|exact Hl].
Qed.

Lemma ensureLoop_unset_all_succeeded (ensureCount ruleCount : Z) w :
  ensureCount = 0 \/ ensureCount = 1 ->
  count_matching rule (rules w) = ruleCount ->
  Forall succeeded (trace_of (ensureLoop (ruleConfig rule) ensureCount ruleCount None w)).
Proof.
  intros Hec.
  remember (Z.abs_nat (ruleCount - ensureCount)) as n eqn:Hn.
  revert ruleCount w Hn.
  induction n as [|n IH]; intros ruleCount w Hn Hcount.
  - assert (ruleCount = ensureCount) as -> by lia.
    rewrite ensureLoop_done. constructor.
  - pose proof (count_matching_nonneg rule (rules w)) as Hnn.
    destruct (Z_gt_dec ruleCount ensureCount) as [Hgt|Hle].
    + rewrite (ensureLoop_delete_run _ ensureCount ruleCount None w Hgt).
      cbv zeta. cbn [trace_of fst snd RuleDel Rule_ ruleConfig].
      pose proof (del_removes_one _ _ (RefKernel_RuleKernel rule) w) as Hdel.
      cbn [RuleDel Rule_ ruleConfig] in Hdel. unfold delRule in Hdel |- *.
      destruct (count_positive_delete_succeeds (rules w) ltac:(lia)) as [l Hrm].
      rewrite Hrm in Hdel |- *. cbn [fst snd kept_error log_line app].
      constructor; [reflexivity|].
      apply IH; [lia|]. rewrite (Hdel _ eq_refl). lia.
    + assert (ruleCount = 0 /\ ensureCount = 1) as [-> ->] by lia.
      rewrite (ensureLoop_add_run _ 1 0 None w ltac:(lia)).
      cbv zeta. cbn [trace_of snd fst RuleAdd Rule_ ruleConfig].
      unfold addRule. case_bool_decide as Hin.
      * apply count_matching_elem in Hin. lia.
      * cbn [fst snd kept_error os_IsExist log_line app].
        change (0 + 1) with 1. rewrite ensureLoop_done.
        constructor; [reflexivity|constructor].
Qed.

End UnsetPriority.

(** X12. On the reference model, a config whose rule has no priority set
    converges from every kernel state in one call: [Ensure(true)] returns nil
    and leaves exactly one rule equal to it without priority,
    [Ensure(false)] returns nil and leaves none, whatever number of copies
    the kernel held and under whatever priorities. *)
Theorem IPRuleConfig_Ensure_unset_priority_converges (rule : Rule) (enabled : bool)
    (w : RefKernel.State) :
  Priority rule < 0 ->
  result_of (IPRuleConfig_Ensure (RefKernel.ruleConfig rule) enabled w) = Returns None /\
  count_matching rule
    (RefKernel.rules (world_of (IPRuleConfig_Ensure (RefKernel.ruleConfig rule) enabled w)))
    = (if enabled then 1 else 0).
Proof.
  intros Hunset.
  assert (forall ensureCount,
            ensureCount = 0 \/ ensureCount = 1 ->
            result_of (IPRuleConfig_ensureHelper (RefKernel.ruleConfig rule) ensureCount w)
              = Returns None /\
            count_matching rule
              (RefKernel.rules (world_of (IPRuleConfig_ensureHelper
                                            (RefKernel.ruleConfig rule) ensureCount w)))
              = ensureCount) as Hhelper.
  { intros ensureCount Hec.
    assert (Forall succeeded
              (trace_of (IPRuleConfig_ensureHelper (RefKernel.ruleConfig rule)
                           ensureCount w))) as Hok.
    { rewrite IPRuleConfig_ensureHelper_refkernel. cbn [trace_of snd].
      constructor; [reflexivity|].
      apply ensureLoop_unset_all_succeeded; [exact Hunset|exact Hec|reflexivity]. }
    destruct (ensureHelper_converges (RefKernel.ruleConfig rule) RefKernel.rules
                (RefKernel_RuleKernel rule) ensureCount w Hok) as [Hcount Hres].
    split; [exact Hres|exact Hcount]. }
  unfold IPRuleConfig_Ensure. destruct enabled; apply Hhelper; auto.
Qed.

(** X12 on the kernel that holds the rule under two priorities. *)
Lemma IPRuleConfig_Ensure_unset_priority_converges_witness :
  result_of (IPRuleConfig_Ensure (RefKernel.ruleConfig Inputs.localRule) true
               Inputs.twoCopies) = Returns None /\
  count_matching Inputs.localRule
    (RefKernel.rules (world_of (IPRuleConfig_Ensure (RefKernel.ruleConfig Inputs.localRule)
                                  true Inputs.twoCopies))) = 1.
Proof.
  apply (IPRuleConfig_Ensure_unset_priority_converges Inputs.localRule true Inputs.twoCopies).
  reflexivity.
Defined.

(** ** Enabling and then disabling on a default chain of the reference model *)

Section DefaultChainRoundTrip.

Import RefKernel.

Variables (table chain : string) (specs : list IPTablesRuleSpec).

Local Abbreviation dcfg := (chainConfig table chain true specs).

Lemma remove_first_app_skip {A} `{EqDecision A} (x : A) (l rest : list A) :
  x ∉ l ->
  remove_first (fun k => bool_decide (k = x)) (l ++ x :: rest) = Some (l ++ rest).
Proof.
  intros Hnotin. induction l as [|y l IH]; cbn [app remove_first].
  - rewrite bool_decide_eq_true_2 by reflexivity. reflexivity.
  - apply not_elem_of_cons in Hnotin as [Hne Hnotin].
    rewrite bool_decide_eq_false_2 by congruence. rewrite IH by assumption. reflexivity.
Qed.

Lemma appendRuleSpecs_exact (todo : list IPTablesRuleSpec) w (l : list IPTablesRuleSpec) :
  chains w !! (table, chain) = Some l ->
  NoDup todo ->
  (forall rs, rs ∈ todo -> rs ∉ l) ->
  result_of (appendRuleSpecs dcfg todo w) = Returns None /\
  world_of (appendRuleSpecs dcfg todo w)
    = set_chains (<[(table, chain) := l ++ todo]> (chains w)) w.
Proof.
  revert w l. induction todo as [|rs todo IH]; intros w l Hk Hnd Hfresh.
  - cbn [appendRuleSpecs ret result_of world_of fst snd]. split; [reflexivity|].
    rewrite app_nil_r, insert_id by exact Hk. symmetry. apply set_chains_same.
  - cbn [appendRuleSpecs]. rewrite run_bind, run_extern.
    cbn [chainConfig IPT Spec TableName ChainName ipt AppendUnique].
    unfold appendUniqueRule. rewrite Hk.
    rewrite bool_decide_eq_false_2
      by (apply Hfresh, elem_of_cons; left; reflexivity).
    cbn [fst snd result_of world_of].
    apply NoDup_cons in Hnd as [Hrs Hnd].
    set (w1 := set_chains (<[(table, chain) := l ++ [rs]]> (chains w)) w).
    destruct (IH w1 (l ++ [rs])) as [Hres Hw].
    + unfold w1. cbn [chains set_chains]. apply lookup_insert_eq.
    + exact Hnd.
    + intros rs' Hin Habs. apply elem_of_app in Habs as [Habs|Habs].
      * apply (Hfresh rs'); [apply elem_of_cons; right; exact Hin|exact Habs].
      * apply list_elem_of_singleton in Habs. subst rs'. exact (Hrs Hin).
    + split; [exact Hres|]. rewrite Hw. unfold w1. cbn [chains set_chains].
      rewrite insert_insert_eq, <- app_assoc. reflexivity.
Qed.

Lemma deleteRuleSpecs_exact (todo : list IPTablesRuleSpec) w (l : list IPTablesRuleSpec) :
  chains w !! (table, chain) = Some (l ++ todo) ->
  (forall rs, rs ∈ todo -> rs ∉ l) ->
  result_of (deleteRuleSpecs dcfg todo w) = Returns None /\
  world_of (deleteRuleSpecs dcfg todo w)
    = set_chains (<[(table, chain) := l]> (chains w)) w.
Proof.
  revert w. induction todo as [|rs todo IH]; intros w Hk Hfresh.
  - cbn [deleteRuleSpecs ret result_of world_of fst snd]. split; [reflexivity|].
    rewrite app_nil_r in Hk. rewrite insert_id by exact Hk.
    symmetry. apply set_chains_same.
  - pose proof (deleteRuleSpecs_step dcfg rs todo w) as Hstep. cbv zeta in Hstep.
    rewrite Hstep. clear Hstep.
    cbn [chainConfig IPT Spec TableName ChainName ipt Delete].
    unfold deleteRule. rewrite Hk.
    rewrite remove_first_app_skip
      by (apply Hfresh, elem_of_cons; left; reflexivity).
    cbn [fst snd delete_error_ignored result_of world_of].
    set (w1 := set_chains (<[(table, chain) := l ++ todo]> (chains w)) w).
    destruct (IH w1) as [Hres Hw].
    + unfold w1. cbn [chains set_chains]. apply lookup_insert_eq.
    + intros rs' Hin. apply Hfresh, elem_of_cons. right. exact Hin.
    + split; [exact Hres|]. rewrite Hw. unfold w1. cbn [chains set_chains].
      rewrite insert_insert_eq. reflexivity.
Qed.

Lemma default_chain_enable_exact w (l0 : list IPTablesRuleSpec) :
  chains w !! (table, chain) = Some l0 ->
  NoDup specs ->
  (forall rs, rs ∈ specs -> rs ∉ l0) ->
  result_of (IPTablesRuleConfig_Ensure dcfg true w) = Returns None /\
  world_of (IPTablesRuleConfig_Ensure dcfg true w)
    = set_chains (<[(table, chain) := l0 ++ specs]> (chains w)) w.
Proof.
  intros Hk Hnd Hfresh. unfold IPTablesRuleConfig_Ensure.
  destruct (chain_ensure_true table chain true specs w) as (Hres & _ & Hsame).
  destruct (bind_returns (IPTablesChainSpec_ensure (Spec dcfg) true)
              (fun err => match err with
                          | Some _ => ret err
                          | None => appendRuleSpecs dcfg (RuleSpecs dcfg)
                          end) w None Hres) as [-> ->].
  rewrite (Hsame l0 Hk). apply appendRuleSpecs_exact; assumption.
Qed.

Lemma default_chain_disable_exact w (l0 : list IPTablesRuleSpec) :
  chains w !! (table, chain) = Some (l0 ++ specs) ->
  (forall rs, rs ∈ specs -> rs ∉ l0) ->
  result_of (IPTablesRuleConfig_Ensure dcfg false w) = Returns None /\
  world_of (IPTablesRuleConfig_Ensure dcfg false w)
    = set_chains (<[(table, chain) := l0]> (chains w)) w.
Proof.
  intros Hk Hfresh. unfold IPTablesRuleConfig_Ensure, IPTablesChainSpec_ensure.
  cbn [chainConfig Spec IsDefaultChain RuleSpecs negb]. rewrite run_bind.
  cbn [ret app fst snd].
  destruct (deleteRuleSpecs_exact specs w l0 Hk Hfresh) as [Hres Hw].
  unfold result_of, world_of in *.
  destruct (deleteRuleSpecs _ _ w) as [[res w'] tr]. cbn [fst snd] in *.
  split; assumption.
Qed.

End DefaultChainRoundTrip.

(** X13. On the reference model, take a default chain that exists and a
    config whose rule specs are pairwise distinct and none of which is in the
    chain.  [Ensure(true)] returns nil and appends the rule specs, in their
    order, after the rules the chain held; [Ensure(false)] right after it
    returns nil and gives back the state from before the two calls. *)
Theorem default_chain_enable_disable_round_trip (table chain : string)
    (specs l0 : list IPTablesRuleSpec) (w : RefKernel.State) :
  RefKernel.chains w !! (table, chain) = Some l0 ->
  NoDup specs ->
  (forall rs, rs ∈ specs -> rs ∉ l0) ->
  let c := RefKernel.chainConfig table chain true specs in
  let w1 := world_of (IPTablesRuleConfig_Ensure c true w) in
  result_of (IPTablesRuleConfig_Ensure c true w) = Returns None /\
  RefKernel.chains w1 !! (table, chain) = Some (l0 ++ specs) /\
  result_of (IPTablesRuleConfig_Ensure c false w1) = Returns None /\
  world_of (IPTablesRuleConfig_Ensure c false w1) = w.
Proof.
  intros Hk Hnd Hfresh. cbv zeta.
  destruct (default_chain_enable_exact table chain specs w l0 Hk Hnd Hfresh) as [Hres Hw].
  rewrite Hw. split; [exact Hres|]. split.
  - cbn [RefKernel.chains RefKernel.set_chains]. apply lookup_insert_eq.
  - destruct (default_chain_disable_exact table chain specs
                (RefKernel.set_chains (<[(table, chain) := l0 ++ specs]> (RefKernel.chains w)) w)
                l0) as [Hres' Hw'].
    + cbn [RefKernel.chains RefKernel.set_chains]. apply lookup_insert_eq.
    + exact Hfresh.
    + split; [exact Hres'|]. rewrite Hw', set_chains_set_chains.
      cbn [RefKernel.chains RefKernel.set_chains].
      rewrite insert_insert_eq. rewrite insert_id by exact Hk. apply set_chains_same.
Qed.

(** X13 on the reference model: the chain holds a jump, the config owns a
    marking rule. *)
Lemma default_chain_enable_disable_round_trip_witness :
  RefKernel.chains (world_of (IPTablesRuleConfig_Ensure Cases3.markConfig true
                                Cases2.oneJump)) !! ("mangle", "PREROUTING")
    = Some ([Inputs.jump] ++ [Cases3.mark]) /\
  world_of (IPTablesRuleConfig_Ensure Cases3.markConfig false
              (world_of (IPTablesRuleConfig_Ensure Cases3.markConfig true Cases2.oneJump)))
    = Cases2.oneJump.
Proof.
  destruct (default_chain_enable_disable_round_trip "mangle" "PREROUTING"
              [Cases3.mark] [Inputs.jump] Cases2.oneJump) as (_ & Hchain & _ & Hback).
  - vm_compute. reflexivity.
  - apply NoDup_singleton.
  - intros rs Hin Habs.
    apply list_elem_of_singleton in Hin. apply list_elem_of_singleton in Habs.
    subst rs. discriminate Habs.
  - split; [exact Hchain|exact Hback].
Defined.

(** ** Enabling and then disabling what was absent *)

Section RoundTrip.

Import RefKernel.

Lemma set_sysctls_same w : set_sysctls (sysctls w) w = w.
Proof. destruct w; reflexivity. Qed.

Lemma set_routes_same w : set_routes (routes w) w = w.
Proof. destruct w; reflexivity. Qed.

Lemma set_rules_same w : set_rules (rules w) w = w.
Proof. destruct w; reflexivity. Qed.

Lemma sysctl_round_trip (key value defaultValue : string) w :
  let c := sysctlConfig key value defaultValue in
  sysctls w !! key = Some defaultValue ->
  result_of (SysctlConfig_Ensure c true w) = Returns None /\
  result_of (SysctlConfig_Ensure c false (world_of (SysctlConfig_Ensure c true w)))
    = Returns None /\
  world_of (SysctlConfig_Ensure c false (world_of (SysctlConfig_Ensure c true w))) = w.
Proof.
  cbv zeta. intros Hkey. rewrite !SysctlConfig_Ensure_run.
  cbn [Key Value DefaultValue SysctlFunc sysctlConfig result_of world_of fst snd].
  assert (setParam key [value] w =
          ((value, None), set_sysctls (<[key := value]> (sysctls w)) w)) as ->
    by (unfold setParam; rewrite Hkey; reflexivity).
  cbn [fst snd]. split; [reflexivity|].
  unfold setParam. cbn [sysctls set_sysctls]. rewrite lookup_insert_eq.
  cbn [fst snd]. split; [reflexivity|].
  unfold set_sysctls. cbn [sysctls routes rules chains].
  rewrite insert_insert_eq, insert_id by exact Hkey. apply set_sysctls_same.
Qed.

Lemma route_round_trip (r : Route) w :
  let c := routeConfig r in
  r ∉ routes w ->
  result_of (IPRouteConfig_Ensure c true w) = Returns None /\
  result_of (IPRouteConfig_Ensure c false (world_of (IPRouteConfig_Ensure c true w)))
    = Returns None /\
  world_of (IPRouteConfig_Ensure c false (world_of (IPRouteConfig_Ensure c true w))) = w.
Proof.
  cbv zeta. intros Habsent.
  rewrite IPRouteConfig_Ensure_true, IPRouteConfig_Ensure_false_world.
  cbn [result_of world_of fst snd RouteAdd RouteDel Route_ routeConfig].
  assert (addRoute r w = (None, set_routes (routes w ++ [r]) w)) as ->
    by (unfold addRoute; rewrite bool_decide_eq_false_2 by exact Habsent; reflexivity).
  cbn [fst snd os_IsExist].
  assert (delRoute r (set_routes (routes w ++ [r]) w) = (None, w)) as Hdel.
  { unfold delRoute. cbn [routes set_routes].
    rewrite remove_first_app_skip by exact Habsent. rewrite app_nil_r.
    unfold set_routes. cbn [sysctls routes rules chains].
    f_equal. apply set_routes_same. }
  split; [reflexivity|]. split.
  - apply IPRouteConfig_Ensure_false_nil.
    cbn [RouteDel Route_ routeConfig]. rewrite Hdel. reflexivity.
  - rewrite Hdel. reflexivity.
Qed.

Lemma count_zero_none_selected (r : Rule) (l : list Rule) :
  count_matching r l = 0 -> Forall (fun k => isRuleEqualWithoutPriority k r = false) l.
Proof.
  induction l as [|x l IH]; intros Hzero; [constructor|].
  rewrite count_matching_cons in Hzero. pose proof (count_matching_nonneg r l).
  destruct (isRuleEqualWithoutPriority x r) eqn:Hx; [lia|].
  constructor; [exact Hx|apply IH; lia].
Qed.

Lemma remove_first_app_last {A} (p : A -> bool) (l : list A) (x : A) :
  Forall (fun k => p k = false) l -> p x = true ->
  remove_first p (l ++ [x]) = Some l.
Proof.
  intros Hl Hx. induction Hl as [|y l Hy _ IH]; cbn [app remove_first].
  - rewrite Hx. reflexivity.
  - rewrite Hy, IH. reflexivity.
Qed.

Lemma rule_round_trip (r : Rule) w :
  let c := ruleConfig r in
  count_matching r (rules w) = 0 ->
  result_of (IPRuleConfig_Ensure c true w) = Returns None /\
  result_of (IPRuleConfig_Ensure c false (world_of (IPRuleConfig_Ensure c true w)))
    = Returns None /\
  world_of (IPRuleConfig_Ensure c false (world_of (IPRuleConfig_Ensure c true w))) = w.
Proof.
  cbv zeta. intros Hzero. unfold IPRuleConfig_Ensure.
  assert (IPRuleConfig_ensureHelper (ruleConfig r) 1 w =
          (Returns None, set_rules (rules w ++ [r]) w,
           [EvRuleList AF_INET (rules w) None; EvRuleAdd r None])) as Hadd.
  { rewrite IPRuleConfig_ensureHelper_refkernel, Hzero.
    rewrite (ensureLoop_add_run _ 1 0 None w ltac:(lia)). cbv zeta.
    cbn [RuleAdd Rule_ ruleConfig]. unfold addRule.
    case_bool_decide as Hin; [apply count_matching_elem in Hin; lia|].
    cbn [fst snd kept_error os_IsExist log_line app].
    change (0 + 1) with 1. rewrite ensureLoop_done. reflexivity. }
  rewrite Hadd. cbn [result_of world_of fst snd]. split; [reflexivity|].
  rewrite IPRuleConfig_ensureHelper_refkernel. cbn [rules set_rules].
  rewrite count_matching_app, Hzero, count_matching_cons,
    isRuleEqualWithoutPriority_refl.
  change (0 + (1 + count_matching r [])) with 1.
  rewrite (ensureLoop_delete_run _ 0 1 None _ ltac:(lia)). cbv zeta.
  cbn [RuleDel Rule_ ruleConfig]. unfold delRule. cbn [rules set_rules].
  rewrite remove_first_app_last.
  - cbn [fst snd kept_error log_line app]. change (1 - 1) with 0.
    rewrite ensureLoop_done. cbn [result_of world_of fst snd ret].
    split; [reflexivity|]. unfold set_rules. cbn [sysctls routes rules chains].
    apply set_rules_same.
  - apply count_zero_none_selected in Hzero.
    eapply Forall_impl; [exact Hzero|]. intros k Hk. unfold selects.
    cbn beta in Hk. rewrite Hk. reflexivity.
  - unfold selects. rewrite isRuleEqualWithoutPriority_refl, Z.eqb_refl, orb_true_r.
    reflexivity.
Qed.

Lemma appendRuleSpecs_world (table chain : string) (isDefault : bool)
    (specs todo : list IPTablesRuleSpec) w (l : list IPTablesRuleSpec) :
  chains w !! (table, chain) = Some l ->
  exists l', world_of (appendRuleSpecs (chainConfig table chain isDefault specs) todo w)
             = set_chains (<[(table, chain) := l']> (chains w)) w.
Proof.
  revert w l. induction todo as [|rs todo IH]; intros w l Hk.
  - exists l. cbn [appendRuleSpecs ret world_of fst snd].
    rewrite insert_id by exact Hk. symmetry. apply set_chains_same.
  - cbn [appendRuleSpecs]. rewrite run_bind, run_extern.
    cbn [chainConfig IPT Spec TableName ChainName ipt AppendUnique].
    unfold appendUniqueRule. rewrite Hk.
    case_bool_decide as Hin; cbn [fst snd world_of].
    + apply (IH w l Hk).
    + set (w1 := set_chains (<[(table, chain) := l ++ [rs]]> (chains w)) w).
      destruct (IH w1 (l ++ [rs])) as [l' Hw].
      * unfold w1. cbn [chains set_chains]. apply lookup_insert_eq.
      * exists l'. rewrite Hw. unfold w1. cbn [chains set_chains].
        rewrite insert_insert_eq. reflexivity.
Qed.

Lemma chain_round_trip (table chain : string) (specs : list IPTablesRuleSpec) w :
  let c := chainConfig table chain false specs in
  chains w !! (table, chain) = None ->
  result_of (IPTablesRuleConfig_Ensure c true w) = Returns None /\
  result_of (IPTablesRuleConfig_Ensure c false (world_of (IPTablesRuleConfig_Ensure c true w)))
    = Returns None /\
  world_of (IPTablesRuleConfig_Ensure c false (world_of (IPTablesRuleConfig_Ensure c true w)))
    = w.
Proof.
  cbv zeta. intros Habsent.
  destruct (chain_enable_run table chain false specs w) as [Hres _].
  split; [exact Hres|].
  destruct (chain_disable_run table chain false specs
              (world_of (IPTablesRuleConfig_Ensure (chainConfig table chain false specs)
                           true w)) eq_refl) as [Hres' Hw'].
  split; [exact Hres'|]. rewrite Hw'. clear Hres' Hw'.
  unfold IPTablesRuleConfig_Ensure.
  destruct (chain_ensure_true table chain false specs w) as (Hens & _ & _).
  destruct (bind_returns (IPTablesChainSpec_ensure (Spec (chainConfig table chain false specs)) true)
              (fun err => match err with
                          | Some _ => ret err
                          | None => appendRuleSpecs (chainConfig table chain false specs)
                                      (RuleSpecs (chainConfig table chain false specs))
                          end) w None Hens) as [_ ->].
  assert (world_of (IPTablesChainSpec_ensure (Spec (chainConfig table chain false specs)) true w)
          = set_chains (<[(table, chain) := []]> (chains w)) w) as ->.
  { unfold IPTablesChainSpec_ensure. rewrite run_bind, run_extern.
    cbn [Spec chainConfig SpecIPT TableName ChainName ipt NewChain].
    unfold newChain. rewrite Habsent. reflexivity. }
  destruct (appendRuleSpecs_world table chain false specs specs
              (set_chains (<[(table, chain) := []]> (chains w)) w) [])
    as [l' Hw].
  { cbn [chains set_chains]. apply lookup_insert_eq. }
  cbn [RuleSpecs chainConfig] in Hw |- *. rewrite Hw, !set_chains_set_chains.
  cbn [chains set_chains]. rewrite insert_insert_eq, delete_insert_eq.
  rewrite delete_id by exact Habsent. apply set_chains_same.
Qed.

End RoundTrip.

(** X14. On the reference model, enabling and then disabling a config gives
    back the state from before, with both calls returning nil, whenever the
    state was the disabled one to begin with: the kernel parameter held
    [DefaultValue], the route was not in the table, no rule equalled the
    config's rule without priority, the chain, not a default chain, did not
    exist. *)
Theorem Ensure_enable_disable_round_trip (c : Config RefKernel.State)
    (w : RefKernel.State) :
  RefKernel.bound c ->
  disables_default_chain c false = false ->
  Desired.absent c w ->
  result_of (Ensure c true w) = Returns None /\
  result_of (Ensure c false (world_of (Ensure c true w))) = Returns None /\
  world_of (Ensure c false (world_of (Ensure c true w))) = w.
Proof.
  intros Hbound Hchain Habsent.
  destruct Hbound as [key value defaultValue|r|r|table chain isDefault specs];
    cbn [Ensure Desired.absent Key DefaultValue Route_ Rule_ Spec TableName ChainName
         RefKernel.sysctlConfig RefKernel.routeConfig RefKernel.ruleConfig
         RefKernel.chainConfig] in Habsent |- *.
  - apply sysctl_round_trip. exact Habsent.
  - apply route_round_trip. exact Habsent.
  - apply rule_round_trip. exact Habsent.
  - cbn in Hchain. apply andb_false_iff in Hchain as [->|Hd]; [|discriminate Hd].
    apply chain_round_trip. exact Habsent.
Qed.

(** X14 on the reference model: a kernel parameter that holds its default. *)
Lemma Ensure_enable_disable_round_trip_witness :
  world_of (Ensure Inputs.forwarding false
              (world_of (Ensure Inputs.forwarding true Inputs.forwardingOff)))
    = Inputs.forwardingOff.
Proof.
  apply (Ensure_enable_disable_round_trip Inputs.forwarding Inputs.forwardingOff).
  - constructor.
  - reflexivity.
  - vm_compute. reflexivity.
Defined.

(** ** The gateway lies in the pod network *)

Lemma masked_byte_table :
  forallb (fun m => forallb (masked_byte_ok m) (seqZ 0 256)) maskBytes = true.
Proof. vm_compute. reflexivity. Qed.

Lemma masked_byte (m a : Z) :
  In m maskBytes -> 0 <= a <= 255 ->
  0 <= Z.land a m <= 255 /\ Z.land (Z.land a m) m = Z.land a m /\
  (m <> 255 -> Z.land a m + 1 <= 255 /\ Z.land (Z.land a m + 1) m = Z.land a m).
Proof.
  intros Hm Ha.
  pose proof masked_byte_table as Htable.
  rewrite forallb_forall in Htable. specialize (Htable m Hm).
  rewrite forallb_forall in Htable.
  assert (In a (seqZ 0 256)) as Hin
    by (apply list_elem_of_In, elem_of_seqZ; lia).
  specialize (Htable a Hin). unfold masked_byte_ok in Htable. cbv zeta in Htable.
  apply andb_true_iff in Htable as [Htable Hnext].
  apply andb_true_iff in Htable as [Htable Hidem].
  apply andb_true_iff in Htable as [Hlo Hhi].
  apply Z.leb_le in Hlo, Hhi. apply Z.eqb_eq in Hidem.
  split; [lia|]. split; [exact Hidem|]. intros Hne.
  apply orb_true_iff in Hnext as [H255|Hnext]; [apply Z.eqb_eq in H255; congruence|].
  apply andb_true_iff in Hnext as [Hle Hback].
  apply Z.leb_le in Hle. apply Z.eqb_eq in Hback. split; assumption.
Qed.

Lemma CIDRMask_4_bytes (n : Z) :
  0 <= n <= 31 ->
  exists m1 m2 m3 m4,
    CIDRMask 4 n = [m1; m2; m3; m4] /\
    In m1 maskBytes /\ In m2 maskBytes /\ In m3 maskBytes /\ In m4 maskBytes /\
    m4 <> 255.
Proof.
  intros Hn.
  assert (Forall (fun n => exists m1 m2 m3 m4,
                    CIDRMask 4 n = [m1; m2; m3; m4] /\
                    In m1 maskBytes /\ In m2 maskBytes /\ In m3 maskBytes /\
                    In m4 maskBytes /\ m4 <> 255)
                 (seqZ 0 32)) as Hall.
  { let l := eval vm_compute in (seqZ 0 32) in change (seqZ 0 32) with l.
    repeat (constructor;
            [do 4 eexists; split; [vm_compute; reflexivity|];
             repeat split; try (cbn; tauto); discriminate|]).
    constructor. }
  rewrite Forall_forall in Hall. apply Hall, elem_of_seqZ. lia.
Qed.

Lemma ParseCIDR_network (cidr : string) (podNet : IPNet) :
  ParseCIDR cidr = Some podNet ->
  exists a b c d n,
    0 <= a <= 255 /\ 0 <= b <= 255 /\ 0 <= c <= 255 /\ 0 <= d <= 255 /\
    0 <= n <= 32 /\
    podNet = {| IP := Some (maskIP [a; b; c; d] (CIDRMask 4 n));
                Mask := Some (CIDRMask 4 n) |}.
Proof.
  unfold ParseCIDR.
  destruct (cut "/" cidr) as [[addr bits]|]; [|discriminate].
  destruct (parseIPv4 addr) as [ip|] eqn:Hip; [|discriminate].
  destruct (dtoi bits) as [n|] eqn:Hn; [|discriminate].
  destruct (n <=? 32) eqn:Hle; [|discriminate].
  intros [= <-]. apply Z.leb_le in Hle. apply dtoi_nonneg in Hn.
  destruct (parseIPv4_bytes _ _ Hip) as (a & b & c & d & -> & Ha & Hb & Hc & Hd).
  exists a, b, c, d, n. repeat split; lia.
Qed.

Lemma next_address_no_carry (x1 x2 x3 x4 : Z) :
  0 <= x1 <= 255 -> 0 <= x2 <= 255 -> 0 <= x3 <= 255 -> 0 <= x4 <= 254 ->
  Z_to_ipv4 ((ipv4_to_Z [x1; x2; x3; x4] + 1) mod 4294967296) = [x1; x2; x3; x4 + 1].
Proof.
  intros H1 H2 H3 H4. unfold ipv4_to_Z, Z_to_ipv4. cbn [fold_left].
  rewrite (Z.mod_small _ 4294967296) by lia.
  set (n := (((0 * 256 + x1) * 256 + x2) * 256 + x3) * 256 + x4 + 1).
  assert (n = 16777216 * x1 + 65536 * x2 + 256 * x3 + (x4 + 1)) as Hn
    by (unfold n; lia).
  assert (n / 16777216 = x1) as ->
    by (symmetry;
        apply (Z.div_unique n 16777216 x1 (65536 * x2 + 256 * x3 + (x4 + 1))); lia).
  assert (n / 65536 = 256 * x1 + x2) as ->
    by (symmetry; apply (Z.div_unique n 65536 _ (256 * x3 + (x4 + 1))); lia).
  assert (n / 256 = 65536 * x1 + 256 * x2 + x3) as ->
    by (symmetry; apply (Z.div_unique n 256 _ (x4 + 1)); lia).
  assert (n mod 256 = x4 + 1) as ->
    by (symmetry; apply (Z.mod_unique n 256 (65536 * x1 + 256 * x2 + x3)); lia).
  rewrite (Z.mod_small x1) by lia.
  assert ((256 * x1 + x2) mod 256 = x2) as ->
    by (symmetry; apply (Z.mod_unique _ 256 x1); lia).
  assert ((65536 * x1 + 256 * x2 + x3) mod 256 = x3) as ->
    by (symmetry; apply (Z.mod_unique _ 256 (256 * x1 + x2)); lia).
  reflexivity.
Qed.

(** X15. For a pod CIDR that parses and whose prefix is shorter than 32
    bits, the gateway that the builder derives is the base address of the
    network plus one without any carry, it differs from the base address, and
    it lies in the pod network: masking it with the mask of the CIDR gives the
    base address back. *)
Theorem gateway_inside_pod_network (cidr : string) (podNet : IPNet) :
  ParseCIDR cidr = Some podNet ->
  Mask podNet <> Some [255; 255; 255; 255] ->
  exists base mask gw,
    IP podNet = Some base /\ Mask podNet = Some mask /\
    IP (gatewayOf podNet) = Some gw /\
    ipv4_to_Z gw = ipv4_to_Z base + 1 /\
    gw <> base /\
    maskIP gw mask = base.
Proof.
  intros Hparse Hmask.
  destruct (ParseCIDR_network _ _ Hparse)
    as (a & b & c & d & n & Ha & Hb & Hc & Hd & Hn & ->).
  cbn [IP Mask] in Hmask |- *.
  assert (n <> 32) as Hn32 by (intros ->; apply Hmask; reflexivity).
  destruct (CIDRMask_4_bytes n ltac:(lia))
    as (m1 & m2 & m3 & m4 & Hm & Hm1 & Hm2 & Hm3 & Hm4 & Hm4ne).
  rewrite Hm. cbn [maskIP].
  destruct (masked_byte m1 a Hm1 Ha) as (Hx1 & Hi1 & _).
  destruct (masked_byte m2 b Hm2 Hb) as (Hx2 & Hi2 & _).
  destruct (masked_byte m3 c Hm3 Hc) as (Hx3 & Hi3 & _).
  destruct (masked_byte m4 d Hm4 Hd) as (Hx4 & Hi4 & Hnext).
  destruct (Hnext Hm4ne) as [Hx4' Hback].
  exists [Z.land a m1; Z.land b m2; Z.land c m3; Z.land d m4], [m1; m2; m3; m4],
         [Z.land a m1; Z.land b m2; Z.land c m3; Z.land d m4 + 1].
  split; [reflexivity|]. split; [reflexivity|]. split.
  - unfold gatewayOf. cbn [IP]. rewrite next_address_no_carry by lia. reflexivity.
  - split; [unfold ipv4_to_Z; cbn [fold_left]; lia|]. split.
    + intros [= Heq]. lia.
    + cbn [maskIP]. rewrite Hi1, Hi2, Hi3, Hback. reflexivity.
Qed.

(** X15 on the pod CIDR of the shell test case. *)
Lemma gateway_inside_pod_network_witness :
  exists base mask gw,
    Some {| IP := Some [10; 52; 1; 0]; Mask := Some [255; 255; 255; 0] |}
      = Some {| IP := Some base; Mask := Some mask |} /\
    gw = [10; 52; 1; 1] /\ maskIP gw mask = base.
Proof.
  destruct (gateway_inside_pod_network "10.52.1.0/24"
              {| IP := Some [10; 52; 1; 0]; Mask := Some [255; 255; 255; 0] |})
    as (base & mask & gw & Hbase & Hmask & Hgw & _ & _ & Hin).
  - reflexivity.
  - discriminate.
  - cbn [IP Mask] in Hbase, Hmask. injection Hbase as <-. injection Hmask as <-.
    exists [10; 52; 1; 0], [255; 255; 255; 0], gw.
    split; [reflexivity|]. split; [|exact Hin].
    vm_compute in Hgw. injection Hgw as <-. reflexivity.
Defined.
